(** * PromEmu emulation engine: a shallow embedding and its verified properties

    The development follows the layout of [core/emulation]: the scenario
    storage ([storage.py]), the event record ([events.py]), the emulated
    metric ([metrics.py]), the emulated host ([hosts.py]), the mixer
    registry ([mixer.py]), the scenario library ([scenarios.py]) and the
    utilities ([utils.py]).

    Numeric model.  A Python [float] is modelled by an exact rational [Q]:
    arithmetic and comparisons are those of the rationals, [round(x, 2)] is
    decimal round-half-to-even, and [int(x)] is truncation.  Binary rounding
    error, and infinities and NaN as values, are outside the model.  Two
    places where the code itself meets an infinity are kept: the default
    [ttl = float('inf')], which is the [None] of [ttl : option Q], and the
    overflow of the product in [size_to_bytes], which [int] turns into an
    [OverflowError].  [Optional[float]] is [option Q].

    Effects.  Every [time.time()] reading is an explicit argument, every
    [random.random()] draw is an explicit argument in [[0,1)], mutable
    objects are threaded as values, raised exceptions are the [Raise] branch
    of [result], and log records and scheduled bus emissions are returned
    as lists.  Of the logging, the warnings and errors are kept and the
    debug and info records are left out.  A scenario is any callable: it
    is given by what a call returns, stores, emits and logs; the contexts
    of linked metrics are passed to it as they are at the call.

    Strings are sequences of code points below 256, with Python's
    [lower], [strip], [\d] and [\s] on that range. *)

(** The event bus ([events.py]) and the choice and validation of a
    configuration class ([loader.py]) are embedded as well.  The
    subscribers of an event are a set of pairs of a flag and a callback, as
    in the code; the tasks that [emit] creates are given as a list, and no
    property depends on the order in which a Python set is iterated.  The
    file, import and instantiation steps of the loader, the network side
    of the mixer and [sine_wave] are not embedded. *)

From Stdlib Require Import QArith Qround Qminmax Lqa ZArith Lia String Ascii List Bool Sorted.
From stdpp Require Import base option gmap strings list.

Local Open Scope Q_scope.
Local Open Scope string_scope.

(* ===================================================================== *)
(** * Python values and numerics *)
(* ===================================================================== *)

Module Py.

(** Exceptions, by class and by the raise site that the code distinguishes. *)
Inductive exn :=
| ValueError (site : string)
| TypeError (site : string)
| AttributeError (site : string)
| KeyError (site : string)
| OverflowError (site : string)
| MixerError (site : string).

Inductive result (A : Type) :=
| Ok (a : A)
| Raise (e : exn).
Arguments Ok {A} a.
Arguments Raise {A} e.

Definition is_raise {A} (r : result A) : bool :=
  match r with Raise _ => true | Ok _ => false end.

(** [x < y] on floats. *)
Definition Qltb (x y : Q) : bool := negb (Qle_bool y x).

(** [x <= y] on floats. *)
Definition Qleb (x y : Q) : bool := Qle_bool x y.

(** [x == y] on floats. *)
Definition Qeqb (x y : Q) : bool := Qeq_bool x y.

(** Round to the nearest integer, ties to the even one: the rounding that
    Python's [round] applies to the exact value of its argument. *)
Definition round_half_even (x : Q) : Z :=
  let f := Qfloor x in
  let twice_frac := (x - inject_Z f) * 2 in
  if Qltb twice_frac 1 then f
  else if Qltb 1 twice_frac then (f + 1)%Z
  else if Z.even f then f else (f + 1)%Z.

(** [round(x, ndigits)] for a float [x] and [ndigits >= 0]. *)
Definition round (x : Q) (ndigits : nat) : Q :=
  let scale := inject_Z (10 ^ Z.of_nat ndigits) in
  inject_Z (round_half_even (x * scale)) / scale.

(** [x % y] on floats, for [y > 0]: the result has the sign of [y]. *)
Definition fmod (x y : Q) : Q := x - inject_Z (Qfloor (x / y)) * y.

(** [random.uniform(a, b)] is [a + (b - a) * random.random()]; [u] is the
    draw of [random.random()], a float in [[0, 1)]. *)
Definition uniform (a b : Q) (u : Q) : Q := a + (b - a) * u.

(** Log records: the level, the message template and its arguments. *)
Inductive level := DEBUG | INFO | WARNING | ERROR.

Record log_record := {
  log_level : level;
  log_message : string;
  log_args : list string;
}.

(** A reference to a callable: an attribute of the scenario library reached
    by name, or any other callable object. *)
Inductive func :=
| LibFunc (name : string)
| UserFunc (id : nat).

(** The values the engine keeps in [Dict[str, Any]] stores. *)
#[warnings="-register-all"]
Inductive pyval :=
| VNone
| VBool (b : bool)
| VNum (q : Q)
| VStr (s : string)
| VTuple (items : list pyval)
| VDict (items : list (string * pyval))
| VFunc (f : func).

(** Keyword arguments, [**scenario_data]. *)
Abbreviation kwargs := (list (string * pyval)).

(** [bool(v)]. *)
Definition truthy (v : pyval) : bool :=
  match v with
  | VNone => false
  | VBool b => b
  | VNum q => negb (Qeqb q 0)
  | VStr s => negb (String.eqb s "")
  | VTuple l => negb (Nat.eqb (length l) 0)
  | VDict l => negb (Nat.eqb (length l) 0)
  | VFunc _ => true
  end.

(** [v is None]. *)
Definition is_none (v : pyval) : bool :=
  match v with VNone => true | _ => false end.

(** The numeric reading of a value in arithmetic and comparisons: [bool] is
    a subclass of [int]. *)
Definition as_num (v : pyval) : option Q :=
  match v with
  | VNum q => Some q
  | VBool true => Some 1
  | VBool false => Some 0
  | _ => None
  end.

(** [Optional[float]] as it is stored. *)
Definition of_opt (o : option Q) : pyval :=
  match o with Some q => VNum q | None => VNone end.

End Py.
Export Py.

(* ===================================================================== *)
(** * storage.py *)
(* ===================================================================== *)

Module Storage.

(** [StateStorage._state : Dict[str, Any]]. *)
Abbreviation StateStorage := (gmap string pyval).

Definition set (key : string) (value : pyval) (st : StateStorage) : StateStorage :=
  <[key := value]> st.

Definition get (key : string) (default : pyval) (st : StateStorage) : pyval :=
  match st !! key with
  | Some v => v
  | None => default
  end.

Definition clean (st : StateStorage) : StateStorage := ∅.

End Storage.

(* ===================================================================== *)
(** * events.py *)
(* ===================================================================== *)

Module Events.

Record Event := {
  name : string;
  data : option kwargs;
  source : option string;
}.

(** A callback of the bus: a callable object, or [None]. *)
Abbreviation Callback := (option func).

#[global] Instance func_eq_dec : EqDecision func.
Proof. solve_decision. Defined.

#[global] Instance func_countable : Countable func.
Proof.
  refine (inj_countable'
            (fun f => match f with LibFunc s => inl s | UserFunc n => inr n end)
            (fun x => match x with inl s => LibFunc s | inr n => UserFunc n end) _).
  intros []; reflexivity.
Defined.

(** [EventBus._subscribers : Dict[str, Set[Tuple[bool, Callable | None]]]]:
    per event name, the set of pairs [(once, callback)].  The lock makes
    [subscribe] and [unsubscribe] atomic. *)
Abbreviation EventBus := (gmap string (gset (bool * Callback))).

(** [EventBus.__init__]. *)
Definition new_bus : EventBus := ∅.

(** [subscribe(event_name, callback, once)]. *)
Definition subscribe (bus : EventBus) (event_name : string) (callback : Callback)
    (once : bool) : EventBus :=
  <[event_name := default ∅ (bus !! event_name) ∪ {[ (once, callback) ]}]> bus.

(** [unsubscribe(event_name, callback)]: every pair of the callback is
    discarded, and the key is deleted when its set is left empty. *)
Definition unsubscribe (bus : EventBus) (event_name : string) (callback : Callback)
  : EventBus :=
  match bus !! event_name with
  | Some subscribers =>
      let kept := filter (fun item => snd item <> callback) subscribers in
      if decide (kept = ∅) then delete event_name bus
      else <[event_name := kept]> bus
  | None => bus
  end.

(** A task created by [emit]: the pending call
    [_handle_callback(callback, event, once)]. *)
Record Task := {
  task_callback : Callback;
  task_event : Event;
  task_once : bool;
}.

(** [emit(name, data, source)]: one task per pair of a copy of the set of
    the event's subscribers; the order is that of the iteration over the
    set. *)
Definition emit (bus : EventBus) (event_name : string) (event_data : option kwargs)
    (event_source : option string) : list Task :=
  let event := {| name := event_name; data := event_data; source := event_source |} in
  match bus !! event_name with
  | Some subscribers =>
      (fun item => {| task_callback := snd item; task_event := event;
                      task_once := fst item |}) <$> elements subscribers
  | None => []
  end.

(** [_handle_callback(callback, event, once)]: the bus after the
    unsubscription of a one-time callback, and the callable that is then
    awaited with the event, if there is one. *)
Definition _handle_callback (bus : EventBus) (callback : Callback) (event : Event)
    (once : bool) : EventBus * option func :=
  (if once then unsubscribe bus (name event) callback else bus, callback).

(** The run of a task of [emit]. *)
Definition run_task (bus : EventBus) (task : Task) : EventBus * option func :=
  _handle_callback bus (task_callback task) (task_event task) (task_once task).

(** The pair [(once, callback)] is subscribed to the event. *)
Definition subscribed (bus : EventBus) (event_name : string) (item : bool * Callback)
  : Prop :=
  item ∈ default ∅ (bus !! event_name).

(** What a client of the bus does: the three operations that change the
    subscribers. *)
Inductive bus_op :=
| Subscribe (event_name : string) (callback : Callback) (once : bool)
| Unsubscribe (event_name : string) (callback : Callback)
| Handle (callback : Callback) (event : Event) (once : bool).

Definition bus_step (bus : EventBus) (op : bus_op) : EventBus :=
  match op with
  | Subscribe event_name callback once => subscribe bus event_name callback once
  | Unsubscribe event_name callback => unsubscribe bus event_name callback
  | Handle callback event once => fst (_handle_callback bus callback event once)
  end.

(** No key of the bus holds an empty set. *)
Definition no_empty_key (bus : EventBus) : Prop :=
  forall n subscribers, bus !! n = Some subscribers -> subscribers <> ∅.

End Events.

(* ===================================================================== *)
(** * metrics.py *)
(* ===================================================================== *)

Module Metrics.
Import Storage.

Definition VALUE_DECIMAL_PLACES : nat := 2.

Inductive MetricType := GAUGE | COUNTER | HISTOGRAM.

Definition MetricType_eqb (a b : MetricType) : bool :=
  match a, b with
  | GAUGE, GAUGE | COUNTER, COUNTER | HISTOGRAM, HISTOGRAM => true
  | _, _ => false
  end.

Record MetricConfig := {
  name : string;
  metric_type : MetricType;
  value_range : Q * Q;
  init_value : option Q;
  units : string;
  start_time : Q;
  ttl : option Q;  (* [None] is [float('inf')] *)
  update_interval : Q;
  listen_events : list string;
  linked_metrics : list string;
  scenario : option func;
  scenario_data : kwargs;
  description : string;
}.

#[warnings="-register-all"]
Inductive MetricContext := {
  data : MetricConfig;
  value : option Q;
  event : option Events.Event;
  timestamp : Q;
  storage : StateStorage;
  links : list (string * MetricContext);
}.

(** The context of a metric whose value is [v]. *)
Definition context_with_value (context : MetricContext) (v : option Q) : MetricContext :=
  {| data := data context; value := v; event := event context;
     timestamp := timestamp context; storage := storage context; links := links context |}.

(** What one call of a scenario does: it returns or raises, it leaves the
    storage of its context in some state, it may have scheduled emissions
    on the bus, and it may have logged. *)
Record Outcome := {
  returned : result (option Q);
  stored : StateStorage;
  emitted : list Events.Event;
  logged : list log_record;
}.

(** The callables of a run: [call f ctx kw] is [f(ctx, **kw)]. *)
Abbreviation Callables := (func -> MetricContext -> kwargs -> Outcome).

Record EmulatedMetric := {
  _value : option Q;
  _config : MetricConfig;
  _is_active : bool;
  _start_time : Q;
  _last_update : Q;
  _linked_metrics : list string;  (* the keys of the dict; the objects are looked up among the host's metrics *)
  _scenario_state : StateStorage;
}.

(** [EmulatedMetric.__init__], read at time [now]. *)
Definition init (config : MetricConfig) (now : Q) : EmulatedMetric :=
  {| _value := init_value config;
     _config := config;
     _is_active := false;
     _start_time := now + start_time config;
     _last_update := 0;
     _linked_metrics := [];
     _scenario_state := ∅ |}.

Definition with_value (m : EmulatedMetric) (v : option Q) : EmulatedMetric :=
  {| _value := v; _config := _config m; _is_active := _is_active m;
     _start_time := _start_time m; _last_update := _last_update m;
     _linked_metrics := _linked_metrics m; _scenario_state := _scenario_state m |}.

Definition with_last_update (m : EmulatedMetric) (t : Q) : EmulatedMetric :=
  {| _value := _value m; _config := _config m; _is_active := _is_active m;
     _start_time := _start_time m; _last_update := t;
     _linked_metrics := _linked_metrics m; _scenario_state := _scenario_state m |}.

Definition with_scenario_state (m : EmulatedMetric) (st : StateStorage) : EmulatedMetric :=
  {| _value := _value m; _config := _config m; _is_active := _is_active m;
     _start_time := _start_time m; _last_update := _last_update m;
     _linked_metrics := _linked_metrics m; _scenario_state := st |}.

(** [add_linked_metric]: a key of a dict is kept once, at its first place. *)
Definition add_linked_metric (m : EmulatedMetric) (linked_name : string) : EmulatedMetric :=
  {| _value := _value m; _config := _config m; _is_active := _is_active m;
     _start_time := _start_time m; _last_update := _last_update m;
     _linked_metrics :=
       if bool_decide (linked_name ∈ _linked_metrics m) then _linked_metrics m
       else _linked_metrics m ++ [linked_name];
     _scenario_state := _scenario_state m |}.

(** [_build_metric_context]: one context per linked metric, each stamped
    with its own clock reading, then the metric's own context.  [peers] are
    the metric objects of the host, through which the linked ones are
    reached. *)
Fixpoint build_links (peers : gmap string EmulatedMetric) (event : option Events.Event)
    (linked : list string) (clock : nat -> Q) (k : nat) : list (string * MetricContext) :=
  match linked with
  | [] => []
  | n :: rest =>
      match peers !! n with
      | Some metric =>
          (n, {| data := _config metric; value := _value metric; event := event;
                 timestamp := clock k; storage := _scenario_state metric; links := [] |})
          :: build_links peers event rest clock (S k)
      | None => build_links peers event rest clock k
      end
  end.

Definition _build_metric_context (peers : gmap string EmulatedMetric) (m : EmulatedMetric)
    (event : option Events.Event) (clock : nat -> Q) : MetricContext :=
  {| data := _config m;
     value := _value m;
     event := event;
     timestamp := clock (length (_linked_metrics m));
     storage := _scenario_state m;
     links := build_links peers event (_linked_metrics m) clock 0 |}.

Section Update.
Variable call : Callables.
Variable peers : gmap string EmulatedMetric.

(** [_update_value_by_scenario]: the scenario's value, or the current value
    when no scenario is configured or the scenario raised.  The storage is
    the one the scenario left behind, also when it raised. *)
Definition _update_value_by_scenario (m : EmulatedMetric) (event : option Events.Event)
    (clock : nat -> Q) : option Q * StateStorage * list Events.Event :=
  match scenario (_config m) with
  | Some f =>
      let context := _build_metric_context peers m event clock in
      let out := call f context (scenario_data (_config m)) in
      match returned out with
      | Ok value => (value, stored out, emitted out)
      | Raise _ => (_value m, stored out, emitted out)
      end
  | None => (_value m, _scenario_state m, [])
  end.

(** The range check of [update_value]: a value below the range becomes
    its lower end, a value above it its upper end. *)
Definition check_value_range (value_range : Q * Q) (x : Q) : Q :=
  if Qltb x (fst value_range) then fst value_range
  else if Qltb (snd value_range) x then snd value_range
  else x.

(** What [update_value] makes of the scenario's value: the range check,
    then the cut to two decimal places; [None] stays [None]. *)
Definition checked_and_cut (config : MetricConfig) (v : option Q) : option Q :=
  match v with
  | Some x => Some (round (check_value_range (value_range config) x) VALUE_DECIMAL_PLACES)
  | None => None
  end.

(** The tail of [update_value], from the scenario call on. *)
Definition compute_value (m : EmulatedMetric) (event : option Events.Event)
    (clock : nat -> Q) : option Q * EmulatedMetric * list Events.Event :=
  let '(v, st, em) := _update_value_by_scenario m event clock in
  let v' := checked_and_cut (_config m) v in
  (v', with_value (with_scenario_state m st) v', em).

(** [update_value(event)]; [now] is the reading [current_time], taken only
    when [event is None]. *)
Definition update_value (m : EmulatedMetric) (event : option Events.Event)
    (now : Q) (clock : nat -> Q) : option Q * EmulatedMetric * list Events.Event :=
  match event with
  | None =>
      if Qltb now (_start_time m) then (None, m, [])
      else if match ttl (_config m) with
              | Some t => Qltb (_start_time m + t) now
              | None => false
              end then (None, m, [])
      else if Qltb (now - _last_update m) (update_interval (_config m))
      then (_value m, m, [])
      else compute_value (with_last_update m now) None clock
  | Some _ => compute_value m event clock
  end.

End Update.

End Metrics.

(* ===================================================================== *)
(** * hosts.py *)
(* ===================================================================== *)

Module Hosts.
Import Storage.
Import Metrics.

(** A [Dict[str, float]] with its iteration order: assignment to a present
    key keeps its place, a new key goes last. *)
Fixpoint dict_set (k : string) (v : Q) (d : list (string * Q)) : list (string * Q) :=
  match d with
  | [] => [(k, v)]
  | (k', v') :: rest =>
      if String.eqb k k' then (k, v) :: rest else (k', v') :: dict_set k v rest
  end.

Fixpoint dict_get (k : string) (d : list (string * Q)) : option Q :=
  match d with
  | [] => None
  | (k', v') :: rest => if String.eqb k k' then Some v' else dict_get k rest
  end.

Record HostConfig := {
  name : string;
  host : option string;
  ttl : Q;
  interval_range : Q * Q;
  start_time : Q;
  job_name : string;
  labels : gmap string string;
  metrics : list MetricConfig;
  listen_events : list (string * func);
}.

Record EmulatedHost := {
  _config : HostConfig;
  _is_running : bool;
  _is_pending : bool;
  _host_start_time : Q;
  _update_callback : bool;  (* whether a callback was given *)
  _last_metrics_data : list (string * Q);
  (* the dict [_emulated_metrics]: its keys in iteration order, and the objects *)
  _metric_names : list string;
  _emulated_metrics : gmap string EmulatedMetric;
  _labels : gmap string string;
}.

Definition with_metrics (h : EmulatedHost) (ms : gmap string EmulatedMetric) : EmulatedHost :=
  {| _config := _config h; _is_running := _is_running h; _is_pending := _is_pending h;
     _host_start_time := _host_start_time h; _update_callback := _update_callback h;
     _last_metrics_data := _last_metrics_data h; _metric_names := _metric_names h;
     _emulated_metrics := ms; _labels := _labels h |}.

Definition with_last_metrics_data (h : EmulatedHost) (d : list (string * Q)) : EmulatedHost :=
  {| _config := _config h; _is_running := _is_running h; _is_pending := _is_pending h;
     _host_start_time := _host_start_time h; _update_callback := _update_callback h;
     _last_metrics_data := d; _metric_names := _metric_names h;
     _emulated_metrics := _emulated_metrics h; _labels := _labels h |}.

Definition with_running (h : EmulatedHost) (running : bool) (started : Q) : EmulatedHost :=
  {| _config := _config h; _is_running := running; _is_pending := _is_pending h;
     _host_start_time := started; _update_callback := _update_callback h;
     _last_metrics_data := _last_metrics_data h; _metric_names := _metric_names h;
     _emulated_metrics := _emulated_metrics h; _labels := _labels h |}.

(** The keys of [{config.name: ... for config in metrics}], in dict order. *)
Fixpoint dict_keys (names seen : list string) : list string :=
  match names with
  | [] => []
  | n :: rest =>
      if bool_decide (n ∈ seen) then dict_keys rest seen
      else n :: dict_keys rest (n :: seen)
  end.

(** [_init_metrics]: one metric per config name (a later config of the
    same name replaces the earlier object), then the links to the linked
    metrics that exist. *)
Definition link_existing (names : list string) (m : EmulatedMetric) : EmulatedMetric :=
  fold_left
    (fun acc linked_name =>
       if bool_decide (linked_name ∈ names) then add_linked_metric acc linked_name else acc)
    (linked_metrics (Metrics._config m)) m.

Definition _init_metrics (configs : list MetricConfig) (now : Q)
  : list string * gmap string EmulatedMetric :=
  let names := dict_keys (map Metrics.name configs) [] in
  let objects :=
    fold_left (fun acc config => <[Metrics.name config := Metrics.init config now]> acc)
              configs (∅ : gmap string EmulatedMetric) in
  (names, link_existing names <$> objects).

(** [EmulatedHost.__init__]; [fake_hostname] and [fake_ip] are the results of
    [_generate_fake_hostname] and [_generate_fake_ip]. *)
Definition init (config : HostConfig) (update_callback : bool) (now : Q)
    (fake_hostname fake_ip : string) : EmulatedHost :=
  let '(names, objects) := _init_metrics (metrics config) now in
  {| _config := config;
     _is_running := false;
     _is_pending := true;
     _host_start_time := now;
     _update_callback := update_callback;
     _last_metrics_data := [];
     _metric_names := names;
     _emulated_metrics := objects;
     _labels :=
       labels config ∪
       <["address" := fake_ip]>
         (<["host" := match host config with
                      | Some h => if String.eqb h "" then fake_hostname else h
                      | None => fake_hostname
                      end]>
            (<["name" := name config]> ∅)) |}.

(** The clock readings of one pass over the metrics: for each metric, the
    reading of [update_value] and those of its context. *)
Abbreviation Readings := (string -> Q * (nat -> Q)).

Section Loop.
Variable call : Callables.

(** The state of one pass of [_update_metrics]: the metric objects, the
    batch [metrics_data] built so far, and the emissions scheduled by the
    scenarios.  [observed] lists the non-nil values that [update_value]
    returned during the pass; the code does not keep it, properties are
    stated with it. *)
Record Pass := {
  objects : gmap string EmulatedMetric;
  metrics_data : list (string * Q);
  scheduled : list Events.Event;
  observed : list (string * Q);
}.

(** The body of the [for] loop of [_update_metrics]; [Raise] is an exception
    that leaves the loop. *)
Definition update_one (readings : Readings) (p : Pass) (key : string) : Pass * option exn :=
  match objects p !! key with
  | None => (p, None)
  | Some metric =>
      let '(value, metric', em) :=
        update_value call (objects p) metric None (fst (readings key)) (snd (readings key)) in
      let p1 := {| objects := <[key := metric']> (objects p);
                   metrics_data := metrics_data p;
                   scheduled := (scheduled p ++ em)%list;
                   observed := observed p |} in
      match value with
      | None => (p1, None)
      | Some v =>
          let cfg_name := Metrics.name (Metrics._config metric') in
          match metric_type (Metrics._config metric') with
          | COUNTER =>
              match as_num (get "counter_total" (VNum 0) (_scenario_state metric')) with
              | None =>
                  ({| objects := objects p1; metrics_data := metrics_data p1;
                      scheduled := scheduled p1;
                      observed := (observed p1 ++ [(cfg_name, v)])%list |},
                   Some (TypeError "counter_total"))
              | Some current_total =>
                  let new_total := current_total + v in
                  ({| objects :=
                        <[key := with_scenario_state metric'
                                   (set "counter_total" (VNum new_total) (_scenario_state metric'))]>
                          (objects p1);
                      metrics_data := dict_set cfg_name new_total (metrics_data p1);
                      scheduled := scheduled p1;
                      observed := (observed p1 ++ [(cfg_name, v)])%list |}, None)
              end
          | _ =>
              ({| objects := objects p1;
                  metrics_data := dict_set cfg_name v (metrics_data p1);
                  scheduled := scheduled p1;
                  observed := (observed p1 ++ [(cfg_name, v)])%list |}, None)
          end
      end
  end.

Fixpoint update_all (readings : Readings) (keys : list string) (p : Pass) : Pass * option exn :=
  match keys with
  | [] => (p, None)
  | key :: rest =>
      match update_one readings p key with
      | (p', None) => update_all readings rest p'
      | (p', Some e) => (p', Some e)
      end
  end.

(** [_update_metrics]: the batch is [{}] when the host is not running or
    when the pass raised; what the pass did to the metrics stays done. *)
Definition _update_metrics (h : EmulatedHost) (readings : Readings)
  : list (string * Q) * EmulatedHost * Pass :=
  let p0 := {| objects := _emulated_metrics h; metrics_data := [];
               scheduled := []; observed := [] |} in
  if _is_running h then
    match update_all readings (_metric_names h) p0 with
    | (p, None) => (metrics_data p, with_metrics h (objects p), p)
    | (p, Some _) => ([], with_metrics h (objects p), p)
    end
  else ([], h, p0).

(** [start], after its delay: the host is running from [now] on. *)
Definition start (h : EmulatedHost) (now : Q) : EmulatedHost :=
  if _is_running h then h else with_running h true now.

(** [stop]: a running host is marked stopped and the storage of every
    metric is cleaned. *)
Definition stop (h : EmulatedHost) : EmulatedHost :=
  if _is_running h then
    with_metrics (with_running h false (_host_start_time h))
      ((fun m => with_scenario_state m (clean (_scenario_state m))) <$> _emulated_metrics h)
  else h.

(** One turn of the [while] loop of [_run_loop], entered at time [t]: the
    batch handed to the callback, if any, and the host afterwards.  When the
    TTL has expired the loop is left and the host stops. *)
Definition run_loop_iteration (h : EmulatedHost) (t : Q) (readings : Readings)
  : option (list (string * Q)) * EmulatedHost * Pass :=
  let p0 := {| objects := _emulated_metrics h; metrics_data := [];
               scheduled := []; observed := [] |} in
  if negb (_is_running h) then (None, h, p0)
  else if Qltb (ttl (_config h)) (t - _host_start_time h) then (None, stop h, p0)
  else
    let '(batch, h', p) := _update_metrics h readings in
    let h'' := with_last_metrics_data h' batch in
    if _update_callback h && negb (Nat.eqb (length batch) 0)
    then (Some batch, h'', p)
    else (None, h'', p).

(** [EmulatedMetric._handle_event] on the metric [key] of the host. *)
Definition handle_event (h : EmulatedHost) (key : string) (event : Events.Event)
    (clock : nat -> Q) : EmulatedHost :=
  match _emulated_metrics h !! key with
  | None => h
  | Some metric =>
      let '(_, metric', _) := update_value call (_emulated_metrics h) metric (Some event) 0 clock in
      with_metrics h (<[key := metric']> (_emulated_metrics h))
  end.

(** What happens to a host between its start and its stop: turns of its
    loop, and events delivered to its metrics in between. *)
Inductive action :=
| Turn (t : Q) (readings : Readings)
| Delivery (key : string) (event : Events.Event) (clock : nat -> Q).

(** What a step shows: the batch published to the callback, and the values
    observed during the pass. *)
Record shown := {
  published : option (list (string * Q));
  ticked : list (string * Q);
}.

Definition step (h : EmulatedHost) (a : action) : shown * EmulatedHost :=
  match a with
  | Turn t readings =>
      let '(pub, h', p) := run_loop_iteration h t readings in
      ({| published := pub; ticked := observed p |}, h')
  | Delivery key event clock =>
      ({| published := None; ticked := [] |}, handle_event h key event clock)
  end.

Fixpoint run (h : EmulatedHost) (actions : list action) : list shown * EmulatedHost :=
  match actions with
  | [] => ([], h)
  | a :: rest =>
      let '(s, h') := step h a in
      let '(ss, h'') := run h' rest in
      (s :: ss, h'')
  end.

End Loop.

(** The total that the host reads for a counter:
    [scenario_state.get('counter_total', 0.0)], as a number. *)
Definition counter_total_of (metric : EmulatedMetric) : option Q :=
  as_num (get "counter_total" (VNum 0) (_scenario_state metric)).

(** The values published for the metric [key], in order of publication. *)
Definition series (key : string) (shows : list shown) : list Q :=
  omap (fun s => match published s with
                 | Some batch => dict_get key batch
                 | None => None
                 end) shows.

(** The metric objects of a host sit under their config names, as
    [_init_metrics] puts them. *)
Definition keyed_by_name (objects : gmap string EmulatedMetric) : Prop :=
  forall key metric, objects !! key = Some metric ->
                     Metrics.name (Metrics._config metric) = key.

(** The total of the metric [key] among the objects of a host. *)
Definition total_at (key : string) (objs : gmap string EmulatedMetric) : option Q :=
  match objs !! key with
  | Some metric => counter_total_of metric
  | None => None
  end.

(** The metric [key], if there is one, is a counter. *)
Definition counter_at (key : string) (objs : gmap string EmulatedMetric) : Prop :=
  forall metric, objs !! key = Some metric ->
                 metric_type (Metrics._config metric) = COUNTER.

(** What the step of a host publishes for the metric [key]. *)
Definition published_at (key : string) (s : shown) : option Q :=
  match published s with
  | Some batch => dict_get key batch
  | None => None
  end.

(** During a pass: the total of [key] is at least [b], and what the batch
    holds for [key] is the total. *)
Definition pass_invariant (key : string) (b : Q) (p : Pass) : Prop :=
  (forall T, total_at key (objects p) = Some T -> b <= T)
  /\ (forall x, dict_get key (metrics_data p) = Some x ->
                total_at key (objects p) = Some x).

(** Between two steps of a host: its objects sit under their names, the
    metric [key] is a counter, and, while the host runs, the total of [key]
    is at least [b]. *)
Definition host_invariant (key : string) (b : Q) (h : EmulatedHost) : Prop :=
  keyed_by_name (_emulated_metrics h) /\ counter_at key (_emulated_metrics h)
  /\ (_is_running h = true ->
      forall T, total_at key (_emulated_metrics h) = Some T -> b <= T).

(** The discipline of storage keys: no callable writes the host's key
    ['counter_total']. *)
Definition leaves_counter_total (call : Callables) : Prop :=
  forall f context kw,
    stored (call f context kw) !! "counter_total" = storage context !! "counter_total".

(** What the host holds for a metric after it has put [x] in the batch:
    the total of a counter in its storage, the value of any other metric. *)
Definition holds (metric : EmulatedMetric) (x : Q) : Prop :=
  match metric_type (Metrics._config metric) with
  | COUNTER => _scenario_state metric !! "counter_total" = Some (VNum x)
  | _ => _value metric = Some x
  end.

(** During a pass: the objects sit under their names, and every entry of
    the batch is for a metric already visited and is what the host holds
    for it. *)
Definition batch_consistent (visited : list string) (objs : gmap string EmulatedMetric)
    (batch : list (string * Q)) : Prop :=
  keyed_by_name objs
  /\ forall k x, dict_get k batch = Some x ->
                 k ∈ visited /\ exists metric, objs !! k = Some metric /\ holds metric x.

End Hosts.

(* ===================================================================== *)
(** * mixer.py *)
(* ===================================================================== *)

Module Mixer.
Import Metrics.
Import Hosts.

Record MixerConfig := {
  hosts : list HostConfig;
  pushgateway_url : string;
  push_interval : Q;
  default_job_name : string;
  cleanup_on_start : bool;
  cleanup_on_finish : bool;
}.

(** The job of a host: its own job name, or the default one. *)
Definition effective_job (default_job : string) (host_config : HostConfig) : string :=
  if String.eqb (job_name host_config) "" then default_job else job_name host_config.

(** What tells two hosts of a mixer apart: the job and the name. *)
Definition host_key (default_job : string) (host_config : HostConfig) : string * string :=
  (effective_job default_job host_config, Hosts.name host_config).

Section Prometheus.
(** The client library: a metric object of a registry, its constructor
    ([Gauge], [Counter] or [Histogram] by type; [None] when the constructor
    raises) and its update ([set], the counter's total, or [observe];
    [false] when the update raises). *)
Variable Prom : Type.
Variable prom_new : MetricType -> string -> string -> list string -> option Prom.
Variable prom_update : Prom -> MetricType -> gmap string string -> Q -> bool.

(** What the dict of one metric of a job holds under a key: the metric
    object under ['_prom_metric'], the type under ['_metric_type'], and the
    data of a host under the host's name. *)
Inductive cell :=
| PromCell (prom_metric : Prom)
| TypeCell (metric_type : MetricType)
| HostCell (value : Q) (labels : gmap string string) (timestamp : Q).

Record MetricsMixer := {
  _config : MixerConfig;
  _is_running : bool;
  _mixer_start_time : Q;
  _ttl : Q;
  _job_registries : list string;  (* the jobs that have a registry, in dict order *)
  _merged_metrics : gmap string (gmap string (gmap string cell));
  _job_hosts : gmap string (list EmulatedHost);
}.

Definition with_merged (m : MetricsMixer)
    (merged : gmap string (gmap string (gmap string cell))) : MetricsMixer :=
  {| _config := _config m; _is_running := _is_running m;
     _mixer_start_time := _mixer_start_time m; _ttl := _ttl m;
     _job_registries := _job_registries m; _merged_metrics := merged;
     _job_hosts := _job_hosts m |}.

(** [_get_job_name]. *)
Definition _get_job_name (m : MetricsMixer) (host_config : HostConfig) : string :=
  if String.eqb (job_name host_config) "" then default_job_name (_config m)
  else job_name host_config.

(** [_setup_job_grouping]; [world k] gives, for the [k]-th host of the
    configuration, the clock reading and the generated host name and
    address of its constructor. *)
Fixpoint group_hosts (default_job : string) (configs : list HostConfig)
    (world : nat -> Q * string * string) (k : nat)
    (acc : list string * gmap string (gmap string (gmap string cell))
           * gmap string (list EmulatedHost) * gmap string (list string))
  : result (list string * gmap string (gmap string (gmap string cell))
            * gmap string (list EmulatedHost)) :=
  match configs with
  | [] => let '(regs, merged, jh, _) := acc in Ok (regs, merged, jh)
  | host_config :: rest =>
      let '(regs, merged, jh, host_names) := acc in
      let job := if String.eqb (job_name host_config) "" then default_job
                 else job_name host_config in
      let '(regs, merged, jh) :=
        match jh !! job with
        | None => ((regs ++ [job])%list, <[job := ∅]> merged, <[job := []]> jh)
        | Some _ => (regs, merged, jh)
        end in
      if bool_decide (Hosts.name host_config ∈ default [] (host_names !! job))
      then Raise (MixerError "host already exists in job")
      else
        let '(now, fake_hostname, fake_ip) := world k in
        let h := Hosts.init host_config true now fake_hostname fake_ip in
        group_hosts default_job rest world (S k)
          (regs,
           merged,
           <[job := (default [] (jh !! job) ++ [h])%list]> jh,
           <[job := (default [] (host_names !! job) ++ [Hosts.name host_config])%list]> host_names)
  end.

(** [MetricsMixer.__init__]. *)
Definition init (config : MixerConfig) (world : nat -> Q * string * string)
  : result MetricsMixer :=
  match hosts config with
  | [] => Raise (ValueError "max() of an empty sequence")
  | first :: others =>
      let total h := Hosts.start_time h + Hosts.ttl h in
      let ttl := fold_left (fun acc h => if Qltb acc (total h) then total h else acc)
                           others (total first) in
      match group_hosts (default_job_name config) (hosts config) world 0 ([], ∅, ∅, ∅) with
      | Raise e => Raise e
      | Ok (regs, merged, jh) =>
          Ok {| _config := config; _is_running := false; _mixer_start_time := 0;
                _ttl := ttl; _job_registries := regs; _merged_metrics := merged;
                _job_hosts := jh |}
      end
  end.

(** [_setup_prometheus_metrics_for_job], first part: the unique metrics of
    the hosts of the job, each with the config of the first host that has
    it, in order of first appearance. *)
Definition host_metrics (h : EmulatedHost) : list (string * MetricConfig) :=
  omap (fun key => (fun metric => (key, Metrics._config metric)) <$> _emulated_metrics h !! key)
       (_metric_names h).

Definition unique_metrics (job_hosts : list EmulatedHost) : list (string * MetricConfig) :=
  fold_left
    (fun acc entry =>
       if bool_decide (fst entry ∈ map fst acc) then acc else (acc ++ [entry])%list)
    (concat (map host_metrics job_hosts)) [].

Definition label_names (job_hosts : list EmulatedHost) : list string :=
  elements (⋃ (map (fun h => dom (_labels h)) job_hosts) : gset string).

(** Second part: one metric object per unique metric.  The entries made
    before a constructor raises stay in place. *)
Fixpoint create_metrics (job : string) (names : list string)
    (todo : list (string * MetricConfig))
    (merged : gmap string (gmap string (gmap string cell)))
  : gmap string (gmap string (gmap string cell)) * option exn :=
  match todo with
  | [] => (merged, None)
  | (metric_name, metric_config) :: rest =>
      let t := metric_type metric_config in
      let suffix := match t with
                    | GAUGE => " metric" | COUNTER => " counter" | HISTOGRAM => " histogram"
                    end in
      let doc := if String.eqb (description metric_config) "" then metric_name ++ suffix
                 else description metric_config in
      match prom_new t metric_name doc names with
      | None => (merged, Some (MixerError "failed to create metric"))
      | Some prom_metric =>
          let of_job := default ∅ (merged !! job) in
          let of_metric := default ∅ (of_job !! metric_name) in
          let of_metric := <["_metric_type" := TypeCell t]>
                             (<["_prom_metric" := PromCell prom_metric]> of_metric) in
          create_metrics job names rest (<[job := <[metric_name := of_metric]> of_job]> merged)
      end
  end.

Definition _setup_prometheus_metrics_for_job (m : MetricsMixer) (job : string)
  : MetricsMixer * option exn :=
  if match _merged_metrics m !! job with
     | Some of_job => negb (Nat.eqb (size of_job) 0)
     | None => false
     end
  then (m, None)
  else if negb (bool_decide (job ∈ _job_registries m))
  then (m, Some (KeyError "_job_registries"))
  else
    match _job_hosts m !! job with
    | None => (m, Some (KeyError "_job_hosts"))
    | Some job_hosts =>
        let '(merged, e) :=
          create_metrics job (label_names job_hosts) (unique_metrics job_hosts)
                         (_merged_metrics m) in
        (with_merged m merged, e)
    end.

Definition duplicate_warning (metric_name existing_host host_name : string) : log_record :=
  {| log_level := WARNING;
     log_message := "Duplicate metric with identical labels. This metric will be overwritten!";
     log_args := [metric_name; existing_host; host_name] |}.

Definition host_not_found_warning (host_name : string) : log_record :=
  {| log_level := WARNING;
     log_message := "Host not found in configuration!";
     log_args := [host_name] |}.

Definition update_failed_error (metric_name host_name : string) : log_record :=
  {| log_level := ERROR;
     log_message := "Failed to update metric";
     log_args := [metric_name; host_name] |}.

(** The keys of the dict of a metric that are taken for host names. *)
Definition existing_hosts (of_metric : gmap string cell) : list string :=
  filter (fun h => negb (String.eqb h "_prom_metric") && negb (String.eqb h "_metric_type"))
         (map fst (map_to_list of_metric)).

(** Apart from the two reserved keys, the dict of a metric holds host
    data only. *)
Definition holds_host_data (of_metric : gmap string cell) : Prop :=
  forall key c, of_metric !! key = Some c ->
                key <> "_prom_metric" -> key <> "_metric_type" ->
                exists value labels timestamp, c = HostCell value labels timestamp.

(** The check for duplicate metrics with the same labels. *)
Fixpoint check_duplicates (metric_name host_name : string) (labels : gmap string string)
    (of_metric : gmap string cell) (existing : list string) : list log_record * option exn :=
  match existing with
  | [] => ([], None)
  | existing_host :: rest =>
      if String.eqb existing_host host_name
      then check_duplicates metric_name host_name labels of_metric rest
      else
        match of_metric !! existing_host with
        | None => ([], Some (KeyError existing_host))
        | Some (HostCell _ existing_labels _) =>
            let '(warnings, e) :=
              check_duplicates metric_name host_name labels of_metric rest in
            if bool_decide (existing_labels = labels)
            then (duplicate_warning metric_name existing_host host_name :: warnings, e)
            else (warnings, e)
        | Some _ => ([], Some (AttributeError "get"))
        end
  end.

(** The update of the Prometheus metric, with its [try]. *)
Definition update_prometheus (metric_name host_name : string) (labels : gmap string string)
    (value : Q) (of_metric : gmap string cell) : list log_record * option exn :=
  match of_metric !! "_prom_metric" with
  | None => ([], Some (KeyError "_prom_metric"))
  | Some prom_cell =>
      match of_metric !! "_metric_type" with
      | None => ([], Some (KeyError "_metric_type"))
      | Some (TypeCell t) =>
          match prom_cell with
          | PromCell prom_metric =>
              if prom_update prom_metric t labels value then ([], None)
              else ([update_failed_error metric_name host_name], None)
          | _ => ([update_failed_error metric_name host_name], None)
          end
      | Some _ => ([], None)
      end
  end.

(** The body of the loop over the batch, for the entry [(metric_name,
    value)] stored at time [now]. *)
Definition update_entry (job host_name : string) (labels : gmap string string)
    (metric_name : string) (value : Q) (now : Q)
    (merged : gmap string (gmap string (gmap string cell)))
  : gmap string (gmap string (gmap string cell)) * list log_record * option exn :=
  match merged !! job with
  | None => (merged, [], Some (KeyError job))
  | Some of_job =>
      match of_job !! metric_name with
      | None => (merged, [], None)
      | Some of_metric =>
          match check_duplicates metric_name host_name labels of_metric
                  (existing_hosts of_metric) with
          | (warnings, Some e) => (merged, warnings, Some e)
          | (warnings, None) =>
              let of_metric' := <[host_name := HostCell value labels now]> of_metric in
              let merged' := <[job := <[metric_name := of_metric']> of_job]> merged in
              let '(errors, e) :=
                update_prometheus metric_name host_name labels value of_metric' in
              (merged', (warnings ++ errors)%list, e)
          end
      end
  end.

Fixpoint update_entries (job host_name : string) (labels : gmap string string)
    (batch : list (string * Q)) (clock : nat -> Q) (k : nat)
    (merged : gmap string (gmap string (gmap string cell)))
  : gmap string (gmap string (gmap string cell)) * list log_record * option exn :=
  match batch with
  | [] => (merged, [], None)
  | (metric_name, value) :: rest =>
      match update_entry job host_name labels metric_name value (clock k) merged with
      | (merged', log, Some e) => (merged', log, Some e)
      | (merged', log, None) =>
          let '(merged'', log', e) :=
            update_entries job host_name labels rest clock (S k) merged' in
          (merged'', (log ++ log')%list, e)
      end
  end.

(** The host config that [update_metrics_by_host] finds for a name. *)
Definition find_host (m : MetricsMixer) (host_name : string) : option HostConfig :=
  List.find (fun h => String.eqb (Hosts.name h) host_name) (hosts (_config m)).

(** [update_metrics_by_host]; [clock k] is the time at which the [k]-th
    entry of the batch is stored. *)
Definition update_metrics_by_host (m : MetricsMixer) (host_name : string)
    (labels : gmap string string) (metrics_data : list (string * Q)) (clock : nat -> Q)
  : MetricsMixer * list log_record * option exn :=
  match find_host m host_name with
  | None => (m, [host_not_found_warning host_name], None)
  | Some host_config =>
      let job := _get_job_name m host_config in
      match _setup_prometheus_metrics_for_job m job with
      | (m1, Some e) => (m1, [], Some e)
      | (m1, None) =>
          let '(merged, log, e) :=
            update_entries job host_name labels metrics_data clock 0 (_merged_metrics m1) in
          (with_merged m1 merged, log, e)
      end
  end.

(** What the grouping has built after the hosts [done]: every job holds
    its hosts, the registries are the jobs met, each once, and the merged
    metrics of a registered job are empty. *)
Definition grouped (default_job : string) (done : list HostConfig) (regs : list string)
    (merged : gmap string (gmap string (gmap string cell)))
    (jh : gmap string (list EmulatedHost)) : Prop :=
  (forall job, map Hosts._config (default [] (jh !! job))
               = filter (fun h => effective_job default_job h = job) done)
  /\ (forall job, is_Some (jh !! job) <-> job ∈ regs)
  /\ (forall job, job ∈ regs <-> exists h, h ∈ done /\ effective_job default_job h = job)
  /\ NoDup regs
  /\ (forall job, merged !! job = if bool_decide (job ∈ regs) then Some ∅ else None).

End Prometheus.

End Mixer.

(* ===================================================================== *)
(** * scenarios.py *)
(* ===================================================================== *)

Module Scenarios.
Import Storage.
Import Metrics.

Definition with_storage (context : MetricContext) (st : StateStorage) : MetricContext :=
  {| data := data context; value := value context; event := event context;
     timestamp := timestamp context; storage := st; links := links context |}.

Definition error_record (message : string) : log_record :=
  {| log_level := ERROR; log_message := message; log_args := [] |}.

(** [do_nothing]. *)
Definition do_nothing (context : MetricContext) : Outcome :=
  {| returned := Ok (value context); stored := storage context;
     emitted := []; logged := [] |}.

(** [random_in_range]; [u] is the draw of [random.uniform]. *)
Definition random_in_range (context : MetricContext) (value_range : option (Q * Q)) (u : Q)
  : Outcome :=
  let value_range := default (Metrics.value_range (data context)) value_range in
  {| returned := Ok (Some (uniform (fst value_range) (snd value_range) u));
     stored := storage context; emitted := []; logged := [] |}.

(** [is_on != previous_state], for the [bool] [is_on] and a stored value. *)
Definition bool_ne (b : bool) (v : pyval) : bool :=
  match as_num v with
  | Some q => negb (Qeqb (if b then 1 else 0) q)
  | None => true
  end.

Definition feature_event (event_name : string) (current_time : Q) (source : option string)
  : Events.Event :=
  {| Events.name := event_name;
     Events.data := Some [("timestamp", VNum current_time)];
     Events.source := source |}.

(** [feature_toggle]; [current_time] is the reading of [time.time()]. *)
Definition feature_toggle (context : MetricContext)
    (start_time duration interval on_value off_value : Q) (source : option string)
    (current_time : Q) : Outcome :=
  let st := storage context in
  if Qltb start_time 0 || Qleb duration 0 || Qleb interval 0 then
    {| returned := Raise (ValueError "Start time must be non-negative, duration and interval must be positive");
       stored := st; emitted := []; logged := [] |}
  else
    let st := if is_none (get "start_timestamp" VNone st)
              then set "start_timestamp" (VNum current_time) st else st in
    match as_num (get "start_timestamp" VNone st) with
    | None => {| returned := Raise (TypeError "start_timestamp");
                 stored := st; emitted := []; logged := [] |}
    | Some start_timestamp =>
        let elapsed := current_time - start_timestamp in
        if Qltb elapsed start_time then
          {| returned := Ok (Some off_value); stored := st; emitted := []; logged := [] |}
        else
          let cycle_elapsed := elapsed - start_time in
          let cycle_length := duration + interval in
          let cycle_position := fmod cycle_elapsed cycle_length in
          let is_on := Qltb cycle_position duration in
          let previous_state := get "feature_active" (VBool false) st in
          if bool_ne is_on previous_state then
            {| returned := Ok (Some (if is_on then on_value else off_value));
               stored := set "feature_active" (VBool is_on) st;
               emitted := [feature_event (if is_on then "feature_on" else "feature_off")
                                         current_time source];
               logged := [] |}
          else
            {| returned := Ok (Some (if is_on then on_value else off_value));
               stored := st; emitted := []; logged := [] |}
    end.

(** Successive invocations of [feature_toggle] for one metric, at the clock
    readings [times]: each works on the storage the previous one left.
    For each invocation, what it returned and what it emitted. *)
Fixpoint feature_toggle_calls (context : MetricContext)
    (start_time duration interval on_value off_value : Q) (source : option string)
    (times : list Q) : list (result (option Q) * list Events.Event) :=
  match times with
  | [] => []
  | current_time :: rest =>
      let out := feature_toggle context start_time duration interval on_value off_value
                                source current_time in
      (returned out, emitted out)
      :: feature_toggle_calls (with_storage context (stored out))
           start_time duration interval on_value off_value source rest
  end.

(** The on/off state as the specification states it: off while
    [elapsed < start_time], then on iff
    [(elapsed - start_time) mod (duration + interval) < duration]. *)
Definition toggle_state (start_time duration interval elapsed : Q) : bool :=
  if Qltb elapsed start_time then false
  else Qltb (fmod (elapsed - start_time) (duration + interval)) duration.

(** What the specification expects of successive invocations whose first
    one was at [start_timestamp], when the state at the previous invocation
    was [previous]: the value of the state, and one event per change of
    state. *)
Fixpoint toggle_expected (start_time duration interval on_value off_value : Q)
    (source : option string) (start_timestamp : Q) (previous : bool) (times : list Q)
  : list (result (option Q) * list Events.Event) :=
  match times with
  | [] => []
  | current_time :: rest =>
      let state := toggle_state start_time duration interval (current_time - start_timestamp) in
      (Ok (Some (if state then on_value else off_value)),
       if Bool.eqb state previous then []
       else [feature_event (if state then "feature_on" else "feature_off")
                           current_time source])
      :: toggle_expected start_time duration interval on_value off_value source
           start_timestamp state rest
  end.

(** The events are [feature_on] and [feature_off] in turn; [next_on] tells
    which one comes first. *)
Fixpoint alternating (next_on : bool) (events : list Events.Event) : bool :=
  match events with
  | [] => true
  | e :: rest =>
      String.eqb (Events.name e) (if next_on then "feature_on" else "feature_off")
      && alternating (negb next_on) rest
  end.

(** [update_by_trend]; [u] is the draw of [random.uniform].  The type of
    [step_range] already makes it a tuple of two values. *)
Definition update_by_trend (context : MetricContext) (trend : string) (step_range : Q * Q)
    (u : Q) : Outcome :=
  let st := storage context in
  let fail e := {| returned := Raise e; stored := st; emitted := []; logged := [] |} in
  let '(min_step, max_step) := step_range in
  if Qltb min_step 0 || Qltb max_step 0 || Qltb max_step min_step then
    fail (ValueError "Step range values must be non-negative and min_step <= max_step")
  else
    let accumulated_value := get "accumulated_value" (of_opt (value context)) st in
    (* the lines after the [if] chain: accumulate the step *)
    let accumulate step :=
      match as_num accumulated_value with
      | None => fail (TypeError "accumulated_value + step")
      | Some a =>
          let new_accumulated_value := a + step in
          {| returned := Ok (Some new_accumulated_value);
             stored := set "accumulated_value" (VNum new_accumulated_value) st;
             emitted := []; logged := [] |}
      end in
    if String.eqb trend "up" then
      accumulate (uniform (fst step_range) (snd step_range) u)
    else if String.eqb trend "down" then
      accumulate (uniform (- snd step_range) (- fst step_range) u)
    else if String.eqb trend "hold" then
      let step := uniform (- fst step_range) (snd step_range) u in
      match as_num accumulated_value with
      | None => fail (TypeError "accumulated_value + step")
      | Some a =>
          {| returned := Ok (Some (a + step)); stored := st; emitted := []; logged := [] |}
      end
    else fail (ValueError "Invalid trend value. Must be up, down, or hold").

(** Successive invocations of [update_by_trend] for one metric, each with
    the value that the metric has at that time and its own draw: each
    works on the storage the previous one left. *)
Fixpoint update_by_trend_calls (context : MetricContext) (trend : string)
    (step_range : Q * Q) (calls : list (option Q * Q)) : list (result (option Q)) :=
  match calls with
  | [] => []
  | (current, u) :: rest =>
      let out := update_by_trend
                   {| data := data context; value := current; event := event context;
                      timestamp := timestamp context; storage := storage context;
                      links := links context |} trend step_range u in
      returned out
      :: update_by_trend_calls (with_storage context (stored out)) trend step_range rest
  end.

(** The running totals of the steps, from [a] on. *)
Fixpoint running (a : Q) (steps : list Q) : list Q :=
  match steps with
  | [] => []
  | d :: rest => (a + d) :: running (a + d) rest
  end.
(** An entry of [events_config]: the keys ['scenario'] (a name of the
    library or a callable), ['scenario_data'] and ['duration'], each
    possibly absent. *)
Record EventConfig := {
  scenario : option pyval;
  scenario_data : option kwargs;
  duration : option Q;
}.

Section Switch.
Variable call : Callables.
(** [hasattr(Scenarios, name)]; [getattr(Scenarios, name)] is then
    [LibFunc name]. *)
Variable hasattr_Scenarios : string -> bool.

(** The last resort: a random value in the metric's value range. *)
Definition random_in_metric_range (context : MetricContext) (u : Q) : Q :=
  uniform (fst (Metrics.value_range (data context)))
          (snd (Metrics.value_range (data context))) u.

(** Steps "execute default scenario" and "return random value". *)
Definition switch_default (context : MetricContext) (default_scenario : option string)
    (default_scenario_data : kwargs) (u : Q)
    (em : list Events.Event) (lg : list log_record) : Outcome :=
  let random_value st em lg :=
    {| returned := Ok (Some (random_in_metric_range context u));
       stored := st; emitted := em; logged := lg |} in
  match default_scenario with
  | Some default_name =>
      if negb (String.eqb default_name "") && hasattr_Scenarios default_name then
        let out := call (LibFunc default_name) context default_scenario_data in
        let em := (em ++ emitted out)%list in
        let lg := (lg ++ logged out)%list in
        match returned out with
        | Ok (Some result) =>
            {| returned := Ok (Some result); stored := stored out;
               emitted := em; logged := lg |}
        | _ =>
            random_value (stored out) em
              (lg ++ [error_record "Error occurred while executing default scenario"])%list
        end
      else random_value (storage context) em lg
  | None => random_value (storage context) em lg
  end.

(** Step "check if we should use last triggered event scenario", and what
    follows it. *)
Definition switch_last_event (context : MetricContext) (default_scenario : option string)
    (default_scenario_data : kwargs) (current_time : Q) (u : Q) : Outcome :=
  let st := storage context in
  let last_event_scenario := get "last_event_scenario" VNone st in
  let last_event_duration := get "last_event_duration" VNone st in
  let last_event_timestamp := get "last_event_timestamp" VNone st in
  let fail e := {| returned := Raise e; stored := st; emitted := []; logged := [] |} in
  let use_last :=
    if truthy last_event_scenario && truthy last_event_timestamp then
      if is_none last_event_duration then Ok true
      else
        match as_num last_event_timestamp, as_num last_event_duration with
        | Some ts, Some d => Ok (Qleb (current_time - ts) d)
        | _, _ => Raise (TypeError "current_time - last_event_timestamp <= last_event_duration")
        end
    else Ok false in
  match use_last with
  | Raise e => fail e
  | Ok false => switch_default context default_scenario default_scenario_data u [] []
  | Ok true =>
      let last_event_params := get "last_event_params" (VDict []) st in
      let failed context em lg :=
        switch_default context default_scenario default_scenario_data u em
          (lg ++ [error_record "Error occurred while executing last event scenario"])%list in
      match last_event_scenario, last_event_params with
      | VFunc f, VDict params =>
          let out := call f context params in
          match returned out with
          | Ok (Some result) =>
              {| returned := Ok (Some result); stored := stored out;
                 emitted := emitted out; logged := logged out |}
          | _ => failed (with_storage context (stored out)) (emitted out) (logged out)
          end
      | _, _ => failed context [] []
      end
  end.

(** The scenario function for the value under ['scenario']. *)
Definition resolve (scenario_name : pyval) : option func :=
  match scenario_name with
  | VStr s => if hasattr_Scenarios s then Some (LibFunc s) else None
  | VFunc f => Some f
  | _ => None
  end.

(** [switch_scenario_by_events]; [current_time] is the reading of
    [time.time()] and [u] the draw of the [random.uniform] that the call
    makes itself. *)
Definition switch_scenario_by_events (context : MetricContext)
    (events_config : gmap string EventConfig) (default_scenario : option string)
    (default_scenario_data : option kwargs) (current_time : Q) (u : Q) : Outcome :=
  let default_scenario_data := default [] default_scenario_data in
  let continue st :=
    switch_last_event (with_storage context st) default_scenario default_scenario_data
                      current_time u in
  match event context with
  | None => continue (storage context)
  | Some ev =>
      match events_config !! Events.name ev with
      | None => continue (storage context)
      | Some event_config =>
          match scenario event_config with
          | Some scenario_name =>
              let scenario_data := default [] (scenario_data event_config) in
              let scenario_duration := duration event_config in
              let st := set "last_event_params" (VDict scenario_data) (storage context) in
              let st := set "last_event_timestamp" (VNum current_time) st in
              let st := set "last_event_duration" (of_opt scenario_duration) st in
              match resolve scenario_name with
              | Some scenario_func =>
                  let out := call scenario_func (with_storage context st) scenario_data in
                  let random_value st :=
                    {| returned := Ok (Some (random_in_metric_range context u));
                       stored := st; emitted := emitted out;
                       logged := (logged out
                                  ++ [error_record "Error occurred while executing scenario"])%list |} in
                  match returned out with
                  | Ok result =>
                      let st := set "last_event_scenario" (VFunc scenario_func) (stored out) in
                      match result with
                      | Some r =>
                          {| returned := Ok (Some r); stored := st;
                             emitted := emitted out; logged := logged out |}
                      | None => random_value st
                      end
                  | Raise _ => random_value (stored out)
                  end
              | None => continue st
              end
          | None =>
              let st := set "last_event_scenario" VNone (storage context) in
              let st := set "last_event_duration" VNone st in
              let st := set "last_event_timestamp" VNone st in
              continue st
          end
      end
  end.

End Switch.

(** [time_duration]; [current_time] is the reading of [time.time()]. *)
Definition time_duration (context : MetricContext) (current_time : Q) : Outcome :=
  let st := storage context in
  if is_none (get "uptime_start" VNone st) then
    {| returned := Ok (Some 0); stored := set "uptime_start" (VNum current_time) st;
       emitted := []; logged := [] |}
  else
    match as_num (get "uptime_start" VNone st) with
    | None => {| returned := Raise (TypeError "current_time - start_time");
                 stored := st; emitted := []; logged := [] |}
    | Some start_time =>
        {| returned := Ok (Some (current_time - start_time)); stored := st;
           emitted := []; logged := [] |}
    end.

(** Successive invocations of [time_duration] for one metric, at the clock
    readings [times]: each works on the storage the previous one left. *)
Fixpoint time_duration_calls (context : MetricContext) (times : list Q)
  : list (result (option Q)) :=
  match times with
  | [] => []
  | current_time :: rest =>
      let out := time_duration context current_time in
      returned out :: time_duration_calls (with_storage context (stored out)) rest
  end.

(** [sum(varieties)]: the weights are added from the left, starting from 0. *)
Definition py_sum (l : list Q) : Q := fold_left Qplus l 0.

(** The [for] loop of the weighted selection: the first index at which the
    running total reaches the draw; [None] when the loop ends without
    [break]. *)
Fixpoint weighted_choice (weights : list Q) (rand_value cumulative : Q) (i : nat)
  : option nat :=
  match weights with
  | [] => None
  | weight :: rest =>
      let cumulative := cumulative + weight in
      if Qleb rand_value cumulative then Some i
      else weighted_choice rest rand_value cumulative (S i)
  end.

(** The [int] that a stored value is, when it is one.  Integers and floats
    share [VNum]: a number without fraction is read as the [int]. *)
Definition as_index (v : pyval) : option Z :=
  match v with
  | VNum q => if Qeqb (inject_Z (Qfloor q)) q then Some (Qfloor q) else None
  | VBool b => Some (if b then 1 else 0)%Z
  | _ => None
  end.

(** [l[i]] for a list and an [int]: a negative index counts from the end;
    [None] is the [IndexError]. *)
Definition py_index {A : Type} (l : list A) (i : Z) : option A :=
  let n := Z.of_nat (length l) in
  if ((0 <=? i) && (i <? n))%Z then l !! Z.to_nat i
  else if ((- n <=? i) && (i <? 0))%Z then l !! Z.to_nat (n + i)
  else None.

(** What a call of [variety_selection] comes to: an outcome as of any
    scenario, or the [IndexError] of [values[current_index]], with the
    storage as the call left it. *)
Inductive Selection :=
| Selected (out : Outcome)
| IndexError (st : StateStorage).

(** [variety_selection]; [change_draw] and [rand_value] are the two draws
    of [random.random()], the second taken only when the first is below
    [change_probability]. *)
Definition variety_selection (context : MetricContext) (values varieties : list Q)
    (change_probability : Q) (change_draw rand_value : Q) : Selection :=
  let st := storage context in
  let fail e st :=
    Selected {| returned := Raise e; stored := st; emitted := []; logged := [] |} in
  if negb (Nat.eqb (length values) (length varieties)) then
    fail (ValueError "Values list length must match varieties list length") st
  else if existsb (fun w => Qltb w 0) varieties then
    fail (ValueError "All variety weights must be non-negative") st
  else if negb (Qleb 0 change_probability && Qleb change_probability 1) then
    fail (ValueError "Change probability must be between 0.0 and 1.0") st
  else
    let total_weight := py_sum varieties in
    if Qeqb total_weight 0 then
      fail (ValueError "Varieties weights cannot all be zero") st
    else
      let normalized_varieties := map (fun w => w / total_weight) varieties in
      let current_index := get "variety_index" (VNum 0) st in
      let '(current_index, st) :=
        if Qltb change_draw change_probability then
          let current_index :=
            match weighted_choice normalized_varieties rand_value 0 0 with
            | Some i => VNum (inject_Z (Z.of_nat i))
            | None => current_index
            end in
          (current_index, set "variety_index" current_index st)
        else (current_index, st) in
      match as_index current_index with
      | None => fail (TypeError "list indices must be integers") st
      | Some i =>
          match py_index values i with
          | None => IndexError st
          | Some v =>
              Selected {| returned := Ok (Some v); stored := st;
                          emitted := []; logged := [] |}
          end
      end.

(** The index that [variety_selection] keeps in the storage, when there is
    one, is an index of a list of length [n]. *)
Definition variety_index_valid (st : StateStorage) (n : nat) : Prop :=
  forall v, st !! "variety_index" = Some v ->
            exists i, v = VNum (inject_Z (Z.of_nat i)) /\ (i < n)%nat.

(** [links.get(name, None)] on the links of a context. *)
Fixpoint links_get (name : string) (links : list (string * MetricContext))
  : option MetricContext :=
  match links with
  | [] => None
  | (n, c) :: rest => if String.eqb name n then Some c else links_get name rest
  end.

(** [relay_to_other_metric]; the calc function reads the context of the
    source metric and returns or raises. *)
Definition relay_to_other_metric (context : MetricContext) (source_metric_name : string)
    (calc_function : MetricContext -> result (option Q)) : Outcome :=
  match links_get source_metric_name (links context) with
  | Some source_metric_context =>
      match calc_function source_metric_context with
      | Ok r =>
          {| returned := Ok r; stored := storage context; emitted := []; logged := [] |}
      | Raise _ =>
          {| returned := Ok (value context); stored := storage context; emitted := [];
             logged := [error_record "Error occurred while relaying to metric"] |}
      end
  | None =>
      {| returned := Ok (value context); stored := storage context; emitted := [];
         logged := [error_record "Source metric is not provided!"] |}
  end.

Section ByEvent.
Variable call : Callables.

(** [calc_by_event]; [events_config] maps event names to calc functions,
    and may be [None]. *)
Definition calc_by_event (context : MetricContext)
    (events_config : option (gmap string pyval)) : Outcome :=
  let unchanged :=
    {| returned := Ok (value context); stored := storage context;
       emitted := []; logged := [] |} in
  match event context, events_config with
  | Some ev, Some config =>
      if Nat.eqb (size config) 0 then unchanged
      else
        match config !! Events.name ev with
        | Some calc_function =>
            if truthy calc_function then
              match calc_function with
              | VFunc f => call f context []
              | _ => {| returned := Raise (TypeError "object is not callable");
                        stored := storage context; emitted := []; logged := [] |}
              end
            else unchanged
        | None => unchanged
        end
  | _, _ => unchanged
  end.

End ByEvent.

End Scenarios.

(* ===================================================================== *)
(** * utils.py *)
(* ===================================================================== *)

Module Utils.
Import Metrics.

(** Strings are read as sequences of code points below 256. *)
Definition code (c : ascii) : N := N_of_ascii c.

(** [str.isspace] of a character, which is also what [\s] matches. *)
Definition is_space (c : ascii) : bool :=
  let n := code c in
  ((9 <=? n) && (n <=? 13) || (28 <=? n) && (n <=? 32) || (n =? 133) || (n =? 160))%N.

(** What [\d] matches. *)
Definition is_digit (c : ascii) : bool :=
  let n := code c in ((48 <=? n) && (n <=? 57))%N.

(** What [[a-z]] matches. *)
Definition is_az (c : ascii) : bool :=
  let n := code c in ((97 <=? n) && (n <=? 122))%N.

(** [str.lower] of a character. *)
Definition lower_char (c : ascii) : ascii :=
  let n := code c in
  if ((65 <=? n) && (n <=? 90) || (192 <=? n) && (n <=? 222) && negb (n =? 215))%N
  then ascii_of_N (n + 32) else c.

Fixpoint lower (s : string) : string :=
  match s with
  | EmptyString => EmptyString
  | String c rest => String (lower_char c) (lower rest)
  end.

Fixpoint lstrip (s : string) : string :=
  match s with
  | EmptyString => EmptyString
  | String c rest => if is_space c then lstrip rest else s
  end.

Fixpoint rstrip (s : string) : string :=
  match s with
  | EmptyString => EmptyString
  | String c rest =>
      match rstrip rest with
      | EmptyString => if is_space c then EmptyString else String c EmptyString
      | rest' => String c rest'
      end
  end.

Definition strip (s : string) : string := rstrip (lstrip s).

(** The longest prefix of characters of a class, and what follows it. *)
Fixpoint span (p : ascii -> bool) (s : string) : string * string :=
  match s with
  | EmptyString => (EmptyString, EmptyString)
  | String c rest =>
      if p c then let '(taken, remaining) := span p rest in (String c taken, remaining)
      else (EmptyString, s)
  end.

(** What [(?:\.\d+)?] takes from the front of a text: a point and the
    digits after it when there is at least one, nothing otherwise. *)
Definition optional_fraction (s : string) : string * string :=
  match s with
  | String c after_dot =>
      if Ascii.eqb c "." then
        let '(frac, after_frac) := span is_digit after_dot in
        if String.eqb frac "" then (EmptyString, s)
        else (String c frac, after_frac)
      else (EmptyString, s)
  | EmptyString => (EmptyString, s)
  end.

(** [re.match(r'^(\d+(?:\.\d+)?)\s*([a-z]+)$', s)]: the two groups.  Every
    class of the pattern excludes the character that may follow it, so the
    greedy match is the only one; [$] also matches before a final line
    feed. *)
Definition regex_match (s : string) : option (string * string) :=
  let '(int_part, after_int) := span is_digit s in
  if String.eqb int_part "" then None
  else
    let '(fraction, after_number) := optional_fraction after_int in
    let '(_, after_space) := span is_space after_number in
    let '(unit, after_unit) := span is_az after_space in
    if String.eqb unit "" then None
    else if String.eqb after_unit "" || String.eqb after_unit (String "010" "")
    then Some (int_part ++ fraction, unit)
    else None.

(** The number that a string of decimal digits writes. *)
Fixpoint digits_value (s : string) (acc : Z) : Z :=
  match s with
  | EmptyString => acc
  | String c rest => digits_value rest (10 * acc + Z.of_N (code c - 48))%Z
  end.

(** [float(number_str)] for digits with an optional fraction; anything
    else is a [ValueError]. *)
Definition float_of_str (number_str : string) : option Q :=
  let '(int_part, after_int) := span is_digit number_str in
  if String.eqb int_part "" then None
  else
    let '(fraction, after_number) := optional_fraction after_int in
    if negb (String.eqb after_number "") then None
    else
      match fraction with
      | EmptyString => Some (inject_Z (digits_value int_part 0))
      | String _ frac =>
          Some (inject_Z (digits_value (int_part ++ frac) 0)
                / inject_Z (10 ^ Z.of_nat (String.length frac)))
      end.

(** [int(x)]: truncation towards zero. *)
Definition int (x : Q) : Z :=
  if Qltb x 0 then Qceiling x else Qfloor x.

Definition BYTE_UNITS : list (string * Z) :=
  [("b", 1); ("byte", 1); ("bytes", 1);
   ("kb", 1024); ("kbyte", 1024); ("kbytes", 1024); ("kilobyte", 1024); ("kilobytes", 1024);
   ("mb", 1024^2); ("mbyte", 1024^2); ("mbytes", 1024^2); ("megabyte", 1024^2); ("megabytes", 1024^2);
   ("gb", 1024^3); ("gbyte", 1024^3); ("gbytes", 1024^3); ("gigabyte", 1024^3); ("gigabytes", 1024^3);
   ("tb", 1024^4); ("tbyte", 1024^4); ("tbytes", 1024^4); ("terabyte", 1024^4); ("terabytes", 1024^4);
   ("pb", 1024^5); ("pbyte", 1024^5); ("pbytes", 1024^5); ("petabyte", 1024^5); ("petabytes", 1024^5)]%Z.

Definition BIT_UNITS : list (string * Z) :=
  [("bit", 1); ("bits", 1);
   ("kbit", 1024); ("kbits", 1024); ("kilobit", 1024); ("kilobits", 1024);
   ("mbit", 1024^2); ("mbits", 1024^2); ("megabit", 1024^2); ("megabits", 1024^2);
   ("gbit", 1024^3); ("gbits", 1024^3); ("gigabit", 1024^3); ("gigabits", 1024^3);
   ("tbit", 1024^4); ("tbits", 1024^4); ("terabit", 1024^4); ("terabits", 1024^4);
   ("pbit", 1024^5); ("pbits", 1024^5); ("petabit", 1024^5); ("petabits", 1024^5)]%Z.

(** [units[unit]], with [unit in units] as [Some]. *)
Fixpoint lookup_unit (unit : string) (units : list (string * Z)) : option Z :=
  match units with
  | [] => None
  | (u, multiplier) :: rest => if String.eqb unit u then Some multiplier else lookup_unit unit rest
  end.

(** The least real that binary64 rounds to the infinity: [2^1024 - 2^970].
    The multipliers being powers of two, the float [number * multiplier]
    is the infinity exactly when the product written by the text reaches
    it, whether [float(number_str)] or the multiplication overflows. *)
Definition FLOAT_OVERFLOW : Q := inject_Z (2 ^ 1024 - 2 ^ 970).

(** [int(number * multiplier)]: [int] raises on the infinity. *)
Definition int_of_product (number : Q) (multiplier : Z) : result Z :=
  if Qleb FLOAT_OVERFLOW (number * inject_Z multiplier)
  then Raise (OverflowError "cannot convert float infinity to integer")
  else Ok (int (number * inject_Z multiplier)).

(** [size_to_bytes], applied to any Python value. *)
Definition size_to_bytes (size : pyval) : result Z :=
  match size with
  | VStr text =>
      if negb (truthy size) then Raise (ValueError "Size must be a non-empty string")
      else
        let size_lower := strip (lower text) in
        match regex_match size_lower with
        | None => Raise (ValueError "Invalid size format")
        | Some (number_str, unit) =>
            match float_of_str number_str with
            | None => Raise (ValueError "Invalid number in size")
            | Some number =>
                match lookup_unit unit BYTE_UNITS with
                | Some multiplier => int_of_product number multiplier
                | None =>
                    match lookup_unit unit BIT_UNITS with
                    | Some multiplier => int_of_product number multiplier
                    | None => Raise (ValueError "Unsupported unit")
                    end
                end
            end
        end
  | _ => Raise (ValueError "Size must be a non-empty string")
  end.

(** The accepted format, as the specification words it.  A decimal number
    is a run of digits, optionally followed by a point and a run of digits:
    no sign, no exponent.  A text is of the form when, trimmed, it is a
    decimal number, optional whitespace and a unit of letters, in either
    case. *)
Fixpoint all_of (p : ascii -> bool) (s : string) : bool :=
  match s with
  | EmptyString => true
  | String c rest => p c && all_of p rest
  end.

Definition is_letter (c : ascii) : bool :=
  let n := code c in ((65 <=? n) && (n <=? 90) || (97 <=? n) && (n <=? 122))%N.

Definition decimal_number (t : string) : Prop :=
  exists int_part,
    int_part <> "" /\ all_of is_digit int_part = true
    /\ (t = int_part
        \/ exists frac, frac <> "" /\ all_of is_digit frac = true
                        /\ t = int_part ++ "." ++ frac).

Definition of_the_form (text number unit : string) : Prop :=
  decimal_number number
  /\ unit <> "" /\ all_of is_letter unit = true
  /\ exists space, all_of is_space space = true /\ strip text = number ++ space ++ unit.

(** The text is empty or starts with a character outside the class. *)
Definition starts_outside (p : ascii -> bool) (s : string) : bool :=
  match s with
  | EmptyString => true
  | String c _ => negb (p c)
  end.

(** The characters of a decimal number: digits and the point. *)
Definition is_numeric (c : ascii) : bool := is_digit c || Ascii.eqb c ".".

(** The multiplier of a unit, whatever its case, when a table has it. *)
Definition unit_multiplier (unit : string) : option Z :=
  match lookup_unit (lower unit) BYTE_UNITS with
  | Some multiplier => Some multiplier
  | None => lookup_unit (lower unit) BIT_UNITS
  end.

(** A unit is known when, whatever its case, it is a key of one of the two
    tables. *)
Definition known_unit (unit : string) : Prop :=
  lookup_unit (lower unit) BYTE_UNITS <> None \/ lookup_unit (lower unit) BIT_UNITS <> None.

(** A number that binary64 holds exactly: an integer below [2^53] over a
    power of two.  [float(number_str)] reads such a number without
    rounding, and its product with a multiplier of the tables, a power of
    two, is exact as well. *)
Definition binary64_exact (q : Q) : Prop :=
  exists (significand : Z) (scale : nat),
    (0 <= significand < 2 ^ 53)%Z /\ (scale <= 1022)%nat
    /\ q == inject_Z significand / inject_Z (2 ^ Z.of_nat scale).

(** [min(a, b)] and [max(a, b)] of Python: the first argument unless the
    second is strictly smaller (larger). *)
Definition py_min (a b : Q) : Q := if Qltb b a then b else a.
Definition py_max (a b : Q) : Q := if Qltb a b then b else a.

(** [calc_percent_usage]. *)
Definition calc_percent_usage (source_metric_context : MetricContext) : result (option Q) :=
  match value source_metric_context with
  | None => Ok None
  | Some source_value =>
      let '(min_value, max_value) := value_range (data source_metric_context) in
      if Qleb max_value min_value then
        Raise (ValueError "Invalid target metric range: min must be less than max")
      else
        let clamped_value := py_max min_value (py_min max_value source_value) in
        let range_size := max_value - min_value in
        let usage_ratio := (clamped_value - min_value) / range_size in
        Ok (Some (usage_ratio * 100))
  end.

End Utils.

(* ===================================================================== *)
(** * loader.py *)
(* ===================================================================== *)

Module Loader.

(** The exceptions of the loader's pure steps. *)
Inductive error :=
| ConfigLoadError (site : string)
| IndexError (site : string).

Definition DEFAULT_CONFIG_CLASS_SUFFIX : string := "Config".

(** [s.endswith(suffix)]. *)
Definition endswith (s suffix : string) : bool :=
  let n := String.length s in
  let k := String.length suffix in
  (k <=? n)%nat && String.eqb (String.substring (n - k) k s) suffix.

(** [_select_config_class]; a class is any object of a type [C], and
    [config_classes] pairs the classes with their names. *)
Definition _select_config_class {C : Type} (config_classes : list (string * C))
    (class_name : option string) : error + C :=
  let auto_detect :=
    match List.find (fun entry => endswith (fst entry) DEFAULT_CONFIG_CLASS_SUFFIX)
                    config_classes with
    | Some (_, cls) => inr cls
    | None =>
        match config_classes with
        | (_, cls) :: _ => inr cls
        | [] => inl (IndexError "list index out of range")
        end
    end in
  match class_name with
  | Some wanted =>
      if String.eqb wanted "" then auto_detect
      else
        match List.find (fun entry => String.eqb (fst entry) wanted) config_classes with
        | Some (_, cls) => inr cls
        | None => inl (ConfigLoadError "Class not found")
        end
  | None => auto_detect
  end.

(** [_validate_mixer_config]. *)
Definition _validate_mixer_config (mixer_config : Mixer.MixerConfig) : error + unit :=
  match Mixer.hosts mixer_config with
  | [] => inl (ConfigLoadError "Invalid MixerConfig: no hosts defined")
  | _ :: _ => inr tt
  end.

End Loader.

(* ===================================================================== *)
(** * Inputs used in examples *)
(* ===================================================================== *)

Module Examples.
Import Storage.
Import Metrics.

(** The callables of the example runs: [do_nothing] of the library, and
    user callables that raise. *)
Definition library : Callables :=
  fun f context kw =>
    match f with
    | LibFunc name =>
        if String.eqb name "do_nothing" then Scenarios.do_nothing context
        else {| returned := Raise (AttributeError name); stored := storage context;
                emitted := []; logged := [] |}
    | UserFunc _ =>
        {| returned := Raise (ValueError "scenario failed"); stored := storage context;
           emitted := []; logged := [] |}
    end.

(** [MetricConfig(name='load', value_range=(0.0625, 1.0), init_value=0.0,
    scenario=Scenarios.do_nothing)]. *)
Definition narrow_config : MetricConfig :=
  {| name := "load"; metric_type := GAUGE; value_range := (1 # 16, 1);
     init_value := Some 0; units := ""; start_time := 0; ttl := None;
     update_interval := 10; listen_events := []; linked_metrics := [];
     scenario := Some (LibFunc "do_nothing"); scenario_data := [];
     description := "" |}.

(** The metric of [narrow_config], constructed at time 1000. *)
Definition narrow_metric : EmulatedMetric := Metrics.init narrow_config 1000.

(** A clock that reads [t] at every reading. *)
Definition clock_at (t : Q) : nat -> Q := fun _ => t.

(** [MetricConfig(name='memory', value_range=(1.0, 16.0), units='Gb')],
    and the context of its metric with value [v] and storage [st], without
    event. *)
Definition memory_config : MetricConfig :=
  {| name := "memory"; metric_type := GAUGE; value_range := (1, 16);
     init_value := None; units := "Gb"; start_time := 0; ttl := None;
     update_interval := 10; listen_events := []; linked_metrics := [];
     scenario := None; scenario_data := []; description := "" |}.

Definition memory_context (v : option Q) (st : StateStorage) : MetricContext :=
  {| data := memory_config; value := v; event := None; timestamp := 1000;
     storage := st; links := [] |}.

(** Two hosts of one job whose configured labels replace the generated
    ones, so that both carry the same label map; the first host is named
    like the key under which the mixer keeps the Prometheus object. *)
Definition shared_labels : gmap string string :=
  <["name" := "node"]> (<["host" := "node.local"]> (<["address" := "10.0.0.1"]> ∅)).

Definition cpu_config : MetricConfig :=
  {| name := "cpu"; metric_type := GAUGE; value_range := (0, 100);
     init_value := None; units := ""; start_time := 0; ttl := None;
     update_interval := 10; listen_events := []; linked_metrics := [];
     scenario := None; scenario_data := []; description := "" |}.

Definition host_named (host_name : string) : Hosts.HostConfig :=
  {| Hosts.name := host_name; Hosts.host := None; Hosts.ttl := 1800;
     Hosts.interval_range := (12, 17); Hosts.start_time := 0; Hosts.job_name := "job";
     Hosts.labels := shared_labels; Hosts.metrics := [cpu_config];
     Hosts.listen_events := [] |}.

Definition mixer_config (first second : string) : Mixer.MixerConfig :=
  {| Mixer.hosts := [host_named first; host_named second];
     Mixer.pushgateway_url := "http://localhost:9091"; Mixer.push_interval := 15;
     Mixer.default_job_name := "emulated_host_default";
     Mixer.cleanup_on_start := false; Mixer.cleanup_on_finish := false |}.

(** The constructors of the hosts all read the clock at 1000 and generate
    the same name and address. *)
Definition world : nat -> Q * string * string :=
  fun _ => (1000, "stress01.lgs01.app.stage", "192.168.1.10").

(** A client library whose constructors and updates succeed. *)
Definition prom_new : MetricType -> string -> string -> list string -> option unit :=
  fun _ _ _ _ => Some tt.
Definition prom_update : unit -> MetricType -> gmap string string -> Q -> bool :=
  fun _ _ _ _ => true.

(** The mixer of two hosts, after the first host has delivered
    [{cpu: 42.0}]; then what the delivery of [{cpu: 43.0}] by the second
    host gives. *)
Definition mixer_after_first (first second : string)
  : option (Mixer.MetricsMixer unit) :=
  match Mixer.init unit (mixer_config first second) world with
  | Ok m0 =>
      Some (fst (fst (Mixer.update_metrics_by_host unit prom_new prom_update m0 first
                        shared_labels [("cpu", 42)] (clock_at 1010))))
  | Raise _ => None
  end.

Definition second_delivery (first second : string)
  : option (Mixer.MetricsMixer unit * list log_record * option exn) :=
  match mixer_after_first first second with
  | Some m1 =>
      Some (Mixer.update_metrics_by_host unit prom_new prom_update m1 second
              shared_labels [("cpu", 43)] (clock_at 1020))
  | None => None
  end.

(** The cell that a mixer holds for a job, a metric and a key. *)
Definition cell_of {Prom : Type} (m : Mixer.MetricsMixer Prom) (job metric key : string)
  : option (Mixer.cell Prom) :=
  match Mixer._merged_metrics Prom m !! job with
  | Some of_job =>
      match of_job !! metric with
      | Some of_metric => of_metric !! key
      | None => None
      end
  | None => None
  end.

(** A host with one counter, [requests], whose scenario keeps its value
    5.0; the host is constructed and started at 1000, and its loop turns at
    the given times. *)
Definition requests_config : MetricConfig :=
  {| name := "requests"; metric_type := COUNTER; value_range := (0, 100);
     init_value := Some 5; units := ""; start_time := 0; ttl := None;
     update_interval := 10; listen_events := []; linked_metrics := [];
     scenario := Some (LibFunc "do_nothing"); scenario_data := [];
     description := "" |}.

Definition requests_host : Hosts.EmulatedHost :=
  Hosts.start
    (Hosts.init
       {| Hosts.name := "node"; Hosts.host := None; Hosts.ttl := 1800;
          Hosts.interval_range := (12, 17); Hosts.start_time := 0; Hosts.job_name := "job";
          Hosts.labels := ∅; Hosts.metrics := [requests_config];
          Hosts.listen_events := [] |}
       true 1000 "stress01.lgs01.app.stage" "192.168.1.10")
    1000.

Definition turn_at (t : Q) : Hosts.action :=
  Hosts.Turn t (fun _ => (t, clock_at t)).

(** A user scenario that keeps a total of its own under the key
    ['counter_total'], 100.0 at its first call and 0.0 afterwards, and
    returns 1.0:
    [first = context.storage.get('counter_total') is None;
     context.storage.set('counter_total', 100.0 if first else 0.0);
     return 1.0]. *)
Definition restarting (context : MetricContext) : Outcome :=
  let total := match get "counter_total" VNone (storage context) with
               | VNone => 100
               | _ => 0
               end in
  {| returned := Ok (Some 1);
     stored := set "counter_total" (VNum total) (storage context);
     emitted := []; logged := [] |}.

Definition restarting_library : Callables :=
  fun f context kw =>
    match f with
    | UserFunc _ => restarting context
    | LibFunc _ => library f context kw
    end.

(** A host with one counter, [requests], whose scenario is [restarting];
    the host is constructed and started at 1000. *)
Definition restarting_config : MetricConfig :=
  {| name := "requests"; metric_type := COUNTER; value_range := (0, 100);
     init_value := Some 0; units := ""; start_time := 0; ttl := None;
     update_interval := 10; listen_events := []; linked_metrics := [];
     scenario := Some (UserFunc 0); scenario_data := [];
     description := "" |}.

Definition restarting_host : Hosts.EmulatedHost :=
  Hosts.start
    (Hosts.init
       {| Hosts.name := "node"; Hosts.host := None; Hosts.ttl := 1800;
          Hosts.interval_range := (12, 17); Hosts.start_time := 0; Hosts.job_name := "job";
          Hosts.labels := ∅; Hosts.metrics := [restarting_config];
          Hosts.listen_events := [] |}
       true 1000 "stress01.lgs01.app.stage" "192.168.1.10")
    1000.

(** A size of the accepted form, with a known unit, whose number is
    [10^309]: ["1000...0b"], with 309 zeros. *)
Fixpoint zeros (n : nat) : string :=
  match n with
  | O => EmptyString
  | S k => String "0" (zeros k)
  end.

Definition huge_size : string := "1" ++ zeros 309 ++ "b".

(** [hasattr(Scenarios, name)] for the example runs. *)
Definition has_scenario (name : string) : bool := String.eqb name "do_nothing".

(** The event and the configuration of the repository's test
    [test_switch_scenario_state_cleanup_on_error]: the scenario of
    ['failing_event'] is a callable that raises. *)
Definition failing_event : Events.Event :=
  {| Events.name := "failing_event"; Events.data := None; Events.source := None |}.

Definition failing_events_config : gmap string Scenarios.EventConfig :=
  {[ "failing_event" :=
       {| Scenarios.scenario := Some (VFunc (UserFunc 0));
          Scenarios.scenario_data := Some [];
          Scenarios.duration := Some 60 |} ]}.

Definition failing_context : MetricContext :=
  {| data := narrow_config; value := Some (1 # 2); event := Some failing_event;
     timestamp := 1000; storage := ∅; links := [] |}.

(** The events of a peak of load: its start switches the metric to a
    scenario of the library for 60 seconds, its end resets it. *)
Definition peak_events_config : gmap string Scenarios.EventConfig :=
  <["peak_load_start" :=
      {| Scenarios.scenario := Some (VStr "do_nothing");
         Scenarios.scenario_data := None;
         Scenarios.duration := Some 60 |}]>
    {[ "peak_load_end" :=
         {| Scenarios.scenario := None;
            Scenarios.scenario_data := None;
            Scenarios.duration := None |} ]}.

Definition peak_context (event_name : option string) (st : Storage.StateStorage)
  : MetricContext :=
  {| data := narrow_config; value := Some (1 # 2);
     event := (fun n => {| Events.name := n; Events.data := None; Events.source := None |})
              <$> event_name;
     timestamp := 1000; storage := st; links := [] |}.

(** A host with the memory in use, 4.0 of the range (1.0, 16.0), and its
    percentage, which is linked to it and to a metric that the host does
    not have. *)
Definition memory_used_config : MetricConfig :=
  {| name := "memory"; metric_type := GAUGE; value_range := (1, 16);
     init_value := Some 4; units := "Gb"; start_time := 0; ttl := None;
     update_interval := 10; listen_events := []; linked_metrics := [];
     scenario := None; scenario_data := []; description := "" |}.

Definition memory_percent_config : MetricConfig :=
  {| name := "memory_percent"; metric_type := GAUGE; value_range := (0, 100);
     init_value := None; units := "%"; start_time := 0; ttl := None;
     update_interval := 10; listen_events := []; linked_metrics := ["memory"; "disk"];
     scenario := Some (LibFunc "relay_to_other_metric");
     scenario_data := [("source_metric_name", VStr "memory")];
     description := "" |}.

Definition memory_host_config : Hosts.HostConfig :=
  {| Hosts.name := "node"; Hosts.host := None; Hosts.ttl := 1800;
     Hosts.interval_range := (12, 17); Hosts.start_time := 0; Hosts.job_name := "job";
     Hosts.labels := ∅; Hosts.metrics := [memory_used_config; memory_percent_config];
     Hosts.listen_events := [] |}.

Definition memory_host : Hosts.EmulatedHost :=
  Hosts.init memory_host_config true 1000 "stress01.lgs01.app.stage" "192.168.1.10".

(** The context of the percentage, as the host builds it. *)
Definition memory_percent_context : option MetricContext :=
  (fun m => _build_metric_context (Hosts._emulated_metrics memory_host) m None
                                  (clock_at 2000))
  <$> Hosts._emulated_metrics memory_host !! "memory_percent".

(** A metric that counts workers: its scenario is [calc_by_event] with a
    calc function for the start of a host, which adds one. *)
Definition workers_events : gmap string pyval :=
  {[ "host_started" := VFunc (UserFunc 1) ]}.

Definition worker_started (context : MetricContext) : Outcome :=
  {| returned := Ok (Some (default 0 (value context) + 1)); stored := storage context;
     emitted := []; logged := [] |}.

Definition workers_library : Callables :=
  fun f context kw =>
    match f with
    | LibFunc _ =>
        Scenarios.calc_by_event (fun _ context _ => worker_started context) context
                                (Some workers_events)
    | UserFunc _ => worker_started context
    end.

Definition workers_config : MetricConfig :=
  {| name := "workers_count"; metric_type := GAUGE; value_range := (0, 10);
     init_value := None; units := "unit"; start_time := 0; ttl := None;
     update_interval := 10; listen_events := ["host_started"]; linked_metrics := [];
     scenario := Some (LibFunc "calc_by_event"); scenario_data := [];
     description := "" |}.

(** The metric after an update has given it the value 3.0. *)
Definition workers_metric : EmulatedMetric :=
  with_value (Metrics.init workers_config 1000) (checked_and_cut workers_config (Some 3)).

End Examples.

(* ===================================================================== *)
(** * Properties of the numerics *)
(* ===================================================================== *)


Section Numerics.

Lemma Qltb_lt (x y : Q) : Qltb x y = true <-> x < y.
Proof.
  unfold Qltb. rewrite negb_true_iff. split.
  - intros H. apply Qnot_le_lt. intros Hle.
    apply Qle_bool_iff in Hle. congruence.
  - intros H. destruct (Qle_bool y x) eqn:E; [|reflexivity].
    apply Qle_bool_iff in E. exfalso. apply (Qlt_not_le _ _ H E).
Qed.

Lemma Qltb_ge (x y : Q) : Qltb x y = false <-> y <= x.
Proof.
  unfold Qltb. rewrite negb_false_iff. apply Qle_bool_iff.
Qed.

Lemma Qleb_le (x y : Q) : Qleb x y = true <-> x <= y.
Proof. apply Qle_bool_iff. Qed.

Lemma Qleb_gt (x y : Q) : Qleb x y = false <-> y < x.
Proof.
  unfold Qleb. split.
  - intros H. apply Qnot_le_lt. intros Hle. apply Qle_bool_iff in Hle. congruence.
  - intros H. destruct (Qle_bool x y) eqn:E; [|reflexivity].
    apply Qle_bool_iff in E. exfalso. apply (Qlt_not_le _ _ H E).
Qed.

Lemma Qeqb_eq (x y : Q) : Qeqb x y = true <-> x == y.
Proof. apply Qeq_bool_iff. Qed.

Lemma floor_bounds (x : Q) :
  inject_Z (Qfloor x) <= x /\ x < inject_Z (Qfloor x) + 1.
Proof.
  split; [apply Qfloor_le|].
  pose proof (Qlt_floor x) as H. rewrite inject_Z_plus in H. exact H.
Qed.

(** The rounded integer is the floor or the next integer, at distance at
    most one half. *)
Lemma round_half_even_near (x : Q) :
  inject_Z (round_half_even x) - (1 # 2) <= x /\ x <= inject_Z (round_half_even x) + (1 # 2).
Proof.
  unfold round_half_even.
  destruct (floor_bounds x) as [Hlo Hhi].
  set (f := Qfloor x) in *.
  destruct (Qltb ((x - inject_Z f) * 2) 1) eqn:E1.
  - apply Qltb_lt in E1. split; lra.
  - apply Qltb_ge in E1.
    destruct (Qltb 1 ((x - inject_Z f) * 2)) eqn:E2.
    + apply Qltb_lt in E2. rewrite inject_Z_plus. change (inject_Z 1) with 1.
      split; lra.
    + apply Qltb_ge in E2.
      destruct (Z.even f); [|rewrite inject_Z_plus; change (inject_Z 1) with 1];
        split; lra.
Qed.

Lemma round_half_even_mono (x y : Q) :
  x <= y -> (round_half_even x <= round_half_even y)%Z.
Proof.
  intros Hxy.
  pose proof (Qfloor_resp_le _ _ Hxy) as Hf.
  destruct (floor_bounds x) as [Hxlo Hxhi].
  destruct (floor_bounds y) as [Hylo Hyhi].
  unfold round_half_even.
  set (fx := Qfloor x) in *. set (fy := Qfloor y) in *.
  assert (Hcases : (fx < fy)%Z \/ fx = fy) by lia.
  destruct Hcases as [Hlt | Heq].
  - assert (fx + 1 <= fy)%Z by lia.
    repeat match goal with |- context [if ?b then _ else _] => destruct b end; lia.
  - rewrite <- Heq in *.
    destruct (Qltb ((x - inject_Z fx) * 2) 1) eqn:X1.
    + repeat match goal with |- context [if ?b then _ else _] => destruct b end; lia.
    + apply Qltb_ge in X1.
      destruct (Qltb ((y - inject_Z fx) * 2) 1) eqn:Y1.
      { apply Qltb_lt in Y1. exfalso. lra. }
      destruct (Qltb 1 ((x - inject_Z fx) * 2)) eqn:X2.
      * apply Qltb_lt in X2.
        destruct (Qltb 1 ((y - inject_Z fx) * 2)) eqn:Y2; [lia|].
        apply Qltb_ge in Y2. exfalso. lra.
      * destruct (Qltb 1 ((y - inject_Z fx) * 2)) eqn:Y2;
          destruct (Z.even fx); lia.
Qed.

Lemma round_half_even_Z (k : Z) : round_half_even (inject_Z k) = k.
Proof.
  unfold round_half_even. rewrite Qfloor_Z.
  destruct (Qltb ((inject_Z k - inject_Z k) * 2) 1) eqn:E; [reflexivity|].
  apply Qltb_ge in E. exfalso. lra.
Qed.

Lemma round_half_even_proper (x y : Q) : x == y -> round_half_even x = round_half_even y.
Proof.
  intros H. apply Z.le_antisymm; apply round_half_even_mono; rewrite H; apply Qle_refl.
Qed.

Lemma round_mono (x y : Q) (n : nat) : x <= y -> round x n <= round y n.
Proof.
  intros H. unfold round.
  assert (Hs : 0 < inject_Z (10 ^ Z.of_nat n)).
  { change 0 with (inject_Z 0). rewrite <- Zlt_Qlt. apply Z.pow_pos_nonneg; lia. }
  set (s := inject_Z (10 ^ Z.of_nat n)) in *.
  apply Qmult_le_compat_r.
  - rewrite <- Zle_Qle. apply round_half_even_mono.
    apply Qmult_le_compat_r; [exact H | apply Qlt_le_weak, Hs].
  - apply Qlt_le_weak. apply Qinv_lt_0_compat. exact Hs.
Qed.

(** A value with at most [n] decimal places is a fixed point of [round]. *)
Lemma round_fixed (k : Z) (n : nat) (x : Q) :
  x == inject_Z k / inject_Z (10 ^ Z.of_nat n) -> round x n == x.
Proof.
  intros H. unfold round.
  assert (Hs : 0 < inject_Z (10 ^ Z.of_nat n)).
  { change 0 with (inject_Z 0). rewrite <- Zlt_Qlt. apply Z.pow_pos_nonneg; lia. }
  set (s := inject_Z (10 ^ Z.of_nat n)) in *.
  assert (Hk : x * s == inject_Z k).
  { rewrite H. field. intros E. rewrite E in Hs. apply (Qlt_irrefl _ Hs). }
  rewrite (round_half_even_proper _ _ Hk), round_half_even_Z. symmetry. exact H.
Qed.

End Numerics.

(* ===================================================================== *)
(** * Properties of the emulated metric *)
(* ===================================================================== *)

Section MetricProperties.
Import Storage.
Import Metrics.
Variable call : Callables.
Variable peers : gmap string EmulatedMetric.

Lemma check_value_range_bounds (r : Q * Q) (x : Q) :
  fst r <= snd r ->
  fst r <= check_value_range r x /\ check_value_range r x <= snd r.
Proof.
  intros Hr. unfold check_value_range.
  destruct (Qltb x (fst r)) eqn:E1.
  - split; [apply Qle_refl | exact Hr].
  - apply Qltb_ge in E1. destruct (Qltb (snd r) x) eqn:E2.
    + split; [exact Hr | apply Qle_refl].
    + apply Qltb_ge in E2. split; assumption.
Qed.

(** A value inside the range passes the range check unchanged. *)
Lemma check_value_range_inside (r : Q * Q) (x : Q) :
  fst r <= x -> x <= snd r -> check_value_range r x = x.
Proof.
  intros Hlo Hhi. unfold check_value_range.
  destruct (Qltb x (fst r)) eqn:E1.
  - apply Qltb_lt in E1. exfalso. apply (Qlt_not_le _ _ E1 Hlo).
  - destruct (Qltb (snd r) x) eqn:E2; [|reflexivity].
    apply Qltb_lt in E2. exfalso. apply (Qlt_not_le _ _ E2 Hhi).
Qed.

Lemma compute_value_spec (m : EmulatedMetric) (event : option Events.Event) (clock : nat -> Q) :
  compute_value call peers m event clock =
  (checked_and_cut (_config m) (fst (fst (_update_value_by_scenario call peers m event clock))),
   {| _value := checked_and_cut (_config m)
                  (fst (fst (_update_value_by_scenario call peers m event clock)));
      _config := _config m; _is_active := _is_active m; _start_time := _start_time m;
      _last_update := _last_update m; _linked_metrics := _linked_metrics m;
      _scenario_state := snd (fst (_update_value_by_scenario call peers m event clock)) |},
   snd (_update_value_by_scenario call peers m event clock)).
Proof.
  unfold compute_value.
  destruct (_update_value_by_scenario call peers m event clock) as [[v st] em].
  reflexivity.
Qed.

(** A computed value is the cut of a value of the range. *)
Lemma checked_and_cut_range (config : MetricConfig) (o : option Q) (v : Q) :
  fst (value_range config) <= snd (value_range config) ->
  checked_and_cut config o = Some v ->
  exists c, fst (value_range config) <= c /\ c <= snd (value_range config)
            /\ v = round c 2
            /\ round (fst (value_range config)) 2 <= v
            /\ v <= round (snd (value_range config)) 2.
Proof.
  intros Hr H. destruct o as [x|]; [|discriminate].
  injection H as <-.
  destruct (check_value_range_bounds (value_range config) x Hr) as [Hlo Hhi].
  exists (check_value_range (value_range config) x).
  repeat split; try assumption; apply round_mono; assumption.
Qed.

(** C1 (as amended).  An invocation of [update_value] that returns a
    non-nil value either computed it, and then the value is the cut to two
    decimal places of a value [c] of [[min, max]], it is stored, it lies
    between the cuts of [min] and of [max], and it lies in [[min, max]]
    itself whenever [min] and [max] have at most two decimal places; or the
    invocation was a time-driven one within the update interval, and the
    value is the stored one, returned unchanged. *)
Theorem update_value_range (m : EmulatedMetric) (event : option Events.Event)
    (now : Q) (clock : nat -> Q) (v : Q) (m' : EmulatedMetric) (em : list Events.Event) :
  fst (value_range (_config m)) <= snd (value_range (_config m)) ->
  update_value call peers m event now clock = (Some v, m', em) ->
  (exists c,
      fst (value_range (_config m)) <= c /\ c <= snd (value_range (_config m))
      /\ v = round c 2
      /\ _value m' = Some v
      /\ round (fst (value_range (_config m))) 2 <= v
      /\ v <= round (snd (value_range (_config m))) 2
      /\ (forall k1 k2 : Z,
            fst (value_range (_config m)) == inject_Z k1 / 100 ->
            snd (value_range (_config m)) == inject_Z k2 / 100 ->
            fst (value_range (_config m)) <= v /\ v <= snd (value_range (_config m))))
  \/ (event = None /\ now - _last_update m < update_interval (_config m)
      /\ _value m = Some v /\ m' = m).
Proof.
  intros Hr H.
  assert (Hcomputed : forall m0 ev, _config m0 = _config m ->
            compute_value call peers m0 ev clock = (Some v, m', em) ->
            exists c,
              fst (value_range (_config m)) <= c /\ c <= snd (value_range (_config m))
              /\ v = round c 2
              /\ _value m' = Some v
              /\ round (fst (value_range (_config m))) 2 <= v
              /\ v <= round (snd (value_range (_config m))) 2
              /\ (forall k1 k2 : Z,
                    fst (value_range (_config m)) == inject_Z k1 / 100 ->
                    snd (value_range (_config m)) == inject_Z k2 / 100 ->
                    fst (value_range (_config m)) <= v /\ v <= snd (value_range (_config m)))).
  { intros m0 ev Hcfg Hc. rewrite compute_value_spec in Hc.
    injection Hc as Hv Hm' _. rewrite Hcfg in Hv.
    destruct (checked_and_cut_range _ _ _ Hr Hv) as (c & Hlo & Hhi & Hvc & Hrlo & Hrhi).
    exists c. repeat split; try assumption.
    - rewrite <- Hm'. simpl. rewrite Hcfg. exact Hv.
    - rewrite <- (round_fixed k1 2 _ H0). exact Hrlo.
    - rewrite <- (round_fixed k2 2 _ H1). exact Hrhi. }
  unfold update_value in H. destruct event as [e|].
  - left. apply (Hcomputed m (Some e)); [reflexivity | exact H].
  - destruct (Qltb now (_start_time m)); [discriminate|].
    destruct (match ttl (_config m) with
              | Some t => Qltb (_start_time m + t) now
              | None => false
              end); [discriminate|].
    destruct (Qltb (now - _last_update m) (update_interval (_config m))) eqn:E.
    + right. injection H as Hv Hm' _. apply Qltb_lt in E. auto.
    + left. apply (Hcomputed (with_last_update m now) None); [reflexivity | exact H].
Qed.

(** C2.  A time-driven invocation after the start time and within the TTL
    returns the current value and changes nothing while less than
    [update_interval] has passed since [last_update]; from exactly
    [update_interval] on it calls the scenario, stores and returns the
    checked and cut value, and sets [last_update] to [now].  Whatever the
    invocation, [last_update] changes only in that second case: never on
    an event-driven invocation. *)
Theorem update_value_interval (m : EmulatedMetric) (now : Q) (clock : nat -> Q) :
  _start_time m <= now ->
  match ttl (_config m) with Some t => now <= _start_time m + t | None => True end ->
  (now - _last_update m < update_interval (_config m) ->
   update_value call peers m None now clock = (_value m, m, []))
  /\ (update_interval (_config m) <= now - _last_update m ->
      let fresh := _update_value_by_scenario call peers (with_last_update m now) None clock in
      update_value call peers m None now clock =
      (checked_and_cut (_config m) (fst (fst fresh)),
       {| _value := checked_and_cut (_config m) (fst (fst fresh));
          _config := _config m; _is_active := _is_active m; _start_time := _start_time m;
          _last_update := now; _linked_metrics := _linked_metrics m;
          _scenario_state := snd (fst fresh) |},
       snd fresh))
  /\ (forall (event : option Events.Event) (t : Q),
        _last_update (snd (fst (update_value call peers m event t clock))) = _last_update m
        \/ (event = None /\ update_interval (_config m) <= t - _last_update m
            /\ _last_update (snd (fst (update_value call peers m event t clock))) = t)).
Proof.
  intros Hstart Httl.
  assert (G1 : Qltb now (_start_time m) = false) by (apply Qltb_ge; exact Hstart).
  assert (G2 : match ttl (_config m) with
               | Some t => Qltb (_start_time m + t) now
               | None => false
               end = false).
  { destruct (ttl (_config m)); [apply Qltb_ge; exact Httl | reflexivity]. }
  split; [|split].
  - intros Hlt. unfold update_value. rewrite G1, G2.
    apply Qltb_lt in Hlt. rewrite Hlt. reflexivity.
  - intros Hge. unfold update_value. rewrite G1, G2.
    apply Qltb_ge in Hge. rewrite Hge. rewrite compute_value_spec. reflexivity.
  - intros event t. unfold update_value. destruct event as [e|].
    + left. rewrite compute_value_spec. reflexivity.
    + destruct (Qltb t (_start_time m)); [left; reflexivity|].
      destruct (match ttl (_config m) with
                | Some t0 => Qltb (_start_time m + t0) t
                | None => false
                end); [left; reflexivity|].
      destruct (Qltb (t - _last_update m) (update_interval (_config m))) eqn:E;
        [left; reflexivity|].
      right. apply Qltb_ge in E. rewrite compute_value_spec. auto.
Qed.

(** The cut to two decimal places gives a multiple of 0.01 that is within
    half of 0.01 of the value. *)
Lemma round_two_places (x : Q) :
  exists k : Z,
    round x 2 == inject_Z k / 100
    /\ x - (1 # 200) <= round x 2 /\ round x 2 <= x + (1 # 200).
Proof.
  exists (round_half_even (x * inject_Z (10 ^ Z.of_nat 2))).
  unfold round. change (inject_Z (10 ^ Z.of_nat 2)) with 100.
  destruct (round_half_even_near (x * 100)) as [H1 H2].
  set (k := inject_Z (round_half_even (x * 100))) in *.
  split; [reflexivity|]. split.
  - apply Qle_shift_div_l; [reflexivity|]. lra.
  - apply Qle_shift_div_r; [reflexivity|]. lra.
Qed.

(** C10.  An event-driven invocation takes no clock reading and passes no
    time gate: whatever [now] is, before the start time or after the TTL,
    the scenario (when one is configured) is called on the metric's
    context; its value (the current value when it raised, or when no
    scenario is configured) is clamped to the value range, then rounded to
    two decimal places, stored and returned; the storage is the one the
    scenario left, and [last_update] is left as it was.  The clamped value
    is the lower end for a value below the range, the upper end for a
    value above it, the value itself inside the range; the rounded value
    is a multiple of 0.01 within half of 0.01 of the clamped one. *)
Theorem update_value_event_skips_gates (m : EmulatedMetric) (e : Events.Event)
    (now : Q) (clock : nat -> Q) :
  let lo := fst (value_range (_config m)) in
  let hi := snd (value_range (_config m)) in
  let called :=
    match scenario (_config m) with
    | Some f =>
        let out := call f (_build_metric_context peers m (Some e) clock)
                        (scenario_data (_config m)) in
        (match returned out with Ok value => value | Raise _ => _value m end,
         stored out, emitted out)
    | None => (_value m, _scenario_state m, [])
    end in
  let clamped x := if Qltb x lo then lo else if Qltb hi x then hi else x in
  let fresh := match fst (fst called) with
               | Some x => Some (round (clamped x) 2)
               | None => None
               end in
  update_value call peers m (Some e) now clock =
    (fresh,
     {| _value := fresh;
        _config := _config m; _is_active := _is_active m; _start_time := _start_time m;
        _last_update := _last_update m; _linked_metrics := _linked_metrics m;
        _scenario_state := snd (fst called) |},
     snd called)
  /\ (forall x,
        (x < lo -> clamped x = lo)
        /\ (lo <= x -> hi < x -> clamped x = hi)
        /\ (lo <= x -> x <= hi -> clamped x = x)
        /\ exists k : Z,
             round (clamped x) 2 == inject_Z k / 100
             /\ clamped x - (1 # 200) <= round (clamped x) 2
             /\ round (clamped x) 2 <= clamped x + (1 # 200)).
Proof.
  intros lo hi called clamped fresh. split.
  - unfold update_value. rewrite compute_value_spec.
    assert (Hcalled : _update_value_by_scenario call peers m (Some e) clock = called).
    { subst called. unfold _update_value_by_scenario.
      destruct (scenario (_config m)); [|reflexivity].
      destruct (returned (call f _ _)); reflexivity. }
    rewrite Hcalled.
    assert (Hfresh : checked_and_cut (_config m) (fst (fst called)) = fresh).
    { subst fresh. unfold checked_and_cut. destruct (fst (fst called)); reflexivity. }
    rewrite Hfresh. reflexivity.
  - intros x. subst clamped. cbv beta. split; [|split; [|split]].
    + intros Hlt. apply Qltb_lt in Hlt. rewrite Hlt. reflexivity.
    + intros Hge Hgt. apply Qltb_ge in Hge. apply Qltb_lt in Hgt. rewrite Hge, Hgt.
      reflexivity.
    + intros Hge Hle. apply Qltb_ge in Hge. apply Qltb_ge in Hle. rewrite Hge, Hle.
      reflexivity.
    + apply round_two_places.
Qed.

End MetricProperties.

(** C1, as stated, fails: with [value_range = (0.0625, 1.0)] the scenario's
    value 0.0 is raised to 0.0625 by the range check and then cut to 0.06,
    which is below the range. *)
Lemma update_value_below_range :
  fst (Metrics.value_range Examples.narrow_config)
    <= snd (Metrics.value_range Examples.narrow_config)
  /\ fst (fst (Metrics.update_value Examples.library ∅ Examples.narrow_metric None 2000
                                    (Examples.clock_at 2000)))
     = Some (round (1 # 16) 2)
  /\ round (1 # 16) 2 == 6 # 100
  /\ round (1 # 16) 2 < fst (Metrics.value_range Examples.narrow_config).
Proof.
  split; [|split; [|split]].
  - vm_compute. discriminate.
  - vm_compute. reflexivity.
  - vm_compute. reflexivity.
  - vm_compute. reflexivity.
Qed.

Lemma update_value_range_witness :
  let m := Examples.narrow_metric in
  let r := Metrics.update_value Examples.library ∅ m None 2000 (Examples.clock_at 2000) in
  let v := round (1 # 16) 2 in
  fst (Metrics.value_range (Metrics._config m)) <= snd (Metrics.value_range (Metrics._config m))
  /\ r = (Some v, snd (fst r), snd r)
  /\ ((exists c,
          fst (Metrics.value_range (Metrics._config m)) <= c
          /\ c <= snd (Metrics.value_range (Metrics._config m))
          /\ v = round c 2
          /\ Metrics._value (snd (fst r)) = Some v
          /\ round (fst (Metrics.value_range (Metrics._config m))) 2 <= v
          /\ v <= round (snd (Metrics.value_range (Metrics._config m))) 2
          /\ (forall k1 k2 : Z,
                fst (Metrics.value_range (Metrics._config m)) == inject_Z k1 / 100 ->
                snd (Metrics.value_range (Metrics._config m)) == inject_Z k2 / 100 ->
                fst (Metrics.value_range (Metrics._config m)) <= v
                /\ v <= snd (Metrics.value_range (Metrics._config m))))
      \/ (@None Events.Event = None
          /\ 2000 - Metrics._last_update m < Metrics.update_interval (Metrics._config m)
          /\ Metrics._value m = Some v /\ snd (fst r) = m)).
Proof.
  intros m r v.
  assert (Hr : fst (Metrics.value_range (Metrics._config m))
               <= snd (Metrics.value_range (Metrics._config m)))
    by (vm_compute; discriminate).
  assert (Hrun : r = (Some v, snd (fst r), snd r)) by reflexivity.
  split; [exact Hr | split; [exact Hrun |]].
  exact (update_value_range Examples.library ∅ m None 2000 (Examples.clock_at 2000)
                            v (snd (fst r)) (snd r) Hr Hrun).
Defined.

Lemma update_value_interval_witness :
  let m := Metrics.with_last_update Examples.narrow_metric 1990 in
  Metrics._start_time m <= 2000
  /\ Metrics.update_value Examples.library ∅ m None 1995 (Examples.clock_at 1995)
     = (Metrics._value m, m, [])
  /\ Metrics._last_update
       (snd (fst (Metrics.update_value Examples.library ∅ m None 2000 (Examples.clock_at 2000))))
     = 2000.
Proof.
  intros m.
  assert (Hstart : Metrics._start_time m <= 2000) by (vm_compute; discriminate).
  assert (Hstart' : Metrics._start_time m <= 1995) by (vm_compute; discriminate).
  split; [exact Hstart | split].
  - apply (update_value_interval Examples.library ∅ m 1995 (Examples.clock_at 1995) Hstart' I).
    vm_compute. reflexivity.
  - destruct (update_value_interval Examples.library ∅ m 2000 (Examples.clock_at 2000) Hstart I)
      as (_ & Hfresh & _).
    rewrite Hfresh; [reflexivity | vm_compute; discriminate].
Defined.

(* ===================================================================== *)
(** * Properties of the utilities: [calc_percent_usage] *)
(* ===================================================================== *)

Section PercentUsage.
Import Metrics.
Import Utils.

(** Python's [max(lo, min(hi, v))] is the clamp of [v] into [[lo, hi]]. *)
Lemma py_clamp_spec (lo hi v : Q) :
  lo <= hi ->
  (v < lo /\ py_max lo (py_min hi v) == lo)
  \/ (hi < v /\ py_max lo (py_min hi v) == hi)
  \/ (lo <= v /\ v <= hi /\ py_max lo (py_min hi v) == v).
Proof.
  intros Hr. unfold py_max, py_min.
  destruct (Qltb v hi) eqn:E1; [apply Qltb_lt in E1 | apply Qltb_ge in E1].
  - destruct (Qltb lo v) eqn:E2; [apply Qltb_lt in E2 | apply Qltb_ge in E2].
    + right. right. split; [lra | split; [lra | reflexivity]].
    + destruct (Qlt_le_dec v lo) as [Hlt | Hge].
      * left. split; [exact Hlt | reflexivity].
      * right. right. split; [lra | split; lra].
  - destruct (Qltb lo hi) eqn:E2; [apply Qltb_lt in E2 | apply Qltb_ge in E2].
    + destruct (Qlt_le_dec hi v) as [Hlt | Hge].
      * right. left. split; [exact Hlt | reflexivity].
      * right. right. split; [lra | split; lra].
    + destruct (Qlt_le_dec hi v) as [Hlt | Hge].
      * right. left. split; [exact Hlt | lra].
      * right. right. split; [lra | split; lra].
Qed.

Lemma py_clamp_Qminmax (lo hi v : Q) :
  lo <= hi -> py_max lo (py_min hi v) == Qmax lo (Qmin hi v).
Proof.
  intros Hr.
  destruct (Q.min_spec hi v) as [[Hm1 Hm2] | [Hm1 Hm2]];
    destruct (Q.max_spec lo (Qmin hi v)) as [[Hx1 Hx2] | [Hx1 Hx2]];
    rewrite Hx2; rewrite ?Hm2 in *;
    destruct (py_clamp_spec lo hi v Hr) as [[H1 H2] | [[H1 H2] | (H1 & H2 & H3)]];
    rewrite ?H2, ?H3; lra.
Qed.

(** C9.  [calc_percent_usage] returns nil for a nil value; otherwise it
    raises when [min >= max]; otherwise it returns
    [((clamped - min) / (max - min)) * 100] for the value clamped into
    [[min, max]], which is 0 below the range and 100 above it, and which is
    the result for the clamped value itself. *)
Theorem calc_percent_usage_clamps (context : MetricContext) :
  let lo := fst (value_range (data context)) in
  let hi := snd (value_range (data context)) in
  (value context = None -> calc_percent_usage context = Ok None)
  /\ (forall v, value context = Some v -> hi <= lo ->
        is_raise (calc_percent_usage context) = true)
  /\ (forall v, value context = Some v -> lo < hi ->
        exists r,
          calc_percent_usage context = Ok (Some r)
          /\ r == ((Qmax lo (Qmin hi v) - lo) / (hi - lo)) * 100
          /\ (v < lo -> r == 0)
          /\ (hi < v -> r == 100)
          /\ exists r',
               calc_percent_usage (context_with_value context (Some (Qmax lo (Qmin hi v))))
               = Ok (Some r')
               /\ r' == r).
Proof.
  intros lo hi. subst lo hi. unfold calc_percent_usage.
  destruct (value_range (data context)) as [lo hi] eqn:Er. simpl fst. simpl snd.
  split; [|split].
  - intros ->. reflexivity.
  - intros v -> Hr. apply Qleb_le in Hr. rewrite Hr. reflexivity.
  - intros v -> Hr.
    assert (Hle : lo <= hi) by lra.
    assert (E : Qleb hi lo = false) by (apply Qleb_gt; exact Hr).
    rewrite E.
    assert (Hd : ~ hi - lo == 0) by lra.
    eexists. split; [reflexivity|].
    assert (Hformula : (py_max lo (py_min hi v) - lo) / (hi - lo) * 100
                       == (Qmax lo (Qmin hi v) - lo) / (hi - lo) * 100).
    { rewrite (py_clamp_Qminmax lo hi v Hle). reflexivity. }
    split; [exact Hformula | split; [|split]].
    + intros Hv.
      destruct (py_clamp_spec lo hi v Hle) as [[H1 H2] | [[H1 H2] | (H1 & H2 & H3)]];
        try lra.
      rewrite H2. field. exact Hd.
    + intros Hv.
      destruct (py_clamp_spec lo hi v Hle) as [[H1 H2] | [[H1 H2] | (H1 & H2 & H3)]];
        try lra.
      rewrite H2. field. exact Hd.
    + simpl. rewrite Er, E. eexists. split; [reflexivity|].
      rewrite Hformula.
      set (c := Qmax lo (Qmin hi v)).
      assert (Hc : lo <= c /\ c <= hi).
      { subst c. split.
        - apply Q.le_max_l.
        - apply Q.max_lub; [exact Hle | apply Q.le_min_l]. }
      destruct (py_clamp_spec lo hi c Hle) as [[H1 H2] | [[H1 H2] | (H1 & H2 & H3)]];
        try lra.
      rewrite H3. reflexivity.
Qed.

End PercentUsage.

Lemma calc_percent_usage_clamps_witness :
  Metrics.value (Examples.memory_context (Some 20) ∅) = Some 20
  /\ fst (Metrics.value_range Examples.memory_config)
     < snd (Metrics.value_range Examples.memory_config)
  /\ exists r, Utils.calc_percent_usage (Examples.memory_context (Some 20) ∅) = Ok (Some r)
               /\ r == 100.
Proof.
  assert (Hv : Metrics.value (Examples.memory_context (Some 20) ∅) = Some 20) by reflexivity.
  assert (Hr : fst (Metrics.value_range Examples.memory_config)
               < snd (Metrics.value_range Examples.memory_config))
    by (vm_compute; reflexivity).
  split; [exact Hv | split; [exact Hr |]].
  destruct (calc_percent_usage_clamps (Examples.memory_context (Some 20) ∅))
    as (_ & _ & H).
  destruct (H 20 Hv Hr) as (r & Hcall & _ & _ & Habove & _).
  exists r. split; [exact Hcall | apply Habove; vm_compute; reflexivity].
Defined.

(* ===================================================================== *)
(** * Properties of the scenarios: [update_by_trend] *)
(* ===================================================================== *)

Section Trend.
Import Storage.
Import Metrics.
Import Scenarios.

(** A draw of [random.uniform(a, b)] lies in [[a, b]]. *)
Lemma uniform_bounds (a b u : Q) :
  a <= b -> 0 <= u -> u < 1 -> a <= uniform a b u /\ uniform a b u <= b.
Proof.
  intros Hab Hu0 Hu1. unfold uniform.
  assert (H0 : 0 <= (b - a) * u) by (apply Qmult_le_0_compat; lra).
  assert (H1 : (b - a) * u <= (b - a) * 1).
  { rewrite !(Qmult_comm (b - a)). apply Qmult_le_compat_r; lra. }
  split; lra.
Qed.

(** C7.  For a valid step range [(lo, hi)] and an accumulated value [a]
    read from the storage (by default the context's value): ['up'] returns
    [a] plus a draw of [[lo, hi]] and stores the sum; ['down'] returns [a]
    plus a draw of [[-hi, -lo]] and stores the sum; ['hold'] returns [a]
    plus a draw of [[-lo, hi]] and leaves the storage as it was; any other
    trend raises and leaves the storage as it was. *)
Theorem update_by_trend_effects (context : MetricContext) (trend : string) (lo hi u : Q) :
  0 <= lo -> lo <= hi -> 0 <= u -> u < 1 ->
  let out := update_by_trend context trend (lo, hi) u in
  (forall a,
     as_num (get "accumulated_value" (of_opt (value context)) (storage context)) = Some a ->
     (trend = "up" ->
      exists d, lo <= d /\ d <= hi
                /\ returned out = Ok (Some (a + d))
                /\ stored out = set "accumulated_value" (VNum (a + d)) (storage context))
     /\ (trend = "down" ->
         exists d, - hi <= d /\ d <= - lo
                   /\ returned out = Ok (Some (a + d))
                   /\ stored out = set "accumulated_value" (VNum (a + d)) (storage context))
     /\ (trend = "hold" ->
         exists d, - lo <= d /\ d <= hi
                   /\ returned out = Ok (Some (a + d))
                   /\ stored out = storage context
                   /\ stored out !! "accumulated_value" = storage context !! "accumulated_value"))
  /\ (trend <> "up" -> trend <> "down" -> trend <> "hold" ->
      is_raise (returned out) = true /\ stored out = storage context).
Proof.
  intros Hlo Hhi Hu0 Hu1 out. subst out. unfold update_by_trend.
  assert (V1 : Qltb lo 0 = false) by (apply Qltb_ge; exact Hlo).
  assert (V2 : Qltb hi 0 = false) by (apply Qltb_ge; lra).
  assert (V3 : Qltb hi lo = false) by (apply Qltb_ge; exact Hhi).
  rewrite V1, V2, V3. simpl orb. simpl fst. simpl snd.
  split.
  - intros a Ha. rewrite Ha. split; [|split].
    + intros ->. simpl.
      destruct (uniform_bounds lo hi u Hhi Hu0 Hu1) as [H1 H2].
      exists (uniform lo hi u). auto.
    + intros ->. simpl.
      destruct (uniform_bounds (- hi) (- lo) u ltac:(lra) Hu0 Hu1) as [H1 H2].
      exists (uniform (- hi) (- lo) u). auto.
    + intros ->. simpl.
      destruct (uniform_bounds (- lo) hi u ltac:(lra) Hu0 Hu1) as [H1 H2].
      exists (uniform (- lo) hi u). auto.
  - intros Hup Hdown Hhold.
    apply String.eqb_neq in Hup, Hdown, Hhold. rewrite Hup, Hdown, Hhold.
    split; reflexivity.
Qed.

End Trend.

Lemma update_by_trend_effects_witness :
  let context := Examples.memory_context (Some 5) ∅ in
  let out := Scenarios.update_by_trend context "up" (1, 10) (1 # 2) in
  exists d, 1 <= d /\ d <= 10
            /\ Metrics.returned out = Ok (Some (5 + d))
            /\ Metrics.stored out
               = Storage.set "accumulated_value" (VNum (5 + d)) (Metrics.storage context).
Proof.
  intros context out.
  assert (H0 : 0 <= 1) by (vm_compute; discriminate).
  assert (H1 : 1 <= 10) by (vm_compute; discriminate).
  assert (H2 : 0 <= 1 # 2) by (vm_compute; discriminate).
  assert (H3 : 1 # 2 < 1) by (vm_compute; reflexivity).
  destruct (update_by_trend_effects context "up" 1 10 (1 # 2) H0 H1 H2 H3) as [H _].
  destruct (H 5 eq_refl) as (Hup & _ & _).
  exact (Hup eq_refl).
Defined.

(* ===================================================================== *)
(** * Properties of the scenarios: [switch_scenario_by_events] *)
(* ===================================================================== *)

Section SwitchProperties.
Import Storage.
Import Metrics.
Import Scenarios.
Variable call : Callables.
Variable hasattr_Scenarios : string -> bool.

(** What the call does when the event matches an entry whose scenario
    resolves to [f]: the parameters, the timestamp and the duration are
    stored before [f] is called; [last_event_scenario] is stored after [f]
    has returned, and not when [f] raised. *)
Lemma switch_on_matching_event (context : MetricContext)
    (events_config : gmap string EventConfig) (default_scenario : option string)
    (default_scenario_data : option kwargs) (current_time u : Q)
    (ev : Events.Event) (entry : EventConfig) (scenario_name : pyval) (f : func) :
  event context = Some ev ->
  events_config !! Events.name ev = Some entry ->
  scenario entry = Some scenario_name ->
  resolve hasattr_Scenarios scenario_name = Some f ->
  let data := default [] (scenario_data entry) in
  let before :=
    set "last_event_duration" (of_opt (duration entry))
      (set "last_event_timestamp" (VNum current_time)
         (set "last_event_params" (VDict data) (storage context))) in
  let inner := call f (with_storage context before) data in
  let out := switch_scenario_by_events call hasattr_Scenarios context events_config
               default_scenario default_scenario_data current_time u in
  match returned inner with
  | Ok (Some r) =>
      returned out = Ok (Some r)
      /\ stored out = set "last_event_scenario" (VFunc f) (stored inner)
  | Ok None =>
      returned out = Ok (Some (random_in_metric_range context u))
      /\ stored out = set "last_event_scenario" (VFunc f) (stored inner)
  | Raise _ =>
      returned out = Ok (Some (random_in_metric_range context u))
      /\ stored out = stored inner
  end.
Proof.
  intros Hev Hentry Hsc Hres data before inner out.
  subst out. unfold switch_scenario_by_events.
  rewrite Hev, Hentry, Hsc, Hres.
  fold data. fold before. fold inner.
  destruct (returned inner) as [[r|]|e]; split; reflexivity.
Qed.

End SwitchProperties.

(** C6, at the failing input: the event matches, the entry's scenario is a
    callable that raises.  The call logs, returns a uniform sample of the
    value range, and leaves [last_event_params], [last_event_timestamp] and
    [last_event_duration] stored, but no [last_event_scenario]. *)
Theorem switch_scenario_failure_leaves_partial_state :
  let out := Scenarios.switch_scenario_by_events Examples.library Examples.has_scenario
               Examples.failing_context Examples.failing_events_config None None
               1000 (1 # 2) in
  Metrics.returned out = Ok (Some (uniform (1 # 16) 1 (1 # 2)))
  /\ Metrics.logged out = [Scenarios.error_record "Error occurred while executing scenario"]
  /\ Metrics.stored out !! "last_event_params" = Some (VDict [])
  /\ Metrics.stored out !! "last_event_timestamp" = Some (VNum 1000)
  /\ Metrics.stored out !! "last_event_duration" = Some (VNum 60)
  /\ Metrics.stored out !! "last_event_scenario" = None.
Proof.
  repeat split; vm_compute; reflexivity.
Qed.

(* ===================================================================== *)
(** * Properties of the scenarios: [feature_toggle] *)
(* ===================================================================== *)

Section Toggle.
Import Storage.
Import Metrics.
Import Scenarios.
Variable context : MetricContext.
Variables start_time duration interval on_value off_value : Q.
Variable source : option string.
Hypothesis start_time_valid : 0 <= start_time.
Hypothesis duration_valid : 0 < duration.
Hypothesis interval_valid : 0 < interval.

Lemma feature_toggle_valid :
  Qltb start_time 0 || Qleb duration 0 || Qleb interval 0 = false.
Proof.
  assert (H1 : Qltb start_time 0 = false) by (apply Qltb_ge; exact start_time_valid).
  assert (H2 : Qleb duration 0 = false) by (apply Qleb_gt; exact duration_valid).
  assert (H3 : Qleb interval 0 = false) by (apply Qleb_gt; exact interval_valid).
  rewrite H1, H2, H3. reflexivity.
Qed.

Lemma bool_ne_VBool (b previous : bool) :
  bool_ne b (VBool previous) = negb (Bool.eqb b previous).
Proof. destruct b, previous; reflexivity. Qed.

(** One invocation on a storage that holds the start timestamp [t0] and the
    flag [previous]. *)
Lemma feature_toggle_step (st : StateStorage) (t0 current_time : Q) (previous : bool) :
  st !! "start_timestamp" = Some (VNum t0) ->
  get "feature_active" (VBool false) st = VBool previous ->
  (previous = true -> start_time <= current_time - t0) ->
  let state := toggle_state start_time duration interval (current_time - t0) in
  let out := feature_toggle (with_storage context st) start_time duration interval
                            on_value off_value source current_time in
  returned out = Ok (Some (if state then on_value else off_value))
  /\ emitted out = (if Bool.eqb state previous then []
                    else [feature_event (if state then "feature_on" else "feature_off")
                                        current_time source])
  /\ stored out !! "start_timestamp" = Some (VNum t0)
  /\ get "feature_active" (VBool false) (stored out) = VBool state
  /\ (state = true -> start_time <= current_time - t0).
Proof.
  intros Hts Hflag Hprev state out. subst out state.
  unfold feature_toggle, toggle_state. rewrite feature_toggle_valid.
  cbn [storage with_storage].
  assert (Hget : get "start_timestamp" VNone st = VNum t0) by (unfold get; rewrite Hts; reflexivity).
  rewrite Hget. cbn [is_none as_num]. rewrite Hget. cbn [as_num].
  destruct (Qltb (current_time - t0) start_time) eqn:Egate.
  - cbn [returned emitted stored].
    destruct previous.
    + apply Qltb_lt in Egate. specialize (Hprev eq_refl). exfalso.
      apply (Qlt_not_le _ _ Egate Hprev).
    + repeat split; try assumption; try reflexivity; try discriminate.
  - apply Qltb_ge in Egate. rewrite Hflag, bool_ne_VBool.
    destruct (Bool.eqb _ previous) eqn:Eeq; cbn [negb returned emitted stored].
    + apply Bool.eqb_prop in Eeq.
      split; [reflexivity | split; [reflexivity | split; [exact Hts | split]]].
      * rewrite Eeq. exact Hflag.
      * intros _. exact Egate.
    + unfold set. rewrite lookup_insert_ne by discriminate.
      unfold get. rewrite lookup_insert_eq.
      split; [reflexivity | split; [reflexivity | split; [exact Hts | split]]].
      * reflexivity.
      * intros _. exact Egate.
Qed.

Lemma feature_toggle_calls_expected (t0 : Q) (times : list Q) :
  forall (st : StateStorage) (previous : bool) (last : Q),
  st !! "start_timestamp" = Some (VNum t0) ->
  get "feature_active" (VBool false) st = VBool previous ->
  (previous = true -> start_time <= last - t0) ->
  StronglySorted Qle (last :: times) ->
  feature_toggle_calls (with_storage context st) start_time duration interval
                       on_value off_value source times
  = toggle_expected start_time duration interval on_value off_value source t0 previous times.
Proof.
  induction times as [|t rest IH]; intros st previous last Hts Hflag Hprev Hsorted.
  - reflexivity.
  - assert (Hlast : last <= t).
    { apply StronglySorted_inv in Hsorted. destruct Hsorted as [_ Hall].
      apply Forall_inv in Hall. exact Hall. }
    assert (Hprev' : previous = true -> start_time <= t - t0).
    { intros Hp. specialize (Hprev Hp). lra. }
    destruct (feature_toggle_step st t0 t previous Hts Hflag Hprev')
      as (Hret & Hem & Hts' & Hflag' & Hstate).
    cbn [feature_toggle_calls toggle_expected]. rewrite Hret, Hem. f_equal.
    apply (IH _ _ t Hts' Hflag' Hstate).
    apply StronglySorted_inv in Hsorted. apply Hsorted.
Qed.

(** The first invocation stores its clock reading as the start timestamp,
    and otherwise behaves as on a storage that already holds it. *)
Lemma feature_toggle_first (st : StateStorage) (current_time : Q) :
  st !! "start_timestamp" = None ->
  feature_toggle (with_storage context st) start_time duration interval
                 on_value off_value source current_time
  = feature_toggle (with_storage context (set "start_timestamp" (VNum current_time) st))
                   start_time duration interval on_value off_value source current_time.
Proof.
  intros Hnone. unfold feature_toggle. rewrite feature_toggle_valid.
  cbn [storage with_storage].
  assert (H1 : get "start_timestamp" VNone st = VNone) by (unfold get; rewrite Hnone; reflexivity).
  assert (H2 : get "start_timestamp" VNone (set "start_timestamp" (VNum current_time) st)
               = VNum current_time).
  { unfold get, set. rewrite lookup_insert_eq. reflexivity. }
  rewrite H1, H2. cbn [is_none]. reflexivity.
Qed.

(** C5.  For valid parameters and a storage that holds neither key yet,
    successive invocations at non-decreasing clock readings, the first at
    [t0]: each returns [off_value] while [elapsed < start_time] and then
    [on_value] iff [(elapsed - start_time) mod (duration + interval) <
    duration], where [elapsed = now - t0]; and each emits exactly one
    [feature_on] or [feature_off] when this state differs from the state
    at the previous invocation (off before the first), and nothing when it
    does not. *)
Theorem feature_toggle_sequence (t0 : Q) (times : list Q) :
  storage context !! "start_timestamp" = None ->
  storage context !! "feature_active" = None ->
  StronglySorted Qle (t0 :: times) ->
  feature_toggle_calls context start_time duration interval on_value off_value source
                       (t0 :: times)
  = toggle_expected start_time duration interval on_value off_value source t0 false
                    (t0 :: times).
Proof.
  intros Hts Hflag Hsorted.
  assert (Hctx : context = with_storage context (storage context))
    by (destruct context; reflexivity).
  rewrite Hctx at 1.
  change (feature_toggle_calls (with_storage context (storage context)) start_time duration
            interval on_value off_value source (t0 :: times))
    with ((returned (feature_toggle (with_storage context (storage context)) start_time duration
                       interval on_value off_value source t0),
           emitted (feature_toggle (with_storage context (storage context)) start_time duration
                      interval on_value off_value source t0))
          :: feature_toggle_calls
               (with_storage (with_storage context (storage context))
                  (stored (feature_toggle (with_storage context (storage context)) start_time
                             duration interval on_value off_value source t0)))
               start_time duration interval on_value off_value source times).
  rewrite (feature_toggle_first _ t0 Hts).
  change (with_storage (with_storage context (storage context)) ?s) with (with_storage context s).
  apply (feature_toggle_calls_expected t0 (t0 :: times)
           (set "start_timestamp" (VNum t0) (storage context)) false t0).
  - unfold set. apply lookup_insert_eq.
  - unfold get, set. rewrite lookup_insert_ne by discriminate. rewrite Hflag. reflexivity.
  - discriminate.
  - constructor; [exact Hsorted|].
    constructor; [apply Qle_refl|].
    apply StronglySorted_inv in Hsorted. apply Hsorted.
Qed.

End Toggle.

(** The run of the specification's example: [start_time=10, duration=20,
    interval=10], first invocation at 1000. *)
Lemma feature_toggle_sequence_witness :
  let context := Examples.memory_context (Some 0) ∅ in
  let times := [1005; 1015; 1025; 1035; 1045] in
  (0 <= 10 /\ 0 < 20 /\ 0 < 10)
  /\ StronglySorted Qle (1000 :: times)
  /\ Scenarios.feature_toggle_calls context 10 20 10 1 0 None (1000 :: times)
     = Scenarios.toggle_expected 10 20 10 1 0 None 1000 false (1000 :: times)
  /\ map fst (Scenarios.toggle_expected 10 20 10 1 0 None 1000 false (1000 :: times))
     = map (fun v => Ok (Some v)) [0; 0; 1; 1; 0; 1]
  /\ map (fun r => map Events.name (snd r))
         (Scenarios.toggle_expected 10 20 10 1 0 None 1000 false (1000 :: times))
     = [[]; []; ["feature_on"]; []; ["feature_off"]; ["feature_on"]].
Proof.
  intros context times.
  assert (H1 : 0 <= 10) by (vm_compute; discriminate).
  assert (H2 : 0 < 20) by (vm_compute; reflexivity).
  assert (H3 : 0 < 10) by (vm_compute; reflexivity).
  assert (Hs : StronglySorted Qle (1000 :: times)).
  { subst times.
    repeat first [ apply SSorted_nil | apply SSorted_cons | apply List.Forall_nil
                 | apply List.Forall_cons | (vm_compute; discriminate) ]. }
  split; [auto | split; [exact Hs | split; [| split]]].
  - exact (feature_toggle_sequence context 10 20 10 1 0 None H1 H2 H3 1000 times
             eq_refl eq_refl Hs).
  - vm_compute. reflexivity.
  - vm_compute. reflexivity.
Defined.

(* ===================================================================== *)
(** * Properties of the mixer: [update_metrics_by_host] *)
(* ===================================================================== *)

Section MixerProperties.
Import Metrics.
Import Hosts.
Import Mixer.
Variable Prom : Type.
Variable prom_new : MetricType -> string -> string -> list string -> option Prom.
Variable prom_update : Prom -> MetricType -> gmap string string -> Q -> bool.

Lemma existing_hosts_spec (of_metric : gmap string (cell Prom)) (h : string) :
  h ∈ existing_hosts Prom of_metric <->
  is_Some (of_metric !! h) /\ h <> "_prom_metric" /\ h <> "_metric_type".
Proof.
  unfold existing_hosts. rewrite list_elem_of_filter.
  rewrite andb_True, !negb_True, !Is_true_true, !String.eqb_eq.
  change (map fst (map_to_list of_metric)) with ((map_to_list of_metric).*1).
  rewrite list_elem_of_fmap. split.
  - intros [[H1 H2] [[k c] [-> Hin]]]. apply elem_of_map_to_list in Hin.
    cbn [fst] in *. repeat split; eauto.
  - intros [[c Hc] [H1 H2]]. split; [split; assumption|].
    exists (h, c). split; [reflexivity|]. apply elem_of_map_to_list. exact Hc.
Qed.

Lemma duplicate_warning_inj (metric h h' host : string) :
  duplicate_warning metric h host = duplicate_warning metric h' host -> h = h'.
Proof. unfold duplicate_warning. intros [= H]. exact H. Qed.

Lemma check_duplicates_spec (metric host : string) (labels : gmap string string)
    (of_metric : gmap string (cell Prom)) (existing : list string) :
  (forall h, h ∈ existing -> h <> host ->
             exists v l t, of_metric !! h = Some (HostCell Prom v l t)) ->
  exists warnings,
    check_duplicates Prom metric host labels of_metric existing = (warnings, None)
    /\ (forall r, r ∈ warnings <->
                  exists h v t, r = duplicate_warning metric h host
                                /\ h ∈ existing /\ h <> host
                                /\ of_metric !! h = Some (HostCell Prom v labels t)).
Proof.
  induction existing as [|h0 rest IH]; intros Hkept; cbn [check_duplicates].
  - exists []. split; [reflexivity|]. intros r. split.
    + intros H. inversion H.
    + intros (h & v & t & _ & H & _). inversion H.
  - destruct IH as (warnings & Hrest & Hspec).
    { intros h Hin. apply Hkept. apply list_elem_of_further. exact Hin. }
    destruct (String.eqb_spec h0 host) as [-> | Hne].
    + exists warnings. split; [exact Hrest|]. intros r. rewrite Hspec. split.
      * intros (h & v & t & Hr & Hin & Hh & Hc). exists h, v, t.
        repeat split; try assumption. apply list_elem_of_further. exact Hin.
      * intros (h & v & t & Hr & Hin & Hh & Hc). exists h, v, t.
        repeat split; try assumption.
        apply elem_of_cons in Hin. destruct Hin as [-> | Hin]; [contradiction | exact Hin].
    + destruct (Hkept h0 (list_elem_of_here _ _) Hne) as (v0 & l0 & t0 & Hc0).
      rewrite Hc0, Hrest.
      destruct (bool_decide (l0 = labels)) eqn:Hl.
      * apply bool_decide_eq_true in Hl. subst l0.
        exists (duplicate_warning metric h0 host :: warnings). split; [reflexivity|].
        intros r. rewrite elem_of_cons, Hspec. split.
        -- intros [-> | (h & v & t & Hr & Hin & Hh & Hc)].
           ++ exists h0, v0, t0. repeat split; try assumption. apply list_elem_of_here.
           ++ exists h, v, t. repeat split; try assumption.
              apply list_elem_of_further. exact Hin.
        -- intros (h & v & t & Hr & Hin & Hh & Hc).
           apply elem_of_cons in Hin. destruct Hin as [-> | Hin].
           ++ left. exact Hr.
           ++ right. exists h, v, t. auto.
      * apply bool_decide_eq_false in Hl.
        exists warnings. split; [reflexivity|]. intros r. rewrite Hspec. split.
        -- intros (h & v & t & Hr & Hin & Hh & Hc). exists h, v, t.
           repeat split; try assumption. apply list_elem_of_further. exact Hin.
        -- intros (h & v & t & Hr & Hin & Hh & Hc).
           apply elem_of_cons in Hin. destruct Hin as [-> | Hin].
           ++ rewrite Hc0 in Hc. injection Hc as _ Hlab _. contradiction.
           ++ exists h, v, t. auto.
Qed.

(** What [update_metrics_by_host] does with one entry of a batch, for a
    metric of the job whose dict holds host data under every key but the
    two reserved ones: the entry is stored under the host's name, and a
    duplicate warning names exactly the other unreserved keys that hold the
    identical labels. *)
Lemma update_entry_duplicates (job host : string) (labels : gmap string string)
    (metric : string) (value now : Q)
    (merged : gmap string (gmap string (gmap string (cell Prom))))
    (of_job : gmap string (gmap string (cell Prom))) (of_metric : gmap string (cell Prom)) :
  merged !! job = Some of_job -> of_job !! metric = Some of_metric ->
  holds_host_data Prom of_metric ->
  exists merged' log e,
    update_entry Prom prom_update job host labels metric value now merged = (merged', log, e)
    /\ (exists of_job' of_metric',
          merged' !! job = Some of_job' /\ of_job' !! metric = Some of_metric'
          /\ of_metric' !! host = Some (HostCell Prom value labels now))
    /\ (forall h,
          duplicate_warning metric h host ∈ log <->
          h <> host /\ h <> "_prom_metric" /\ h <> "_metric_type"
          /\ exists v t, of_metric !! h = Some (HostCell Prom v labels t))
    /\ (forall r, r ∈ log -> log_level r = WARNING ->
                  exists h, r = duplicate_warning metric h host).
Proof.
  intros Hjob Hmetric Hkept. unfold update_entry. rewrite Hjob, Hmetric.
  destruct (check_duplicates_spec metric host labels of_metric (existing_hosts Prom of_metric))
    as (warnings & Hcheck & Hspec).
  { intros h Hin _. apply existing_hosts_spec in Hin. destruct Hin as ([c Hc] & H1 & H2).
    destruct (Hkept h c Hc H1 H2) as (v & l & t & ->). eauto. }
  rewrite Hcheck.
  destruct (update_prometheus Prom prom_update metric host labels value
              (<[host := HostCell Prom value labels now]> of_metric)) as [errors e] eqn:Hprom.
  assert (Herrors : forall r, r ∈ errors -> r = update_failed_error metric host).
  { unfold update_prometheus in Hprom.
    repeat match type of Hprom with
           | context [match ?x with _ => _ end] => destruct x
           end; injection Hprom as <- <-; intros r Hr;
      solve [inversion Hr | apply list_elem_of_singleton in Hr; exact Hr]. }
  eexists _, _, _. split; [reflexivity | split; [|split]].
  - eexists _, _. rewrite !lookup_insert_eq. auto.
  - intros h. rewrite elem_of_app. split.
    + intros [Hw | He].
      * apply Hspec in Hw. destruct Hw as (h' & v & t & Hr & Hin & Hh & Hc).
        apply duplicate_warning_inj in Hr. subst h'.
        apply existing_hosts_spec in Hin. destruct Hin as (_ & H1 & H2). eauto 10.
      * apply Herrors in He. discriminate.
    + intros (Hh & H1 & H2 & v & t & Hc). left. apply Hspec.
      exists h, v, t. repeat split; try assumption.
      apply existing_hosts_spec. eauto.
  - intros r Hr Hlevel. apply elem_of_app in Hr. destruct Hr as [Hw | He].
    + apply Hspec in Hw. destruct Hw as (h & _ & _ & -> & _). eauto.
    + apply Herrors in He. subst r. discriminate.
Qed.

End MixerProperties.

(** C4, at the failing input: two hosts of one job with the same label
    map, the first named ['_prom_metric'].  Its batch [{cpu: 42.0}] is
    stored under its name, which is the key of the Prometheus object; when
    the second host delivers [{cpu: 43.0}] with the identical labels, the
    entry is stored but no duplicate warning is logged, the only record
    being the error of the failed Prometheus update.  With the first host
    named ['db'] instead, the same delivery logs the duplicate warning. *)
Theorem duplicate_of_reserved_host_name_not_warned :
  Hosts._labels (Hosts.init (Examples.host_named "_prom_metric") true 1000
                            "stress01.lgs01.app.stage" "192.168.1.10")
  = Examples.shared_labels
  /\ Hosts._labels (Hosts.init (Examples.host_named "web") true 1000
                               "stress01.lgs01.app.stage" "192.168.1.10")
     = Examples.shared_labels
  /\ (exists m1,
      Examples.mixer_after_first "_prom_metric" "web" = Some m1
      /\ Examples.cell_of m1 "job" "cpu" "_prom_metric"
         = Some (Mixer.HostCell unit 42 Examples.shared_labels 1010))
  /\ (exists m2,
        Examples.second_delivery "_prom_metric" "web"
        = Some (m2, [Mixer.update_failed_error "cpu" "web"], None)
        /\ Examples.cell_of m2 "job" "cpu" "web"
           = Some (Mixer.HostCell unit 43 Examples.shared_labels 1020))
  /\ (exists m2,
        Examples.second_delivery "db" "web"
        = Some (m2, [Mixer.duplicate_warning "cpu" "db" "web"], None)
        /\ Examples.cell_of m2 "job" "cpu" "web"
           = Some (Mixer.HostCell unit 43 Examples.shared_labels 1020)).
Proof.
  split; [|split; [|split; [|split]]].
  - vm_compute. reflexivity.
  - vm_compute. reflexivity.
  - eexists. split; [reflexivity|]. vm_compute. reflexivity.
  - eexists. split; [vm_compute; reflexivity|]. vm_compute. reflexivity.
  - eexists. split; [vm_compute; reflexivity|]. vm_compute. reflexivity.
Qed.

(* ===================================================================== *)
(** * Properties of the emulated host: counters *)
(* ===================================================================== *)

Section HostProperties.
Import Storage.
Import Metrics.
Import Hosts.
Variable call : Callables.

Lemma dict_get_set_eq (k : string) (v : Q) (d : list (string * Q)) :
  dict_get k (dict_set k v d) = Some v.
Proof.
  induction d as [|[k' v'] rest IH]; cbn [dict_set dict_get].
  - rewrite String.eqb_refl. reflexivity.
  - destruct (String.eqb k k') eqn:E; cbn [dict_get]; rewrite ?String.eqb_refl, ?E; auto.
Qed.

Lemma dict_get_set_ne (k k0 : string) (v : Q) (d : list (string * Q)) :
  k <> k0 -> dict_get k (dict_set k0 v d) = dict_get k d.
Proof.
  intros Hne. apply String.eqb_neq in Hne.
  induction d as [|[k' v'] rest IH]; cbn [dict_set dict_get].
  - rewrite Hne. reflexivity.
  - destruct (String.eqb k0 k') eqn:E; cbn [dict_get].
    + apply String.eqb_eq in E. subst k'. rewrite Hne. reflexivity.
    + rewrite IH. reflexivity.
Qed.

(** [update_value] never touches the config. *)
Lemma update_value_config (peers : gmap string EmulatedMetric) (m : EmulatedMetric)
    (event : option Events.Event) (now : Q) (clock : nat -> Q) :
  Metrics._config (snd (fst (update_value call peers m event now clock))) = Metrics._config m.
Proof.
  unfold update_value. destruct event as [e|].
  - rewrite compute_value_spec. reflexivity.
  - repeat match goal with |- context [if ?b then _ else _] => destruct b end;
      try reflexivity.
    rewrite compute_value_spec. reflexivity.
Qed.

Section Frame.
Hypothesis frame : leaves_counter_total call.

Lemma scenario_leaves_counter_total (peers : gmap string EmulatedMetric) (m : EmulatedMetric)
    (event : option Events.Event) (clock : nat -> Q) :
  snd (fst (_update_value_by_scenario call peers m event clock)) !! "counter_total"
  = _scenario_state m !! "counter_total".
Proof.
  unfold _update_value_by_scenario. destruct (scenario (Metrics._config m)); [|reflexivity].
  destruct (returned (call f _ _)); cbn [fst snd]; apply frame.
Qed.

(** Under the discipline of storage keys, [update_value] leaves the
    counter's total as it was. *)
Lemma update_value_counter_total (peers : gmap string EmulatedMetric) (m : EmulatedMetric)
    (event : option Events.Event) (now : Q) (clock : nat -> Q) :
  counter_total_of (snd (fst (update_value call peers m event now clock)))
  = counter_total_of m.
Proof.
  unfold counter_total_of, get.
  assert (H : _scenario_state (snd (fst (update_value call peers m event now clock)))
              !! "counter_total" = _scenario_state m !! "counter_total").
  { unfold update_value. destruct event as [e|].
    - rewrite compute_value_spec. cbn [fst snd _scenario_state].
      apply scenario_leaves_counter_total.
    - repeat match goal with |- context [if ?b then _ else _] => destruct b end;
        try reflexivity.
      rewrite compute_value_spec. cbn [fst snd _scenario_state].
      apply (scenario_leaves_counter_total peers (with_last_update m now)). }
  rewrite H. reflexivity.
Qed.

Variable key : string.

Local Abbreviation total := (total_at key).
Local Abbreviation is_counter := (counter_at key).
Local Abbreviation pass_inv := (pass_invariant key).

Lemma keyed_insert (objs : gmap string EmulatedMetric) (k : string)
    (old new : EmulatedMetric) :
  keyed_by_name objs -> objs !! k = Some old ->
  Metrics._config new = Metrics._config old ->
  keyed_by_name (<[k := new]> objs).
Proof.
  intros Hk Hold Hcfg k' m'. rewrite lookup_insert. case_decide as E.
  - intros [= <-]. subst k'. rewrite Hcfg. apply (Hk _ _ Hold).
  - apply Hk.
Qed.

Lemma is_counter_insert (objs : gmap string EmulatedMetric) (k : string)
    (old new : EmulatedMetric) :
  is_counter objs -> objs !! k = Some old ->
  Metrics._config new = Metrics._config old ->
  is_counter (<[k := new]> objs).
Proof.
  intros Hc Hold Hcfg m'. rewrite lookup_insert. case_decide as E.
  - intros [= <-]. subst k. rewrite Hcfg. apply (Hc _ Hold).
  - apply Hc.
Qed.

Lemma total_insert (objs : gmap string EmulatedMetric) (k : string)
    (old new : EmulatedMetric) :
  objs !! k = Some old -> counter_total_of new = counter_total_of old ->
  total (<[k := new]> objs) = total objs.
Proof.
  intros Hold Ht. unfold total_at. rewrite lookup_insert. case_decide as E.
  - subst k. rewrite Hold. exact Ht.
  - reflexivity.
Qed.

(** One metric of the pass: the total of [key] and its batch entry stay as
    they are, or the total grows by an observed value and the batch entry
    is the new total. *)
Lemma update_one_step (readings : Readings) (p p' : Pass) (key0 : string) (e : option exn) :
  keyed_by_name (objects p) -> is_counter (objects p) ->
  update_one call readings p key0 = (p', e) ->
  keyed_by_name (objects p') /\ is_counter (objects p')
  /\ (exists new, observed p' = (observed p ++ new)%list)
  /\ ((total (objects p') = total (objects p)
       /\ dict_get key (metrics_data p') = dict_get key (metrics_data p))
      \/ (exists T v, total (objects p) = Some T
                      /\ total (objects p') = Some (T + v)
                      /\ dict_get key (metrics_data p') = Some (T + v)
                      /\ (key, v) ∈ observed p')).
Proof.
  intros Hkeyed Hcounter Hone. unfold update_one in Hone.
  destruct (objects p !! key0) as [metric|] eqn:Hmetric.
  2:{ injection Hone as <- <-. repeat split; try assumption.
      - exists []. rewrite app_nil_r. reflexivity.
      - left. split; reflexivity. }
  pose proof (update_value_config (objects p) metric None (fst (readings key0))
                (snd (readings key0))) as Hcfg.
  pose proof (update_value_counter_total (objects p) metric None (fst (readings key0))
                (snd (readings key0))) as Htot.
  destruct (update_value call (objects p) metric None (fst (readings key0))
              (snd (readings key0))) as [[value metric'] em].
  cbn [fst snd] in Hcfg, Htot.
  assert (Hname : Metrics.name (Metrics._config metric') = key0).
  { rewrite Hcfg. apply (Hkeyed _ _ Hmetric). }
  pose proof (keyed_insert _ _ _ _ Hkeyed Hmetric Hcfg) as Hkeyed1.
  pose proof (is_counter_insert _ _ _ _ Hcounter Hmetric Hcfg) as Hcounter1.
  pose proof (total_insert _ _ _ _ Hmetric Htot) as Htotal1.
  destruct value as [v|].
  2:{ injection Hone as <- <-. cbn [objects metrics_data observed].
      repeat split; try assumption.
      - exists []. rewrite app_nil_r. reflexivity.
      - left. split; [exact Htotal1 | reflexivity]. }
  destruct (decide (key0 = key)) as [-> | Hne].
  - (* the metric [key] itself: it is a counter *)
    assert (Htype : metric_type (Metrics._config metric') = COUNTER).
    { rewrite Hcfg. apply (Hcounter _ Hmetric). }
    rewrite Htype in Hone.
    fold (counter_total_of metric') in Hone.
    destruct (counter_total_of metric') as [current_total|] eqn:Hcur.
    + injection Hone as <- <-. cbn [objects metrics_data observed].
      assert (Hlook : (<[key := metric']> (objects p)) !! key = Some metric')
        by apply lookup_insert_eq.
      split; [|split; [|split]].
      * apply (keyed_insert _ _ metric'); [exact Hkeyed1 | exact Hlook | reflexivity].
      * apply (is_counter_insert _ _ metric'); [exact Hcounter1 | exact Hlook | reflexivity].
      * eexists. reflexivity.
      * right. exists current_total, v.
        split; [|split; [|split]].
        -- unfold total_at. rewrite Hmetric. congruence.
        -- unfold total_at. rewrite lookup_insert_eq.
           unfold counter_total_of, get, set. cbn [_scenario_state with_scenario_state].
           rewrite lookup_insert_eq. reflexivity.
        -- rewrite Hname. apply dict_get_set_eq.
        -- rewrite Hname. apply elem_of_app. right. apply list_elem_of_singleton. reflexivity.
    + injection Hone as <- <-. cbn [objects metrics_data observed].
      split; [exact Hkeyed1 | split; [exact Hcounter1 | split]].
      * eexists. reflexivity.
      * left. split; [exact Htotal1 | reflexivity].
  - (* another metric *)
    assert (Hother : forall st batch obs,
              let p2 := {| objects := <[key0 := with_scenario_state metric' st]>
                                        (<[key0 := metric']> (objects p));
                           metrics_data := batch; scheduled := (scheduled p ++ em)%list;
                           observed := obs |} in
              keyed_by_name (objects p2) /\ is_counter (objects p2)
              /\ total (objects p2) = total (objects p)).
    { intros st batch obs p2. subst p2. cbn [objects].
      assert (Hlook : (<[key0 := metric']> (objects p)) !! key0 = Some metric')
        by apply lookup_insert_eq.
      split; [|split].
      - apply (keyed_insert _ _ metric'); [exact Hkeyed1 | exact Hlook | reflexivity].
      - apply (is_counter_insert _ _ metric'); [exact Hcounter1 | exact Hlook | reflexivity].
      - unfold total_at. rewrite !lookup_insert_ne by exact Hne. reflexivity. }
    assert (Hbatch : forall x,
              dict_get key (dict_set (Metrics.name (Metrics._config metric')) x (metrics_data p))
              = dict_get key (metrics_data p)).
    { intros x. rewrite Hname. apply dict_get_set_ne. congruence. }
    destruct (metric_type (Metrics._config metric')).
    + injection Hone as <- <-. cbn [objects metrics_data observed].
      split; [exact Hkeyed1 | split; [exact Hcounter1 | split]].
      * eexists. reflexivity.
      * left. split; [exact Htotal1 | apply Hbatch].
    + destruct (as_num (get "counter_total" (VNum 0) (_scenario_state metric'))).
      * injection Hone as <- <-. cbn [objects metrics_data observed].
        destruct (Hother (set "counter_total" (VNum (q + v)) (_scenario_state metric'))
                         [] []) as (H1 & H2 & H3). cbn [objects] in H1, H2, H3.
        split; [exact H1 | split; [exact H2 | split]].
        -- eexists. reflexivity.
        -- left. split; [exact H3 | apply Hbatch].
      * injection Hone as <- <-. cbn [objects metrics_data observed].
        split; [exact Hkeyed1 | split; [exact Hcounter1 | split]].
        -- eexists. reflexivity.
        -- left. split; [exact Htotal1 | reflexivity].
    + injection Hone as <- <-. cbn [objects metrics_data observed].
      split; [exact Hkeyed1 | split; [exact Hcounter1 | split]].
      * eexists. reflexivity.
      * left. split; [exact Htotal1 | apply Hbatch].
Qed.

Lemma pass_inv_step (b : Q) (p p' : Pass) :
  pass_inv b p ->
  (forall v, (key, v) ∈ observed p' -> 0 <= v) ->
  (total (objects p') = total (objects p)
   /\ dict_get key (metrics_data p') = dict_get key (metrics_data p))
  \/ (exists T v, total (objects p) = Some T
                  /\ total (objects p') = Some (T + v)
                  /\ dict_get key (metrics_data p') = Some (T + v)
                  /\ (key, v) ∈ observed p') ->
  pass_inv b p'.
Proof.
  intros [Hb Hbatch] Hnonneg [[Ht Hd] | (T & v & HT & HT' & Hd & Hv)].
  - split.
    + intros T. rewrite Ht. apply Hb.
    + intros x. rewrite Ht, Hd. apply Hbatch.
  - specialize (Hb _ HT). specialize (Hnonneg _ Hv). split.
    + intros T'. rewrite HT'. intros [= <-]. lra.
    + intros x. rewrite Hd, HT'. auto.
Qed.

Lemma update_all_observed (readings : Readings) (keys : list string) :
  forall (p p' : Pass) (e : option exn),
  keyed_by_name (objects p) -> is_counter (objects p) ->
  update_all call readings keys p = (p', e) ->
  exists new, observed p' = (observed p ++ new)%list.
Proof.
  induction keys as [|key0 rest IH]; intros p p' e Hkeyed Hcounter Hall;
    cbn [update_all] in Hall.
  - injection Hall as <- <-. exists []. rewrite app_nil_r. reflexivity.
  - destruct (update_one call readings p key0) as [p1 [e1|]] eqn:Hone;
      destruct (update_one_step _ _ _ _ _ Hkeyed Hcounter Hone)
        as (Hkeyed1 & Hcounter1 & [new1 Hnew1] & _).
    + injection Hall as <- <-. exists new1. exact Hnew1.
    + destruct (IH _ _ _ Hkeyed1 Hcounter1 Hall) as [new Hnew].
      exists (new1 ++ new)%list. rewrite Hnew, Hnew1, app_assoc. reflexivity.
Qed.

(** The whole pass keeps the invariant, when the values observed for
    [key] are non-negative. *)
Lemma update_all_step (readings : Readings) (b : Q) (keys : list string) :
  forall (p p' : Pass) (e : option exn),
  keyed_by_name (objects p) -> is_counter (objects p) -> pass_inv b p ->
  (forall v, (key, v) ∈ observed p' -> 0 <= v) ->
  update_all call readings keys p = (p', e) ->
  keyed_by_name (objects p') /\ is_counter (objects p') /\ pass_inv b p'.
Proof.
  induction keys as [|key0 rest IH]; intros p p' e Hkeyed Hcounter Hinv Hnonneg Hall;
    cbn [update_all] in Hall.
  - injection Hall as <- <-. auto.
  - destruct (update_one call readings p key0) as [p1 [e1|]] eqn:Hone;
      destruct (update_one_step _ _ _ _ _ Hkeyed Hcounter Hone)
        as (Hkeyed1 & Hcounter1 & _ & Hcases).
    + injection Hall as <- <-.
      split; [exact Hkeyed1 | split; [exact Hcounter1 |]].
      apply (pass_inv_step b p p1 Hinv Hnonneg Hcases).
    + destruct (update_all_observed _ _ _ _ _ Hkeyed1 Hcounter1 Hall) as [new Hnew].
      apply (IH p1 p' e Hkeyed1 Hcounter1); [|exact Hnonneg | exact Hall].
      apply (pass_inv_step b p p1 Hinv); [|exact Hcases].
      intros v Hv. apply Hnonneg. rewrite Hnew. apply elem_of_app. left. exact Hv.
Qed.

Local Abbreviation host_inv := (host_invariant key).
Local Abbreviation published_for := (published_at key).

Lemma step_keeps_inv (b : Q) (h h' : EmulatedHost) (a : action) (s : shown) :
  host_inv b h ->
  (forall v, (key, v) ∈ ticked s -> 0 <= v) ->
  step call h a = (s, h') ->
  host_inv b h'
  /\ (forall x, published_for s = Some x -> b <= x /\ host_inv x h').
Proof.
  intros (Hkeyed & Hcounter & Hb) Hnonneg Hstep.
  destruct a as [t readings | key0 event clock]; cbn [step] in Hstep.
  - unfold run_loop_iteration in Hstep.
    destruct (_is_running h) eqn:Hrun; cbn [negb] in Hstep.
    2:{ injection Hstep as <- <-. unfold published_at. cbn [published].
        split; [|discriminate].
        split; [exact Hkeyed | split; [exact Hcounter |]]. congruence. }
    destruct (Qltb (ttl (Hosts._config h)) (t - _host_start_time h)).
    + (* the TTL expired: the host stops *)
      injection Hstep as <- <-. unfold published_at. cbn [published].
      split; [|discriminate].
      unfold stop. rewrite Hrun.
      split; [|split; [|discriminate]];
        cbn [_emulated_metrics _is_running with_metrics with_running].
      * intros k m. rewrite lookup_fmap.
        destruct (_emulated_metrics h !! k) as [m0|] eqn:E; [|discriminate].
        intros [= <-]. apply (Hkeyed _ _ E).
      * intros m. rewrite lookup_fmap.
        destruct (_emulated_metrics h !! key) as [m0|] eqn:E; [|discriminate].
        intros [= <-]. apply (Hcounter _ E).
    + unfold _update_metrics in Hstep. rewrite Hrun in Hstep.
      set (p0 := {| objects := _emulated_metrics h; metrics_data := [];
                    scheduled := []; observed := [] |}) in *.
      assert (Hinv0 : pass_inv b p0).
      { split; [apply Hb; reflexivity | discriminate]. }
      destruct (update_all call readings (_metric_names h) p0) as [p e] eqn:Hall.
      assert (Hticked : ticked s = observed p).
      { destruct e; cbn [fst snd] in Hstep;
          repeat match type of Hstep with
                 | context [if ?c then _ else _] => destruct c
                 end; injection Hstep as <- <-; reflexivity. }
      rewrite Hticked in Hnonneg.
      destruct (update_all_step readings b _ p0 p e Hkeyed Hcounter Hinv0 Hnonneg Hall)
        as (Hkeyed' & Hcounter' & Hb' & Hbatch').
      assert (Hh' : _emulated_metrics h' = objects p /\ _is_running h' = true).
      { destruct e; cbn [fst snd] in Hstep;
          repeat match type of Hstep with
                 | context [if ?c then _ else _] => destruct c
                 end; injection Hstep as <- <-; split; (reflexivity || exact Hrun). }
      destruct Hh' as [Hobjs Hrun'].
      assert (Hpub : forall x, published_for s = Some x ->
                               dict_get key (metrics_data p) = Some x).
      { intros x. unfold published_at.
        destruct e; cbn [fst snd] in Hstep;
          repeat match type of Hstep with
                 | context [if ?c then _ else _] => destruct c
                 end; injection Hstep as <- <-; cbn [published dict_get];
          (discriminate || auto). }
      split.
      * split; [rewrite Hobjs; exact Hkeyed' | split; [rewrite Hobjs; exact Hcounter' |]].
        intros _. rewrite Hobjs. exact Hb'.
      * intros x Hx. apply Hpub in Hx. apply Hbatch' in Hx. split; [apply Hb'; exact Hx|].
        split; [rewrite Hobjs; exact Hkeyed' | split; [rewrite Hobjs; exact Hcounter' |]].
        intros _ T. rewrite Hobjs, Hx. intros [= <-]. apply Qle_refl.
  - (* an event delivered to a metric *)
    injection Hstep as <- <-. unfold published_at. cbn [published].
    split; [|discriminate].
    unfold handle_event.
    destruct (_emulated_metrics h !! key0) as [metric|] eqn:Hmetric;
      [|split; [exact Hkeyed | split; [exact Hcounter | exact Hb]]].
    pose proof (update_value_config (_emulated_metrics h) metric (Some event) 0 clock) as Hcfg.
    pose proof (update_value_counter_total (_emulated_metrics h) metric (Some event) 0 clock)
      as Htot.
    destruct (update_value call (_emulated_metrics h) metric (Some event) 0 clock)
      as [[value metric'] em].
    cbn [fst snd] in Hcfg, Htot.
    split; [|split]; cbn [_emulated_metrics _is_running with_metrics].
    + apply (keyed_insert _ _ metric); assumption.
    + apply (is_counter_insert _ _ metric); assumption.
    + intros Hrun T. rewrite (total_insert _ _ metric) by assumption. apply Hb. exact Hrun.
Qed.

(** The published values of [key] are at least [b] and never decrease. *)
Lemma run_series (actions : list action) :
  forall (b : Q) (h h' : EmulatedHost) (shows : list shown),
  host_inv b h ->
  run call h actions = (shows, h') ->
  (forall s v, s ∈ shows -> (key, v) ∈ ticked s -> 0 <= v) ->
  Forall (Qle b) (series key shows) /\ StronglySorted Qle (series key shows).
Proof.
  induction actions as [|a rest IH]; intros b h h' shows Hinv Hrun Hnonneg;
    cbn [run] in Hrun.
  - injection Hrun as <- <-. split; constructor.
  - destruct (step call h a) as [s h1] eqn:Hstep.
    destruct (run call h1 rest) as [ss h2] eqn:Hrest.
    injection Hrun as <- <-.
    assert (Hs : forall v, (key, v) ∈ ticked s -> 0 <= v).
    { intros v. apply Hnonneg. apply list_elem_of_here. }
    assert (Hss : forall s' v, s' ∈ ss -> (key, v) ∈ ticked s' -> 0 <= v).
    { intros s' v Hin. apply Hnonneg. apply list_elem_of_further. exact Hin. }
    destruct (step_keeps_inv b h h1 a s Hinv Hs Hstep) as [Hinv1 Hpub].
    unfold series. cbn [omap list_omap]. fold (series key ss).
    fold (published_for s).
    destruct (published_for s) as [x|] eqn:Hx.
    + destruct (Hpub x eq_refl) as [Hbx Hinvx].
      destruct (IH x h1 h2 ss Hinvx Hrest Hss) as [Hall Hsorted].
      split.
      * constructor; [exact Hbx|].
        eapply Forall_impl; [exact Hall|]. intros y Hy. cbn in Hy. lra.
      * constructor; assumption.
    + apply (IH b h1 h2 ss Hinv1 Hrest Hss).
Qed.

End Frame.
End HostProperties.

Section HostConstruction.
Import Storage.
Import Metrics.
Import Hosts.

Lemma link_existing_config (names : list string) (m : EmulatedMetric) :
  Metrics._config (link_existing names m) = Metrics._config m.
Proof.
  unfold link_existing.
  assert (H : forall linked acc, Metrics._config acc = Metrics._config m ->
            Metrics._config
              (fold_left (fun acc linked_name =>
                            if bool_decide (linked_name ∈ names)
                            then add_linked_metric acc linked_name else acc) linked acc)
            = Metrics._config m).
  { induction linked as [|n rest IH]; intros acc Hacc; cbn [fold_left]; [exact Hacc|].
    apply IH. destruct (bool_decide (n ∈ names)); exact Hacc. }
  apply H. reflexivity.
Qed.

(** The objects that [_init_metrics] builds sit under their config names. *)
Lemma init_metrics_keyed (configs : list MetricConfig) (now : Q) :
  keyed_by_name (snd (_init_metrics configs now)).
Proof.
  unfold _init_metrics. cbn [snd].
  assert (H : forall acc, keyed_by_name acc ->
            keyed_by_name
              (fold_left (fun acc config => <[Metrics.name config := Metrics.init config now]> acc)
                         configs acc)).
  { induction configs as [|c rest IH]; intros acc Hacc; cbn [fold_left]; [exact Hacc|].
    apply IH. intros k m. rewrite lookup_insert. case_decide as E.
    - intros [= <-]. exact E.
    - apply Hacc. }
  intros k m. rewrite lookup_fmap.
  destruct (fold_left _ configs ∅ !! k) as [m0|] eqn:E; [|discriminate].
  intros [= <-]. rewrite link_existing_config.
  apply (H ∅); [|exact E]. intros k' m'. rewrite lookup_empty. discriminate.
Qed.

Lemma init_keyed (config : HostConfig) (callback : bool) (now : Q) (fake_hostname fake_ip : string) :
  keyed_by_name (_emulated_metrics (Hosts.init config callback now fake_hostname fake_ip)).
Proof.
  unfold Hosts.init.
  pose proof (init_metrics_keyed (metrics config) now) as H.
  destruct (_init_metrics (metrics config) now) as [names objects]. exact H.
Qed.

Lemma start_metrics (h : EmulatedHost) (now : Q) :
  _emulated_metrics (start h now) = _emulated_metrics h.
Proof. unfold start. destruct (_is_running h); reflexivity. Qed.

End HostConstruction.

Section LibraryFrame.
Import Storage.
Import Metrics.
Import Scenarios.

(** The scenarios of the library keep to their own storage keys: none of
    them writes ['counter_total'], the key of the host; the event switch
    passes on what the scenarios it calls do. *)
Lemma do_nothing_leaves_counter_total (context : MetricContext) :
  stored (do_nothing context) !! "counter_total" = storage context !! "counter_total".
Proof. reflexivity. Qed.

Lemma random_in_range_leaves_counter_total (context : MetricContext)
    (value_range : option (Q * Q)) (u : Q) :
  stored (random_in_range context value_range u) !! "counter_total"
  = storage context !! "counter_total".
Proof. reflexivity. Qed.

Lemma feature_toggle_leaves_counter_total (context : MetricContext)
    (start_time duration interval on_value off_value : Q) (source : option string)
    (current_time : Q) :
  stored (feature_toggle context start_time duration interval on_value off_value source
                         current_time) !! "counter_total"
  = storage context !! "counter_total".
Proof.
  unfold feature_toggle, set.
  repeat match goal with
         | |- context [if ?b then _ else _] => destruct b
         | |- context [match as_num ?v with _ => _ end] => destruct (as_num v)
         end; cbn [stored]; rewrite ?lookup_insert_ne by discriminate; reflexivity.
Qed.

Lemma update_by_trend_leaves_counter_total (context : MetricContext) (trend : string)
    (step_range : Q * Q) (u : Q) :
  stored (update_by_trend context trend step_range u) !! "counter_total"
  = storage context !! "counter_total".
Proof.
  unfold update_by_trend, set. destruct step_range as [min_step max_step].
  repeat match goal with
         | |- context [if ?b then _ else _] => destruct b
         | |- context [match as_num ?v with _ => _ end] => destruct (as_num v)
         end; cbn [stored]; rewrite ?lookup_insert_ne by discriminate; reflexivity.
Qed.

Lemma switch_scenario_leaves_counter_total (call : Callables)
    (hasattr_Scenarios : string -> bool) (context : MetricContext)
    (events_config : gmap string EventConfig) (default_scenario : option string)
    (default_scenario_data : option kwargs) (current_time u : Q) :
  Hosts.leaves_counter_total call ->
  stored (switch_scenario_by_events call hasattr_Scenarios context events_config
            default_scenario default_scenario_data current_time u) !! "counter_total"
  = storage context !! "counter_total".
Proof.
  intros Hframe.
  assert (Hdefault : forall ctx name data em lg,
            stored (switch_default call hasattr_Scenarios ctx name data u em lg)
              !! "counter_total" = storage ctx !! "counter_total").
  { intros ctx name data em lg. unfold switch_default.
    destruct name as [default_name|]; [|reflexivity].
    destruct (negb (String.eqb default_name "") && hasattr_Scenarios default_name);
      [|reflexivity].
    destruct (returned (call (LibFunc default_name) ctx data)) as [[r|]|e];
      cbn [stored]; apply Hframe. }
  assert (Hlast : forall ctx name data,
            stored (switch_last_event call hasattr_Scenarios ctx name data current_time u)
              !! "counter_total" = storage ctx !! "counter_total").
  { intros ctx name data. unfold switch_last_event.
    repeat match goal with
           | |- context [if ?b then _ else _] => destruct b
           | |- context [match as_num ?v with _ => _ end] => destruct (as_num v)
           end; cbn [stored]; try reflexivity; try apply Hdefault.
    all: destruct (get "last_event_scenario" VNone (storage ctx)); try apply Hdefault.
    all: destruct (get "last_event_params" (VDict []) (storage ctx)); try apply Hdefault.
    all: destruct (returned (call f ctx items)) as [[r|]|e]; cbn [stored];
      try apply Hframe; rewrite Hdefault; cbn [storage with_storage]; apply Hframe. }
  unfold switch_scenario_by_events.
  destruct (event context) as [ev|]; [|rewrite Hlast; reflexivity].
  destruct (events_config !! Events.name ev) as [entry|]; [|rewrite Hlast; reflexivity].
  destruct (scenario entry) as [scenario_name|].
  - destruct (resolve hasattr_Scenarios scenario_name) as [f|].
    + destruct (returned (call f _ _)) as [[r|]|e]; cbn [stored]; unfold set;
        rewrite ?lookup_insert_ne by discriminate; rewrite Hframe;
        cbn [storage with_storage]; rewrite !lookup_insert_ne by discriminate; reflexivity.
    + rewrite Hlast. cbn [storage with_storage]. unfold set.
      rewrite !lookup_insert_ne by discriminate. reflexivity.
  - rewrite Hlast. cbn [storage with_storage]. unfold set.
    rewrite !lookup_insert_ne by discriminate. reflexivity.
Qed.

End LibraryFrame.

Section CounterClaim.
Import Storage.
Import Metrics.
Import Hosts.
Variable call : Callables.
Variable key : string.


End CounterClaim.


(** C3, as stated, fails: the scenario and the host keep their totals in
    the same storage.  The host of [Examples.restarting_config] ticks 1.0 twice,
    never a negative value, and publishes 101.0 and then 1.0: the
    scenario has written ['counter_total'] in between. *)
Lemma counter_total_overwritten_by_scenario :
  Hosts.keyed_by_name (Hosts._emulated_metrics Examples.restarting_host)
  /\ (forall metric,
        Hosts._emulated_metrics Examples.restarting_host !! "requests" = Some metric ->
        Metrics.metric_type (Metrics._config metric) = Metrics.COUNTER)
  /\ (forall s v,
        s ∈ fst (Hosts.run Examples.restarting_library Examples.restarting_host
                   [Examples.turn_at 2000; Examples.turn_at 2015]) ->
        ("requests", v) ∈ Hosts.ticked s -> 0 <= v)
  /\ Forall2 Qeq
       (concat (map (fun s => map snd (Hosts.ticked s))
                    (fst (Hosts.run Examples.restarting_library Examples.restarting_host
                            [Examples.turn_at 2000; Examples.turn_at 2015]))))
       [1; 1]
  /\ Forall2 Qeq
       (Hosts.series "requests"
          (fst (Hosts.run Examples.restarting_library Examples.restarting_host
                  [Examples.turn_at 2000; Examples.turn_at 2015])))
       [101; 1]
  /\ ~ StronglySorted Qle
        (Hosts.series "requests"
           (fst (Hosts.run Examples.restarting_library Examples.restarting_host
                   [Examples.turn_at 2000; Examples.turn_at 2015])))
  /\ ~ Hosts.leaves_counter_total Examples.restarting_library.
Proof.
  split; [|split; [|split; [|split; [|split; [|split]]]]].
  - unfold Examples.restarting_host. rewrite start_metrics. apply init_keyed.
  - intros metric. vm_compute. intros [= <-]. reflexivity.
  - assert (H : Forall (fun s => Forall (fun kv => 0 <= snd kv) (Hosts.ticked s))
                  (fst (Hosts.run Examples.restarting_library Examples.restarting_host
                          [Examples.turn_at 2000; Examples.turn_at 2015]))).
    { vm_compute. repeat (apply List.Forall_cons || apply List.Forall_nil); discriminate. }
    intros s v Hs Hv. rewrite Forall_forall in H. specialize (H s Hs).
    rewrite Forall_forall in H. apply (H _ Hv).
  - vm_compute. repeat constructor.
  - vm_compute. repeat constructor.
  - intros Hsorted.
    assert (Hseries : Hosts.series "requests"
                        (fst (Hosts.run Examples.restarting_library Examples.restarting_host
                                [Examples.turn_at 2000; Examples.turn_at 2015]))
                      = [10100 # 100; 100 # 100]) by (vm_compute; reflexivity).
    rewrite Hseries in Hsorted. inversion Hsorted as [|a l _ Hall]; subst.
    inversion Hall as [|b l' Hle _]; subst. vm_compute in Hle. apply Hle. reflexivity.
  - intros Hframe.
    specialize (Hframe (UserFunc 0) (Examples.memory_context None ∅) []).
    vm_compute in Hframe. discriminate.
Qed.

(* ===================================================================== *)
(** * Properties of the utilities: [size_to_bytes] *)
(* ===================================================================== *)

Section SizeToBytes.
Import Utils.

Lemma append_cons (c : ascii) (a b : string) : String c a ++ b = String c (a ++ b).
Proof. reflexivity. Qed.

Lemma append_nil_l (s : string) : "" ++ s = s.
Proof. reflexivity. Qed.

Lemma append_nil_r (s : string) : s ++ "" = s.
Proof.
  induction s as [|c s IH]; [reflexivity|]. rewrite append_cons, IH. reflexivity.
Qed.

Lemma append_assoc (a b c : string) : (a ++ b) ++ c = a ++ b ++ c.
Proof.
  induction a as [|x a IH]; [reflexivity|]. rewrite !append_cons, IH. reflexivity.
Qed.

Lemma all_of_app (p : ascii -> bool) (a b : string) :
  all_of p (a ++ b) = all_of p a && all_of p b.
Proof.
  induction a as [|x a IH]; [reflexivity|].
  rewrite append_cons. cbn [all_of]. rewrite IH. apply andb_assoc.
Qed.

Lemma span_app (p : ascii -> bool) (a b : string) :
  all_of p a = true -> starts_outside p b = true -> span p (a ++ b) = (a, b).
Proof.
  intros Ha Hb. induction a as [|x a IH].
  - rewrite append_nil_l. destruct b as [|c b]; [reflexivity|]. cbn in Hb.
    apply negb_true_iff in Hb. cbn [span]. rewrite Hb. reflexivity.
  - cbn in Ha. apply andb_true_iff in Ha. destruct Ha as [Hx Ha].
    rewrite append_cons. cbn [span]. rewrite Hx, (IH Ha). reflexivity.
Qed.

Lemma span_spec (p : ascii -> bool) (s a b : string) :
  span p s = (a, b) ->
  s = a ++ b /\ all_of p a = true /\ starts_outside p b = true.
Proof.
  revert a b. induction s as [|c s IH]; intros a b H; cbn in H.
  - injection H as <- <-. auto.
  - destruct (p c) eqn:Hc.
    + destruct (span p s) as [taken remaining]. injection H as <- <-.
      destruct (IH _ _ eq_refl) as (Hs & Hall & Hout).
      rewrite append_cons. cbn [all_of]. rewrite Hc, Hall, <- Hs. auto.
    + injection H as <- <-. cbn. rewrite Hc. auto.
Qed.

(** The classes of the pattern exclude one another and the point; [lower]
    keeps them, and maps the letters onto [[a-z]]. *)
Lemma char_classes (c : ascii) :
  (is_digit c = true -> is_space c = false /\ is_az c = false /\ Ascii.eqb c "." = false
                        /\ lower_char c = c)
  /\ (is_space c = true -> is_digit c = false /\ is_az c = false /\ Ascii.eqb c "." = false
                           /\ lower_char c = c)
  /\ (is_az c = true -> is_digit c = false /\ is_space c = false /\ Ascii.eqb c "." = false)
  /\ (Ascii.eqb c "." = true -> lower_char c = c)
  /\ is_digit (lower_char c) = is_digit c
  /\ is_space (lower_char c) = is_space c
  /\ Ascii.eqb (lower_char c) "." = Ascii.eqb c "."
  /\ is_az (lower_char c) = is_letter c.
Proof.
  destruct c as [[] [] [] [] [] [] [] []]; vm_compute; repeat split; congruence.
Qed.

Lemma string_eqb_nonempty (s : string) : s <> "" -> String.eqb s "" = false.
Proof. apply String.eqb_neq. Qed.

(** What follows a decimal number in an accepted text: not a digit. *)
Lemma tail_starts_outside_digit (space unit : string) :
  all_of is_space space = true -> all_of is_az unit = true ->
  starts_outside is_digit (space ++ unit) = true.
Proof.
  intros Hs Hu. destruct space as [|c space].
  - rewrite append_nil_l. destruct unit as [|c unit]; [reflexivity|].
    cbn in Hu |- *. apply andb_true_iff in Hu. destruct Hu as [Hc _].
    destruct (char_classes c) as (_ & _ & H & _). destruct (H Hc) as [-> _]. reflexivity.
  - rewrite append_cons. cbn in Hs |- *. apply andb_true_iff in Hs. destruct Hs as [Hc _].
    destruct (char_classes c) as (_ & H & _). destruct (H Hc) as [-> _]. reflexivity.
Qed.

Lemma optional_fraction_none (s : string) :
  match s with
  | EmptyString => True
  | String c _ => Ascii.eqb c "." = false
  end ->
  optional_fraction s = ("", s).
Proof.
  destruct s as [|c s]; [reflexivity|]. intros H. cbn [optional_fraction]. rewrite H.
  reflexivity.
Qed.

Lemma optional_fraction_some (frac rest : string) :
  frac <> "" -> all_of is_digit frac = true -> starts_outside is_digit rest = true ->
  optional_fraction ("." ++ frac ++ rest) = ("." ++ frac, rest).
Proof.
  intros Hne Hd Hrest.
  change ("." ++ frac ++ rest) with (String "." (frac ++ rest)).
  cbn [optional_fraction]. change (Ascii.eqb "." ".") with true. cbn iota.
  rewrite (span_app _ _ _ Hd Hrest), (string_eqb_nonempty _ Hne). reflexivity.
Qed.

Lemma optional_fraction_spec (s fraction rest : string) :
  optional_fraction s = (fraction, rest) ->
  s = fraction ++ rest
  /\ (fraction = ""
      \/ exists frac, frac <> "" /\ all_of is_digit frac = true /\ fraction = "." ++ frac).
Proof.
  destruct s as [|c s]; cbn [optional_fraction].
  - intros [= <- <-]. auto.
  - destruct (Ascii.eqb c ".") eqn:Hc.
    + apply Ascii.eqb_eq in Hc. subst c.
      destruct (span is_digit s) as [frac after_frac] eqn:Hspan.
      destruct (span_spec _ _ _ _ Hspan) as (Hs & Hall & _).
      destruct (String.eqb frac "") eqn:Hfrac.
      * intros [= <- <-]. auto.
      * intros [= <- <-]. apply String.eqb_neq in Hfrac. split.
        -- rewrite append_cons, <- Hs. reflexivity.
        -- right. exists frac. auto.
    + intros [= <- <-]. auto.
Qed.

(** The pattern matches every text of the accepted form. *)
Lemma regex_match_complete (number space unit : string) :
  decimal_number number -> all_of is_space space = true ->
  unit <> "" -> all_of is_az unit = true ->
  regex_match (number ++ space ++ unit) = Some (number, unit).
Proof.
  intros (int_part & Hne & Hdigits & Hnumber) Hspace Hunit Haz.
  assert (Hspan_space : span is_space (space ++ unit) = (space, unit)).
  { apply span_app; [exact Hspace|]. destruct unit as [|c unit]; [congruence|].
    cbn in Haz |- *. apply andb_true_iff in Haz. destruct Haz as [Hc _].
    destruct (char_classes c) as (_ & _ & H & _). destruct (H Hc) as (_ & -> & _).
    reflexivity. }
  assert (Hspan_unit : span is_az unit = (unit, "")).
  { rewrite <- (append_nil_r unit) at 1. apply span_app; [exact Haz | reflexivity]. }
  pose proof (tail_starts_outside_digit _ _ Hspace Haz) as Htail.
  unfold regex_match.
  destruct Hnumber as [-> | (frac & Hfne & Hfdigits & ->)].
  - rewrite (span_app is_digit int_part (space ++ unit) Hdigits Htail).
    rewrite (string_eqb_nonempty _ Hne).
    rewrite optional_fraction_none.
    + rewrite Hspan_space, Hspan_unit, (string_eqb_nonempty _ Hunit).
      cbn [String.eqb orb]. rewrite append_nil_r. reflexivity.
    + destruct space as [|c space].
      * rewrite append_nil_l. destruct unit as [|c unit]; [exact I|].
        cbn in Haz. apply andb_true_iff in Haz. destruct Haz as [Hc _].
        destruct (char_classes c) as (_ & _ & H & _). apply (H Hc).
      * rewrite append_cons. cbn in Hspace. apply andb_true_iff in Hspace.
        destruct Hspace as [Hc _].
        destruct (char_classes c) as (_ & H & _). apply (H Hc).
  - rewrite !append_assoc.
    rewrite (span_app is_digit int_part ("." ++ frac ++ space ++ unit) Hdigits eq_refl).
    rewrite (string_eqb_nonempty _ Hne).
    rewrite (optional_fraction_some frac (space ++ unit) Hfne Hfdigits Htail).
    rewrite Hspan_space, Hspan_unit, (string_eqb_nonempty _ Hunit).
    cbn [String.eqb orb]. reflexivity.
Qed.

(** What the pattern matches is of the accepted form, up to a final line
    feed. *)
Lemma regex_match_sound (t number unit : string) :
  regex_match t = Some (number, unit) ->
  decimal_number number /\ unit <> "" /\ all_of is_az unit = true
  /\ exists space, all_of is_space space = true
                   /\ (t = number ++ space ++ unit
                       \/ t = (number ++ space ++ unit) ++ String "010" "").
Proof.
  unfold regex_match.
  destruct (span is_digit t) as [int_part after_int] eqn:H1.
  destruct (span_spec _ _ _ _ H1) as (Ht & Hdigits & _).
  destruct (String.eqb int_part "") eqn:Hint; [discriminate|].
  apply String.eqb_neq in Hint.
  destruct (optional_fraction after_int) as [fraction after_number] eqn:H2.
  destruct (optional_fraction_spec _ _ _ H2) as (Hafter & Hfraction).
  destruct (span is_space after_number) as [space after_space] eqn:H3.
  destruct (span_spec _ _ _ _ H3) as (Hnumber & Hspace & _).
  destruct (span is_az after_space) as [unit0 after_unit] eqn:H4.
  destruct (span_spec _ _ _ _ H4) as (Hsp & Haz & _).
  destruct (String.eqb unit0 "") eqn:Hunit; [discriminate|].
  apply String.eqb_neq in Hunit.
  destruct (String.eqb after_unit "" || String.eqb after_unit (String "010" "")) eqn:Hend;
    [|discriminate].
  intros [= <- <-].
  split; [|split; [exact Hunit | split; [exact Haz |]]].
  - exists int_part. split; [exact Hint | split; [exact Hdigits |]].
    destruct Hfraction as [-> | (frac & Hfne & Hfd & ->)].
    + left. apply append_nil_r.
    + right. exists frac. auto.
  - exists space. split; [exact Hspace|].
    subst t after_int after_number after_space.
    apply orb_true_iff in Hend. destruct Hend as [Hend | Hend];
      apply String.eqb_eq in Hend; subst after_unit.
    + left. rewrite append_nil_r, !append_assoc. reflexivity.
    + right. rewrite !append_assoc. reflexivity.
Qed.

(** [lower] and the classes. *)
Lemma lower_app (a b : string) : lower (a ++ b) = lower a ++ lower b.
Proof.
  induction a as [|x a IH]; [reflexivity|].
  rewrite append_cons. cbn [lower]. rewrite IH. reflexivity.
Qed.

Lemma lower_empty (s : string) : lower s = "" <-> s = "".
Proof. destruct s; cbn [lower]; split; congruence. Qed.

Lemma lower_split (s x y : string) :
  lower s = x ++ y -> exists a b, s = a ++ b /\ lower a = x /\ lower b = y.
Proof.
  revert s. induction x as [|c x IH]; intros s H.
  - exists "", s. auto.
  - destruct s as [|d s]; [discriminate|].
    rewrite append_cons in H. cbn [lower] in H. injection H as Hc H.
    destruct (IH _ H) as (a & b & -> & Ha & Hb).
    exists (String d a), b. cbn [lower]. rewrite Hc, Ha. auto.
Qed.

Lemma all_of_lower (p q : ascii -> bool) (s : string) :
  (forall c, p (lower_char c) = q c) -> all_of p (lower s) = all_of q s.
Proof.
  intros H. induction s as [|c s IH]; [reflexivity|].
  cbn [lower all_of]. rewrite H, IH. reflexivity.
Qed.

Lemma lower_fixed (p : ascii -> bool) (s : string) :
  (forall c, p c = true -> lower_char c = c) -> all_of p s = true -> lower s = s.
Proof.
  intros H. induction s as [|c s IH]; [reflexivity|].
  cbn [lower all_of]. intros Hall. apply andb_true_iff in Hall. destruct Hall as [Hc Hs].
  rewrite (H _ Hc), (IH Hs). reflexivity.
Qed.

Lemma decimal_number_numeric (t : string) :
  decimal_number t -> all_of is_numeric t = true.
Proof.
  assert (H : forall s, all_of is_digit s = true -> all_of is_numeric s = true).
  { induction s as [|c s IH]; [reflexivity|]. cbn [all_of]. intros Hall.
    apply andb_true_iff in Hall. destruct Hall as [Hc Hs].
    unfold is_numeric at 1. rewrite Hc, (IH Hs). reflexivity. }
  intros (int_part & _ & Hd & [-> | (frac & _ & Hf & ->)]).
  - apply H, Hd.
  - rewrite !all_of_app, (H _ Hd), (H _ Hf). reflexivity.
Qed.

Lemma lower_numeric (s : string) : all_of is_numeric (lower s) = all_of is_numeric s.
Proof.
  apply all_of_lower. intros c. unfold is_numeric.
  destruct (char_classes c) as (_ & _ & _ & _ & -> & _ & -> & _). reflexivity.
Qed.

Lemma lower_numeric_fixed (s : string) : all_of is_numeric s = true -> lower s = s.
Proof.
  apply lower_fixed. intros c Hc. unfold is_numeric in Hc. apply orb_true_iff in Hc.
  destruct (char_classes c) as (Hd & _ & _ & Hp & _).
  destruct Hc as [Hc | Hc]; [apply (Hd Hc) | apply (Hp Hc)].
Qed.

Lemma lower_space (s : string) : all_of is_space (lower s) = all_of is_space s.
Proof.
  apply all_of_lower. intros c.
  destruct (char_classes c) as (_ & _ & _ & _ & _ & -> & _). reflexivity.
Qed.

Lemma lower_space_fixed (s : string) : all_of is_space s = true -> lower s = s.
Proof.
  apply lower_fixed. intros c Hc. destruct (char_classes c) as (_ & Hs & _). apply (Hs Hc).
Qed.

Lemma lower_letters (s : string) : all_of is_az (lower s) = all_of is_letter s.
Proof.
  apply all_of_lower. intros c. destruct (char_classes c) as (_ & _ & _ & _ & _ & _ & _ & H).
  exact H.
Qed.

(** [lower] and [strip] commute. *)
Lemma lower_lstrip (s : string) : lstrip (lower s) = lower (lstrip s).
Proof.
  induction s as [|c s IH]; [reflexivity|]. cbn [lower lstrip].
  destruct (char_classes c) as (_ & _ & _ & _ & _ & -> & _).
  destruct (is_space c); [exact IH | reflexivity].
Qed.

Lemma lower_rstrip (s : string) : rstrip (lower s) = lower (rstrip s).
Proof.
  induction s as [|c s IH]; [reflexivity|]. cbn [lower rstrip]. rewrite IH.
  destruct (char_classes c) as (_ & _ & _ & _ & _ & Hsp & _).
  destruct (rstrip s) as [|d r]; cbn [lower].
  - rewrite Hsp. destruct (is_space c); reflexivity.
  - reflexivity.
Qed.

Lemma lower_strip (s : string) : strip (lower s) = lower (strip s).
Proof. unfold strip. rewrite lower_lstrip, lower_rstrip. reflexivity. Qed.

(** A stripped text does not end with whitespace. *)
Lemma rstrip_last (s a : string) (c : ascii) :
  rstrip s = a ++ String c "" -> is_space c = false.
Proof.
  revert a. induction s as [|d s IH]; intros a H; cbn [rstrip] in H.
  - destruct a; discriminate.
  - destruct (rstrip s) as [|e r] eqn:Hr.
    + destruct (is_space d) eqn:Hd; [destruct a; discriminate|].
      destruct a as [|x a].
      * rewrite append_nil_l in H. injection H as <-. exact Hd.
      * rewrite append_cons in H. injection H as _ H. destruct a; discriminate.
    + destruct a as [|x a].
      * rewrite append_nil_l in H. discriminate.
      * rewrite append_cons in H. injection H as _ H. apply (IH a). exact H.
Qed.

(** The code's parse of a text, and the accepted form of the text. *)
Lemma regex_match_form (text number unit : string) :
  regex_match (strip (lower text)) = Some (number, unit) <->
  exists raw_unit, of_the_form text number raw_unit /\ lower raw_unit = unit.
Proof.
  rewrite lower_strip. split.
  - intros H. destruct (regex_match_sound _ _ _ H) as (Hnum & Hne & Haz & space & Hsp & Ht).
    destruct Ht as [Ht | Ht].
    2:{ exfalso. unfold strip in Ht. rewrite <- lower_rstrip in Ht.
        apply rstrip_last in Ht. discriminate. }
    rewrite <- append_assoc in Ht.
    destruct (lower_split _ _ _ Ht) as (ab & c & Hstrip & Hab & Hc).
    destruct (lower_split _ _ _ Hab) as (a & b & -> & Ha & Hb).
    assert (Ha' : a = number).
    { rewrite <- Ha. symmetry. apply lower_numeric_fixed.
      rewrite <- lower_numeric, Ha. apply decimal_number_numeric, Hnum. }
    assert (Hb' : b = space).
    { rewrite <- Hb. symmetry. apply lower_space_fixed. rewrite <- lower_space, Hb. exact Hsp. }
    subst a b. exists c. split; [|exact Hc].
    split; [exact Hnum | split; [|split]].
    + intros ->. apply Hne. rewrite <- Hc. reflexivity.
    + rewrite <- lower_letters, Hc. exact Haz.
    + exists space. split; [exact Hsp|]. rewrite Hstrip, append_assoc. reflexivity.
  - intros (raw_unit & (Hnum & Hne & Hletters & space & Hsp & Hstrip) & <-).
    rewrite Hstrip, !lower_app.
    rewrite (lower_numeric_fixed _ (decimal_number_numeric _ Hnum)).
    rewrite (lower_space_fixed _ Hsp).
    apply regex_match_complete; try assumption.
    + rewrite lower_empty. exact Hne.
    + rewrite lower_letters. exact Hletters.
Qed.

(** [float] reads every decimal number. *)
Lemma float_of_str_decimal (number : string) :
  decimal_number number -> exists q, float_of_str number = Some q.
Proof.
  intros (int_part & Hne & Hd & [-> | (frac & Hfne & Hfd & ->)]); unfold float_of_str.
  - pose proof (span_app is_digit int_part "" Hd eq_refl) as Hspan.
    rewrite append_nil_r in Hspan. rewrite Hspan, (string_eqb_nonempty _ Hne).
    cbn. eexists. reflexivity.
  - rewrite (span_app is_digit int_part ("." ++ frac) Hd eq_refl), (string_eqb_nonempty _ Hne).
    pose proof (optional_fraction_some frac "" Hfne Hfd eq_refl) as Hfraction.
    rewrite append_nil_r in Hfraction. rewrite Hfraction.
    cbn. eexists. reflexivity.
Qed.

End SizeToBytes.

Section SizeToBytesContract.
Import Utils.

Lemma int_of_product_raises (number : Q) (multiplier : Z) :
  is_raise (int_of_product number multiplier) = true <->
  FLOAT_OVERFLOW <= number * inject_Z multiplier.
Proof.
  unfold int_of_product.
  destruct (Qleb FLOAT_OVERFLOW (number * inject_Z multiplier)) eqn:E.
  - apply Qleb_le in E. split; auto.
  - apply Qleb_gt in E. split; [discriminate|]. intros H. exfalso.
    apply (Qlt_not_le _ _ E H).
Qed.

(** C8 (as amended).  [size_to_bytes("1Gb")] is [1024^3]; texts that
    differ only in the case of their letters have the same result; and the
    call raises exactly when its argument is not a string, is the empty
    string, is not of the form of a decimal number, optional whitespace and
    a unit of letters, is of that form with a unit that neither table
    knows, or is of that form with a known unit and a number whose product
    with the unit's multiplier reaches the overflow threshold of floats. *)
Theorem size_to_bytes_contract :
  size_to_bytes (VStr "1Gb") = Ok (1024 ^ 3)%Z
  /\ (forall s s', lower s = lower s' -> size_to_bytes (VStr s) = size_to_bytes (VStr s'))
  /\ (forall x,
        is_raise (size_to_bytes x) = true <->
        (forall s, x <> VStr s)
        \/ x = VStr ""
        \/ (exists s, x = VStr s /\ ~ exists number unit, of_the_form s number unit)
        \/ (exists s number unit,
              x = VStr s /\ of_the_form s number unit /\ ~ known_unit unit)
        \/ (exists s number unit q multiplier,
              x = VStr s /\ of_the_form s number unit
              /\ float_of_str number = Some q
              /\ unit_multiplier unit = Some multiplier
              /\ FLOAT_OVERFLOW <= q * inject_Z multiplier)).
Proof.
  split; [vm_compute; reflexivity | split].
  - intros s s' H. unfold size_to_bytes. cbn [truthy]. rewrite H.
    assert (E : String.eqb s "" = String.eqb s' "").
    { destruct (String.eqb_spec s ""), (String.eqb_spec s' ""); try reflexivity; exfalso.
      - subst s. cbn [lower] in H. symmetry in H.
        apply (proj1 (lower_empty s')) in H. contradiction.
      - subst s'. cbn [lower] in H.
        apply (proj1 (lower_empty s)) in H. contradiction. }
    rewrite E. reflexivity.
  - intros x.
    destruct x as [| b | q | text | items | items | f];
      try (split; [intros _; left; intros s; discriminate | reflexivity]).
    unfold size_to_bytes. cbn [truthy]. rewrite negb_involutive.
    destruct (String.eqb_spec text "") as [-> | Htext].
    { split; [intros _; right; left; reflexivity | reflexivity]. }
    destruct (regex_match (strip (lower text))) as [[number unit]|] eqn:Hmatch.
    + pose proof (proj1 (regex_match_form _ _ _) Hmatch) as (raw_unit & Hform & Hlower).
      destruct (float_of_str_decimal number (proj1 Hform)) as [q Hq]. rewrite Hq.
      assert (Hunique : forall number' unit', of_the_form text number' unit' ->
                                              number' = number /\ lower unit' = unit).
      { intros number' unit' Hform'.
        assert (H : regex_match (strip (lower text)) = Some (number', lower unit')).
        { apply regex_match_form. exists unit'. auto. }
        rewrite Hmatch in H. injection H as <- <-. auto. }
      (* the cases of the right-hand side that the text excludes *)
      assert (Hnot1 : ~ forall s, VStr text <> VStr s) by (intros H; apply (H text); reflexivity).
      assert (Hnot2 : VStr text <> VStr "") by congruence.
      assert (Hnot3 : ~ exists s, VStr text = VStr s
                                  /\ ~ exists number unit, of_the_form s number unit).
      { intros (s & Hs & H). injection Hs as <-. apply H. eauto. }
      destruct (lookup_unit unit BYTE_UNITS) as [multiplier|] eqn:Hbyte;
        [|destruct (lookup_unit unit BIT_UNITS) as [multiplier|] eqn:Hbit].
      * assert (Hmult : forall unit', lower unit' = unit ->
                                      unit_multiplier unit' = Some multiplier).
        { intros unit' <-. unfold unit_multiplier. rewrite Hbyte. reflexivity. }
        rewrite int_of_product_raises. split.
        -- intros Hover. do 4 right. exists text, number, raw_unit, q, multiplier. auto 10.
        -- intros [H | [H | [H | [H | H]]]];
             [contradiction | contradiction | contradiction | |].
           ++ destruct H as (s & number' & unit' & Hs & Hform' & Hunknown).
              injection Hs as <-. exfalso. apply Hunknown. left.
              rewrite (proj2 (Hunique _ _ Hform')), Hbyte. discriminate.
           ++ destruct H as (s & number' & unit' & q' & m' & Hs & Hform' & Hq' & Hm' & Hover).
              injection Hs as <-. destruct (Hunique _ _ Hform') as [-> Hu].
              rewrite (Hmult _ Hu) in Hm'. congruence.
      * assert (Hmult : forall unit', lower unit' = unit ->
                                      unit_multiplier unit' = Some multiplier).
        { intros unit' <-. unfold unit_multiplier. rewrite Hbyte, Hbit. reflexivity. }
        rewrite int_of_product_raises. split.
        -- intros Hover. do 4 right. exists text, number, raw_unit, q, multiplier. auto 10.
        -- intros [H | [H | [H | [H | H]]]];
             [contradiction | contradiction | contradiction | |].
           ++ destruct H as (s & number' & unit' & Hs & Hform' & Hunknown).
              injection Hs as <-. exfalso. apply Hunknown. right.
              rewrite (proj2 (Hunique _ _ Hform')), Hbit. discriminate.
           ++ destruct H as (s & number' & unit' & q' & m' & Hs & Hform' & Hq' & Hm' & Hover).
              injection Hs as <-. destruct (Hunique _ _ Hform') as [-> Hu].
              rewrite (Hmult _ Hu) in Hm'. congruence.
      * split; [|reflexivity]. intros _. do 3 right. left.
        exists text, number, raw_unit. split; [reflexivity | split; [exact Hform|]].
        unfold known_unit. rewrite Hlower, Hbyte, Hbit. intros [H | H]; apply H; reflexivity.
    + split; [|reflexivity]. intros _. right. right. left.
      exists text. split; [reflexivity|]. intros (number & unit & Hform).
      assert (H : regex_match (strip (lower text)) = Some (number, lower unit)).
      { apply regex_match_form. exists unit. auto. }
      rewrite Hmatch in H. discriminate.
Qed.

End SizeToBytesContract.

(** C8, as stated, fails: the text of ["1"], 309 zeros and ["b"] is a
    non-empty string of the accepted form with a known unit, and the call
    raises, the float being the infinity. *)
Lemma size_to_bytes_raises_on_huge_number :
  is_raise (Utils.size_to_bytes (VStr Examples.huge_size)) = true
  /\ ~ ((forall s, VStr Examples.huge_size <> VStr s)
        \/ VStr Examples.huge_size = VStr ""
        \/ (exists s, VStr Examples.huge_size = VStr s
                      /\ ~ exists number unit, Utils.of_the_form s number unit)
        \/ (exists s number unit,
              VStr Examples.huge_size = VStr s /\ Utils.of_the_form s number unit
              /\ ~ Utils.known_unit unit)).
Proof.
  split; [vm_compute; reflexivity|].
  intros [H | [H | [(s & Hs & H) | (s & number & unit & Hs & Hform & Hunknown)]]].
  - apply (H Examples.huge_size). reflexivity.
  - vm_compute in H. discriminate.
  - injection Hs as <-. apply H.
    exists ("1" ++ Examples.zeros 309), "b".
    split; [|split; [discriminate | split; [reflexivity|]]].
    + exists ("1" ++ Examples.zeros 309).
      split; [vm_compute; discriminate | split; [vm_compute; reflexivity | left; reflexivity]].
    + exists "". split; [reflexivity | vm_compute; reflexivity].
  - injection Hs as <-. apply Hunknown.
    assert (H : Utils.regex_match (Utils.strip (Utils.lower Examples.huge_size))
                = Some (number, Utils.lower unit)).
    { apply regex_match_form. exists unit. auto. }
    assert (Hparse : Utils.regex_match (Utils.strip (Utils.lower Examples.huge_size))
                     = Some ("1" ++ Examples.zeros 309, "b"))
      by (vm_compute; reflexivity).
    rewrite Hparse in H. injection H as _ Hunit.
    left. rewrite <- Hunit. vm_compute. discriminate.
Qed.

Lemma size_to_bytes_contract_witness :
  Utils.lower "1 GIGABYTE" = Utils.lower "1 gigabyte"
  /\ Utils.size_to_bytes (VStr "1 GIGABYTE") = Utils.size_to_bytes (VStr "1 gigabyte")
  /\ Utils.size_to_bytes (VStr "1 gigabyte") = Ok (1024 ^ 3)%Z
  /\ is_raise (Utils.size_to_bytes (VStr "1 furlong")) = true.
Proof.
  assert (Hlower : Utils.lower "1 GIGABYTE" = Utils.lower "1 gigabyte") by reflexivity.
  split; [exact Hlower | split; [|split]].
  - exact (proj1 (proj2 size_to_bytes_contract) "1 GIGABYTE" "1 gigabyte" Hlower).
  - vm_compute. reflexivity.
  - apply (proj2 (proj2 size_to_bytes_contract)). do 3 right. left.
    exists "1 furlong", "1", "furlong".
    split; [reflexivity | split].
    + split; [|split; [discriminate | split; [reflexivity|]]].
      * exists "1". split; [discriminate | split; [reflexivity | left; reflexivity]].
      * exists " ". split; reflexivity.
    + intros [H | H]; apply H; reflexivity.
Defined.

(* ===================================================================== *)
(** * Properties of the event bus *)
(* ===================================================================== *)

Section BusProperties.
Import Events.

Lemma subscribed_subscribe (bus : EventBus) (event_name : string) (callback : Callback)
    (once : bool) (n : string) (item : bool * Callback) :
  subscribed (subscribe bus event_name callback once) n item <->
  subscribed bus n item \/ (n = event_name /\ item = (once, callback)).
Proof.
  unfold subscribed, subscribe. destruct (decide (n = event_name)) as [-> | Hne].
  - rewrite lookup_insert_eq. cbn. rewrite elem_of_union, elem_of_singleton.
    split; intros [H | H]; auto. destruct H as [_ H]. auto.
  - rewrite lookup_insert_ne by congruence. split; [auto|]. intros [H | [H _]]; [exact H | contradiction].
Qed.

Lemma subscribed_unsubscribe (bus : EventBus) (event_name : string) (callback : Callback)
    (n : string) (item : bool * Callback) :
  subscribed (unsubscribe bus event_name callback) n item <->
  subscribed bus n item /\ ~ (n = event_name /\ snd item = callback).
Proof.
  unfold subscribed, unsubscribe.
  destruct (bus !! event_name) as [subscribers|] eqn:Hsubs.
  - destruct (decide (filter (fun item0 : bool * Callback => snd item0 <> callback) subscribers = ∅))
      as [Hempty | Hkept].
    + destruct (decide (n = event_name)) as [-> | Hne].
      * rewrite lookup_delete_eq, Hsubs. simpl. split.
        -- intros H. apply elem_of_empty in H. contradiction.
        -- intros [Hin Hnot]. exfalso.
           assert (Hf : item ∈ filter (fun item0 : bool * Callback => snd item0 <> callback) subscribers).
           { apply elem_of_filter. split; [|exact Hin]. intros E. apply Hnot. auto. }
           rewrite Hempty in Hf. apply elem_of_empty in Hf. exact Hf.
      * rewrite lookup_delete_ne by congruence. split; [|tauto].
        intros H. split; [exact H|]. intros [E _]. contradiction.
    + destruct (decide (n = event_name)) as [-> | Hne].
      * rewrite lookup_insert_eq, Hsubs. simpl. rewrite elem_of_filter. split.
        -- intros [H1 H2]. split; [exact H2|]. intros [_ E]. contradiction.
        -- intros [H1 H2]. split; [|exact H1]. intros E. apply H2. auto.
      * rewrite lookup_insert_ne by congruence. split; [|tauto].
        intros H. split; [exact H|]. intros [E _]. contradiction.
  - split; [|tauto]. intros H. split; [exact H|]. intros [-> _].
    rewrite Hsubs in H. simpl in H. apply elem_of_empty in H. exact H.
Qed.

Lemma no_empty_key_step (bus : EventBus) (op : bus_op) :
  no_empty_key bus -> no_empty_key (bus_step bus op).
Proof.
  assert (Hun : forall b n c, no_empty_key b -> no_empty_key (unsubscribe b n c)).
  { intros b n c Hb m subs. unfold unsubscribe.
    destruct (b !! n) as [s|] eqn:Hs; [|apply Hb].
    destruct (decide (filter (fun item0 : bool * Callback => snd item0 <> c) s = ∅)) as [He | Hk].
    - destruct (decide (m = n)) as [-> | Hne].
      + rewrite lookup_delete_eq. discriminate.
      + rewrite lookup_delete_ne by congruence. apply Hb.
    - destruct (decide (m = n)) as [-> | Hne].
      + rewrite lookup_insert_eq. intros [= <-]. exact Hk.
      + rewrite lookup_insert_ne by congruence. apply Hb. }
  intros Hbus. destruct op as [n c o | n c | c ev o]; cbn [bus_step].
  - intros m subs. unfold subscribe. destruct (decide (m = n)) as [-> | Hne].
    + rewrite lookup_insert_eq. intros [= <-] E.
      assert (H : (o, c) ∈ default ∅ (bus !! n) ∪ ({[ (o, c) ]} : gset (bool * Callback))).
      { apply elem_of_union. right. apply elem_of_singleton. reflexivity. }
      rewrite E in H. apply elem_of_empty in H. exact H.
    + rewrite lookup_insert_ne by congruence. apply Hbus.
  - apply Hun, Hbus.
  - unfold _handle_callback. cbn [fst]. destruct o; [apply Hun, Hbus | exact Hbus].
Qed.

Lemma no_empty_key_run (ops : list bus_op) (bus : EventBus) :
  no_empty_key bus -> no_empty_key (fold_left bus_step ops bus).
Proof.
  revert bus. induction ops as [|op rest IH]; intros bus Hbus; cbn [fold_left].
  - exact Hbus.
  - apply IH, no_empty_key_step, Hbus.
Qed.

Lemma elem_of_emit (bus : EventBus) (n : string) (d : option kwargs) (s : option string)
    (task : Task) :
  task ∈ emit bus n d s <->
  task_event task = {| name := n; data := d; source := s |}
  /\ subscribed bus n (task_once task, task_callback task).
Proof.
  unfold emit, subscribed. destruct (bus !! n) as [subs|]; simpl.
  - rewrite list_elem_of_fmap. split.
    + intros [[o c] [-> Hin]]. cbn. split; [reflexivity|]. apply elem_of_elements. exact Hin.
    + intros [He Hin]. exists (task_once task, task_callback task). split.
      * destruct task as [c e o]. cbn in *. subst e. reflexivity.
      * apply elem_of_elements. exact Hin.
  - split.
    + intros H. inversion H.
    + intros [_ H]. apply elem_of_empty in H. contradiction.
Qed.

(** X1.  Whatever subscriptions, unsubscriptions and handled callbacks a
    fresh bus has seen, an event name is a key of its subscribers exactly
    when some pair is subscribed to it: no key is left with an empty set.
    So [emit] creates no task exactly for the names that are not keys. *)
Theorem bus_keys_have_subscribers (ops : list bus_op) (event_name : string)
    (event_data : option kwargs) (event_source : option string) :
  let bus := fold_left bus_step ops new_bus in
  (is_Some (bus !! event_name) <-> exists item, subscribed bus event_name item)
  /\ (emit bus event_name event_data event_source = [] <-> bus !! event_name = None).
Proof.
  intros bus.
  assert (Hinv : no_empty_key bus).
  { apply no_empty_key_run. intros n subs. unfold new_bus. rewrite lookup_empty. discriminate. }
  split.
  - unfold subscribed. split.
    + intros [subs Hs]. rewrite Hs. simpl.
      apply set_choose_L. apply (Hinv _ _ Hs).
    + intros [item Hitem]. destruct (bus !! event_name) as [subs|]; [eauto|].
      simpl in Hitem. apply elem_of_empty in Hitem. contradiction.
  - unfold emit. destruct (bus !! event_name) as [subs|] eqn:Hs.
    + split; [|discriminate]. intros E. exfalso.
      apply fmap_nil_inv in E. apply elements_empty_inv in E.
      apply (Hinv _ _ Hs). apply leibniz_equiv. exact E.
    + split; reflexivity.
Qed.


Lemma unsubscribe_other_key (bus : EventBus) (event_name : string) (callback : Callback)
    (n : string) :
  n <> event_name -> unsubscribe bus event_name callback !! n = bus !! n.
Proof.
  intros Hne. unfold unsubscribe. destruct (bus !! event_name) as [subs|]; [|reflexivity].
  destruct (decide _).
  - apply lookup_delete_ne. congruence.
  - apply lookup_insert_ne. congruence.
Qed.

(** X2.  [unsubscribe(event_name, callback)] removes the pairs of the
    callback under that event, the one-time and the persistent one alike,
    and nothing else: every other pair, under this or another event, stays
    subscribed.  A later [emit] of the event creates no task for the
    callback. *)
Theorem unsubscribe_removes_callback (bus : EventBus) (event_name : string)
    (callback : Callback) :
  (forall n item,
      subscribed (unsubscribe bus event_name callback) n item <->
      subscribed bus n item /\ ~ (n = event_name /\ snd item = callback))
  /\ (forall once, ~ subscribed (unsubscribe bus event_name callback) event_name
                                (once, callback))
  /\ (forall event_data event_source task,
        task ∈ emit (unsubscribe bus event_name callback) event_name event_data event_source ->
        task_callback task <> callback).
Proof.
  split; [|split].
  - intros n item. apply subscribed_unsubscribe.
  - intros once H. apply subscribed_unsubscribe in H. destruct H as [_ H]. apply H. auto.
  - intros d s task H E. apply elem_of_emit in H. destruct H as [_ H].
    apply subscribed_unsubscribe in H. destruct H as [_ H]. apply H. auto.
Qed.

(** X3.  Subscribing a callback that has no subscription to the event yet
    and unsubscribing it again gives back the bus as it was, the key of the
    event included. *)
Theorem subscribe_unsubscribe_round_trip (bus : EventBus) (event_name : string)
    (callback : Callback) (once : bool) :
  bus !! event_name <> Some ∅ ->
  (forall o, ~ subscribed bus event_name (o, callback)) ->
  unsubscribe (subscribe bus event_name callback once) event_name callback = bus.
Proof.
  intros Hne Hnew. unfold unsubscribe, subscribe. rewrite lookup_insert_eq.
  set (subs := default ∅ (bus !! event_name)).
  assert (Hfilter : filter (fun item : bool * Callback => snd item <> callback)
                           (subs ∪ {[ (once, callback) ]}) = subs).
  { apply set_eq. intros [o c]. rewrite elem_of_filter, elem_of_union, elem_of_singleton.
    cbn [snd]. split.
    - intros [Hc [H | H]]; [exact H|]. injection H as _ ->. contradiction.
    - intros H. split; [|left; exact H]. intros ->. apply (Hnew o). exact H. }
  rewrite Hfilter. subst subs.
  destruct (bus !! event_name) as [s|] eqn:Hs; simpl.
  - destruct (decide (s = ∅)) as [-> | Hk]; [contradiction|].
    rewrite insert_insert_eq. apply insert_id. exact Hs.
  - destruct (decide ((∅ : gset (bool * Callback)) = ∅)) as [_ | Hk]; [|contradiction].
    rewrite delete_insert_eq. apply delete_id. exact Hs.
Qed.

(** X4.  The task of a one-time subscription, when it runs, awaits the
    callback and unsubscribes it from the event: a later [emit] of the
    event creates no task for this callback, not even for a persistent
    subscription of the same callback, while the tasks of the other
    callbacks, and those of the other events, are created as before. *)
Theorem once_task_unsubscribes (bus : EventBus) (event_name : string)
    (event_data : option kwargs) (event_source : option string) (task : Task) :
  task ∈ emit bus event_name event_data event_source ->
  task_once task = true ->
  let bus' := fst (run_task bus task) in
  snd (run_task bus task) = task_callback task
  /\ (forall d s task', task' ∈ emit bus' event_name d s ->
                        task_callback task' <> task_callback task)
  /\ (forall d s task', task' ∈ emit bus event_name d s ->
                        task_callback task' <> task_callback task ->
                        task' ∈ emit bus' event_name d s)
  /\ (forall n d s, n <> event_name -> emit bus' n d s = emit bus n d s).
Proof.
  intros Hin Honce bus'. subst bus'.
  apply elem_of_emit in Hin. destruct Hin as [Hev _].
  unfold run_task, _handle_callback. rewrite Honce, Hev. cbn [fst snd name].
  split; [reflexivity | split; [|split]].
  - intros d s task' H E. apply elem_of_emit in H. destruct H as [_ H].
    apply subscribed_unsubscribe in H. destruct H as [_ H]. apply H. auto.
  - intros d s task' H Hc. apply elem_of_emit in H. destruct H as [He H].
    apply elem_of_emit. split; [exact He|]. apply subscribed_unsubscribe.
    split; [exact H|]. intros [_ E]. apply Hc. exact E.
  - intros n d s Hne. unfold emit. rewrite unsubscribe_other_key by exact Hne. reflexivity.
Qed.

End BusProperties.

Lemma subscribe_unsubscribe_round_trip_witness :
  let bus := Events.subscribe Events.new_bus "host_started" (Some (UserFunc 1)) false in
  Events.unsubscribe (Events.subscribe bus "host_started" (Some (UserFunc 2)) true)
                     "host_started" (Some (UserFunc 2))
  = bus.
Proof.
  intros bus.
  apply (subscribe_unsubscribe_round_trip bus "host_started" (Some (UserFunc 2)) true).
  - vm_compute. discriminate.
  - intros o H. destruct o; vm_compute in H; discriminate.
Defined.

Lemma once_task_unsubscribes_witness :
  let callback := Some (UserFunc 1) in
  let bus := Events.subscribe (Events.subscribe Events.new_bus "feature_on" callback true)
                              "feature_on" callback false in
  let task := {| Events.task_callback := callback;
                 Events.task_event := {| Events.name := "feature_on"; Events.data := None;
                                         Events.source := None |};
                 Events.task_once := true |} in
  task ∈ Events.emit bus "feature_on" None None
  /\ length (Events.emit bus "feature_on" None None) = 2%nat
  /\ forall d s task', task' ∈ Events.emit (fst (Events.run_task bus task)) "feature_on" d s ->
                       Events.task_callback task' <> callback.
Proof.
  intros callback bus task.
  assert (Hin : task ∈ Events.emit bus "feature_on" None None).
  { vm_compute. first [apply list_elem_of_here | apply list_elem_of_further, list_elem_of_here]. }
  split; [exact Hin | split; [reflexivity|]].
  exact (proj1 (proj2 (once_task_unsubscribes bus "feature_on" None None task Hin eq_refl))).
Defined.

(* ===================================================================== *)
(** * Properties of the scenarios: [time_duration] and [relay_to_other_metric] *)
(* ===================================================================== *)

Section Uptime.
Import Storage.
Import Metrics.
Import Scenarios.

Lemma time_duration_started (context : MetricContext) (t0 current_time : Q) :
  storage context !! "uptime_start" = Some (VNum t0) ->
  time_duration context current_time
  = {| returned := Ok (Some (current_time - t0)); stored := storage context;
       emitted := []; logged := [] |}.
Proof.
  intros H. unfold time_duration, get. rewrite H. reflexivity.
Qed.

Lemma time_duration_calls_started (context : MetricContext) (t0 : Q) (times : list Q) :
  storage context !! "uptime_start" = Some (VNum t0) ->
  time_duration_calls context times = map (fun t => Ok (Some (t - t0))) times.
Proof.
  revert context. induction times as [|t rest IH]; intros context H; cbn [time_duration_calls map].
  - reflexivity.
  - rewrite (time_duration_started context t0 t H). cbn [returned stored]. f_equal.
    apply IH. exact H.
Qed.

(** X5.  On a storage without start, the first invocation of
    [time_duration] returns 0 and stores its clock reading [t0]; every later
    invocation returns its own reading minus [t0] and leaves the storage as
    it is, so the start is written once. *)
Theorem time_duration_uptime (context : MetricContext) (t0 : Q) (times : list Q) :
  get "uptime_start" VNone (storage context) = VNone ->
  time_duration_calls context (t0 :: times)
  = Ok (Some 0) :: map (fun t => Ok (Some (t - t0))) times
  /\ stored (time_duration context t0) = set "uptime_start" (VNum t0) (storage context)
  /\ (forall t, stored (time_duration (with_storage context (stored (time_duration context t0))) t)
               = stored (time_duration context t0)).
Proof.
  intros H.
  assert (Hfirst : time_duration context t0
                   = {| returned := Ok (Some 0);
                        stored := set "uptime_start" (VNum t0) (storage context);
                        emitted := []; logged := [] |}).
  { unfold time_duration. rewrite H. reflexivity. }
  split; [|split].
  - cbn [time_duration_calls]. rewrite Hfirst. cbn [returned stored]. f_equal.
    apply time_duration_calls_started. cbn [storage with_storage]. unfold set.
    apply lookup_insert_eq.
  - rewrite Hfirst. reflexivity.
  - intros t. rewrite Hfirst. cbn [stored].
    rewrite (time_duration_started _ t0 t); [reflexivity|].
    cbn [storage with_storage]. unfold set. apply lookup_insert_eq.
Qed.

End Uptime.

Lemma time_duration_uptime_witness :
  Scenarios.time_duration_calls (Examples.memory_context None ∅) [1000; 1015; 1030]
  = [Ok (Some 0); Ok (Some (1015 - 1000)); Ok (Some (1030 - 1000))].
Proof.
  exact (proj1 (time_duration_uptime (Examples.memory_context None ∅) 1000 [1015; 1030]
                                     eq_refl)).
Defined.

Section Relay.
Import Storage.
Import Metrics.
Import Scenarios.
Import Utils.

Lemma calc_percent_usage_bounds (context : MetricContext) (r : Q) :
  calc_percent_usage context = Ok (Some r) -> 0 <= r /\ r <= 100.
Proof.
  unfold calc_percent_usage. destruct (value context) as [v|]; [|discriminate].
  destruct (value_range (data context)) as [lo hi].
  destruct (Qleb hi lo) eqn:E; [discriminate|]. apply Qleb_gt in E.
  intros [= <-].
  assert (Hle : lo <= hi) by lra.
  set (c := py_max lo (py_min hi v)).
  assert (Hc : lo <= c /\ c <= hi).
  { subst c. destruct (py_clamp_spec lo hi v Hle) as [[H1 H2] | [[H1 H2] | (H1 & H2 & H3)]];
      rewrite ?H2, ?H3; lra. }
  assert (Hd : 0 < hi - lo) by lra.
  assert (Hratio : 0 <= (c - lo) / (hi - lo) /\ (c - lo) / (hi - lo) <= 1).
  { split.
    - apply Qle_shift_div_l; [exact Hd | lra].
    - apply Qle_shift_div_r; [exact Hd | lra]. }
  split; lra.
Qed.

(** X6.  [relay_to_other_metric] with [calc_percent_usage] never raises and
    never writes the storage.  Without a link of the given name it returns
    the metric's own value and logs an error; with a source that has no
    value yet it returns nil; with a source value and a range [min < max]
    it returns a percentage between 0 and 100; with a source value and a
    range [min >= max] it returns the metric's own value and logs the
    error. *)
Theorem relay_percent_usage (context : MetricContext) (source_metric_name : string) :
  let out := relay_to_other_metric context source_metric_name calc_percent_usage in
  stored out = storage context
  /\ emitted out = []
  /\ (links_get source_metric_name (links context) = None ->
      returned out = Ok (value context)
      /\ logged out = [error_record "Source metric is not provided!"])
  /\ (forall source, links_get source_metric_name (links context) = Some source ->
        (value source = None -> returned out = Ok None /\ logged out = [])
        /\ (forall v, value source = Some v ->
              (fst (value_range (data source)) < snd (value_range (data source)) ->
               exists r, returned out = Ok (Some r) /\ 0 <= r /\ r <= 100 /\ logged out = [])
              /\ (snd (value_range (data source)) <= fst (value_range (data source)) ->
                  returned out = Ok (value context)
                  /\ logged out = [error_record "Error occurred while relaying to metric"]))).
Proof.
  intros out. subst out. unfold relay_to_other_metric.
  destruct (links_get source_metric_name (links context)) as [source|].
  - destruct (calc_percent_usage source) as [r|e] eqn:Hcalc;
      (split; [reflexivity | split; [reflexivity | split; [discriminate|]]]);
      intros source' [= <-]; split.
    + intros Hv. unfold calc_percent_usage in Hcalc. rewrite Hv in Hcalc.
      injection Hcalc as <-. auto.
    + intros v Hv. split.
      * intros Hr. destruct r as [r|].
        -- destruct (calc_percent_usage_bounds _ _ Hcalc). exists r. auto.
        -- exfalso. unfold calc_percent_usage in Hcalc. rewrite Hv in Hcalc.
           destruct (value_range (data source)) as [lo hi]. cbn [fst snd] in Hr.
           destruct (Qleb hi lo); discriminate.
      * intros Hr. exfalso. unfold calc_percent_usage in Hcalc. rewrite Hv in Hcalc.
        destruct (value_range (data source)) as [lo hi]. cbn [fst snd] in Hr.
        apply Qleb_le in Hr. rewrite Hr in Hcalc. discriminate.
    + intros Hv. exfalso. unfold calc_percent_usage in Hcalc. rewrite Hv in Hcalc. discriminate.
    + intros v Hv. split.
      * intros Hr. exfalso. unfold calc_percent_usage in Hcalc. rewrite Hv in Hcalc.
        destruct (value_range (data source)) as [lo hi]. cbn [fst snd] in Hr.
        apply Qleb_gt in Hr. rewrite Hr in Hcalc. discriminate.
      * intros _. auto.
  - split; [reflexivity | split; [reflexivity | split; [auto|]]]. intros source [=].
Qed.

End Relay.

(* ===================================================================== *)
(** * Properties of the scenarios: [variety_selection] *)
(* ===================================================================== *)

Section Variety.
Import Storage.
Import Metrics.
Import Scenarios.

Lemma weighted_choice_range (weights : list Q) (r : Q) :
  forall c k i, weighted_choice weights r c k = Some i ->
                (k <= i)%nat /\ (i < k + length weights)%nat.
Proof.
  induction weights as [|w rest IH]; intros c k i H; cbn [weighted_choice] in H.
  - discriminate.
  - destruct (Qleb r (c + w)).
    + injection H as <-. cbn [length]. lia.
    + apply IH in H. cbn [length]. lia.
Qed.

(** The weight at the chosen index carries the running total past the draw. *)
Lemma weighted_choice_positive (weights : list Q) (r : Q) :
  forall c k i, c < r -> weighted_choice weights r c k = Some i ->
                exists w, weights !! (i - k)%nat = Some w /\ 0 < w.
Proof.
  induction weights as [|w rest IH]; intros c k i Hc H; cbn [weighted_choice] in H.
  - discriminate.
  - destruct (Qleb r (c + w)) eqn:E.
    + injection H as <-. replace (k - k)%nat with 0%nat by lia.
      exists w. split; [reflexivity|]. apply Qleb_le in E. lra.
    + apply Qleb_gt in E. pose proof (weighted_choice_range _ _ _ _ _ H) as [Hk _].
      destruct (IH _ _ _ E H) as (w' & Hw' & Hpos).
      exists w'. split; [|exact Hpos].
      replace (i - k)%nat with (S (i - S k)) by lia. exact Hw'.
Qed.

Lemma weighted_choice_found (weights : list Q) (r : Q) :
  forall c k, c < r -> r <= fold_left Qplus weights c ->
              exists i, weighted_choice weights r c k = Some i.
Proof.
  induction weights as [|w rest IH]; intros c k Hc Hr; cbn [weighted_choice fold_left] in *.
  - exfalso. lra.
  - destruct (Qleb r (c + w)) eqn:E; [eauto|].
    apply Qleb_gt in E. apply IH; assumption.
Qed.

Lemma fold_left_Qplus_proper (l : list Q) :
  forall a b, a == b -> fold_left Qplus l a == fold_left Qplus l b.
Proof.
  induction l as [|x rest IH]; intros a b H; cbn [fold_left].
  - exact H.
  - apply IH. rewrite H. reflexivity.
Qed.

Lemma fold_left_normalized (t : Q) (l : list Q) :
  ~ t == 0 ->
  forall a b, b == a / t ->
              fold_left Qplus (map (fun w => w / t) l) b == fold_left Qplus l a / t.
Proof.
  intros Ht. induction l as [|x rest IH]; intros a b H; cbn [fold_left map].
  - exact H.
  - apply IH. rewrite H. field. exact Ht.
Qed.

Lemma fold_left_nonneg (l : list Q) :
  Forall (fun w => 0 <= w) l -> forall a, a <= fold_left Qplus l a.
Proof.
  induction 1 as [|x rest Hx Hrest IH]; intros a; cbn [fold_left].
  - apply Qle_refl.
  - specialize (IH (a + x)). lra.
Qed.

Lemma negative_weight (varieties : list Q) :
  existsb (fun w => Qltb w 0) varieties = true <-> exists w, w ∈ varieties /\ w < 0.
Proof.
  rewrite existsb_exists. split.
  - intros (w & Hin & Hw). exists w. split; [apply list_elem_of_In; exact Hin | apply Qltb_lt; exact Hw].
  - intros (w & Hin & Hw). exists w. split; [apply list_elem_of_In; exact Hin | apply Qltb_lt; exact Hw].
Qed.

Lemma no_negative_weight (varieties : list Q) :
  existsb (fun w => Qltb w 0) varieties = false -> Forall (fun w => 0 <= w) varieties.
Proof.
  intros H. apply Forall_forall. intros w Hin.
  destruct (Qlt_le_dec w 0) as [Hneg | Hok]; [|exact Hok].
  exfalso. assert (E : existsb (fun w => Qltb w 0) varieties = true).
  { apply negative_weight. eauto. }
  congruence.
Qed.

Lemma as_index_nat (i : nat) : as_index (VNum (inject_Z (Z.of_nat i))) = Some (Z.of_nat i).
Proof.
  unfold as_index. rewrite Qfloor_Z.
  assert (E : Qeqb (inject_Z (Z.of_nat i)) (inject_Z (Z.of_nat i)) = true)
    by (apply Qeqb_eq; reflexivity).
  rewrite E. reflexivity.
Qed.

Lemma py_index_nat {A : Type} (l : list A) (i : nat) :
  (i < length l)%nat -> py_index l (Z.of_nat i) = l !! i.
Proof.
  intros H. unfold py_index.
  assert (E : ((0 <=? Z.of_nat i) && (Z.of_nat i <? Z.of_nat (length l)))%Z = true).
  { apply andb_true_intro. split; [apply Z.leb_le; lia | apply Z.ltb_lt; lia]. }
  rewrite E, Nat2Z.id. reflexivity.
Qed.

(** What the call does once its arguments have passed the checks. *)
Lemma variety_selection_checked (context : MetricContext) (values varieties : list Q)
    (p r1 r2 : Q) :
  length values = length varieties ->
  Forall (fun w => 0 <= w) varieties ->
  0 <= p -> p <= 1 -> ~ py_sum varieties == 0 ->
  variety_selection context values varieties p r1 r2
  = let st := storage context in
    let current_index := get "variety_index" (VNum 0) st in
    let '(current_index, st) :=
      if Qltb r1 p then
        let current_index :=
          match weighted_choice (map (fun w => w / py_sum varieties) varieties) r2 0 0 with
          | Some i => VNum (inject_Z (Z.of_nat i))
          | None => current_index
          end in
        (current_index, set "variety_index" current_index st)
      else (current_index, st) in
    match as_index current_index with
    | None => Selected {| returned := Raise (TypeError "list indices must be integers");
                          stored := st; emitted := []; logged := [] |}
    | Some i =>
        match py_index values i with
        | None => IndexError st
        | Some v => Selected {| returned := Ok (Some v); stored := st;
                                emitted := []; logged := [] |}
        end
    end.
Proof.
  intros Hlen Hnonneg Hp0 Hp1 Hsum. unfold variety_selection.
  rewrite Hlen, Nat.eqb_refl. cbn [negb].
  assert (E1 : existsb (fun w => Qltb w 0) varieties = false).
  { destruct (existsb _ varieties) eqn:E; [|reflexivity].
    apply negative_weight in E. destruct E as (w & Hin & Hw).
    rewrite Forall_forall in Hnonneg. specialize (Hnonneg w Hin). lra. }
  rewrite E1.
  assert (E2 : Qleb 0 p && Qleb p 1 = true).
  { apply andb_true_intro. split; apply Qleb_le; assumption. }
  rewrite E2. cbn [negb].
  assert (E3 : Qeqb (py_sum varieties) 0 = false).
  { destruct (Qeqb (py_sum varieties) 0) eqn:E; [|reflexivity].
    apply Qeqb_eq in E. contradiction. }
  rewrite E3. reflexivity.
Qed.

(** X7.  On a storage whose selection index, if any, is an index of
    [values], [variety_selection] raises a [ValueError], leaving the
    storage as it was, when the two lists differ in length, a weight is
    negative, the change probability is outside [[0, 1]] or the weights add
    up to zero, which covers the empty lists; in every other case it
    returns a member of [values], never fails on the index, keeps the
    stored index an index of [values], and leaves the storage untouched
    when the first draw is not below the change probability. *)
Theorem variety_selection_total (context : MetricContext) (values varieties : list Q)
    (change_probability change_draw rand_value : Q) :
  variety_index_valid (storage context) (length values) ->
  let result :=
    variety_selection context values varieties change_probability change_draw rand_value in
  let invalid :=
    length values <> length varieties \/ (exists w, w ∈ varieties /\ w < 0)
    \/ change_probability < 0 \/ 1 < change_probability \/ py_sum varieties == 0 in
  (invalid ->
   exists site,
     result = Selected {| returned := Raise (ValueError site); stored := storage context;
                          emitted := []; logged := [] |})
  /\ (~ invalid ->
      exists v st,
        result = Selected {| returned := Ok (Some v); stored := st;
                             emitted := []; logged := [] |}
        /\ v ∈ values
        /\ variety_index_valid st (length values)
        /\ (change_probability <= change_draw -> st = storage context)).
Proof.
  intros Hvalid result invalid. subst result invalid. split.
  - intros Hbad. unfold variety_selection.
    destruct (Nat.eqb (length values) (length varieties)) eqn:Elen; cbn [negb]; [|eauto].
    destruct (existsb (fun w => Qltb w 0) varieties) eqn:Eneg; [eauto|].
    destruct (Qleb 0 change_probability && Qleb change_probability 1) eqn:Ep; cbn [negb]; [|eauto].
    destruct (Qeqb (py_sum varieties) 0) eqn:Esum; [eauto|].
    exfalso. apply Nat.eqb_eq in Elen. apply andb_prop in Ep. destruct Ep as [Ep0 Ep1].
    apply Qleb_le in Ep0, Ep1.
    destruct Hbad as [H | [H | [H | [H | H]]]].
    + contradiction.
    + apply negative_weight in H. congruence.
    + lra.
    + lra.
    + apply Qeqb_eq in H. congruence.
  - intros Hok.
    assert (Hlen : length values = length varieties).
    { destruct (Nat.eq_dec (length values) (length varieties)); [assumption|]. exfalso. auto. }
    assert (Hnonneg : Forall (fun w => 0 <= w) varieties).
    { apply no_negative_weight. destruct (existsb _ varieties) eqn:E; [|reflexivity].
      exfalso. apply Hok. right. left. apply negative_weight. exact E. }
    assert (Hp0 : 0 <= change_probability).
    { destruct (Qlt_le_dec change_probability 0); [exfalso; auto 10 | assumption]. }
    assert (Hp1 : change_probability <= 1).
    { destruct (Qlt_le_dec 1 change_probability); [exfalso; auto 10 | assumption]. }
    assert (Hsum : ~ py_sum varieties == 0) by (intros E; apply Hok; auto 10).
    rewrite (variety_selection_checked _ _ _ _ _ _ Hlen Hnonneg Hp0 Hp1 Hsum). cbv zeta.
    assert (Hsome : (0 < length values)%nat).
    { destruct varieties as [|w ws]; [exfalso; apply Hsum; reflexivity|].
      rewrite Hlen. cbn [length]. lia. }
    (* the index read from the storage is one of the list *)
    assert (Hcurrent : exists i, get "variety_index" (VNum 0) (storage context)
                                 = VNum (inject_Z (Z.of_nat i)) /\ (i < length values)%nat).
    { unfold get. destruct (storage context !! "variety_index") as [v|] eqn:Hv.
      - apply Hvalid. exact Hv.
      - exists 0%nat. split; [reflexivity | exact Hsome]. }
    destruct Hcurrent as (i0 & Hi0 & Hi0lt).
    destruct (Qltb change_draw change_probability) eqn:Edraw.
    + assert (Hnew : exists i,
                 match weighted_choice (map (fun w => w / py_sum varieties) varieties)
                                       rand_value 0 0 with
                 | Some i => VNum (inject_Z (Z.of_nat i))
                 | None => get "variety_index" (VNum 0) (storage context)
                 end = VNum (inject_Z (Z.of_nat i)) /\ (i < length values)%nat).
      { destruct (weighted_choice _ rand_value 0 0) as [i|] eqn:Hchoice.
        - exists i. split; [reflexivity|].
          apply weighted_choice_range in Hchoice. rewrite length_map in Hchoice. lia.
        - exists i0. auto. }
      destruct Hnew as (i & Hi & Hilt). rewrite Hi, as_index_nat, (py_index_nat _ _ Hilt).
      destruct (lookup_lt_is_Some_2 values i Hilt) as [v Hv]. rewrite Hv.
      exists v, (set "variety_index" (VNum (inject_Z (Z.of_nat i))) (storage context)).
      split; [reflexivity | split; [|split]].
      * apply (list_elem_of_lookup_2 _ _ _ Hv).
      * intros v'. unfold set. rewrite lookup_insert_eq. intros [= <-]. eauto.
      * intros Hge. apply Qltb_lt in Edraw. exfalso. lra.
    + rewrite Hi0, as_index_nat, (py_index_nat _ _ Hi0lt).
      destruct (lookup_lt_is_Some_2 values i0 Hi0lt) as [v Hv]. rewrite Hv.
      exists v, (storage context).
      split; [reflexivity | split; [|split]].
      * apply (list_elem_of_lookup_2 _ _ _ Hv).
      * exact Hvalid.
      * reflexivity.
Qed.

(** X8.  With valid arguments, a first draw below the change probability
    and a second draw in [(0, 1)], [variety_selection] selects an index
    whose weight is positive, stores it and returns the value at it: a
    value of weight zero is not selected. *)
Theorem variety_selection_positive_weight (context : MetricContext)
    (values varieties : list Q) (change_probability change_draw rand_value : Q) :
  length values = length varieties ->
  Forall (fun w => 0 <= w) varieties ->
  ~ py_sum varieties == 0 ->
  change_probability <= 1 ->
  0 <= change_draw -> change_draw < change_probability ->
  0 < rand_value -> rand_value < 1 ->
  exists i v w,
    variety_selection context values varieties change_probability change_draw rand_value
    = Selected {| returned := Ok (Some v);
                  stored := set "variety_index" (VNum (inject_Z (Z.of_nat i)))
                                (storage context);
                  emitted := []; logged := [] |}
    /\ values !! i = Some v
    /\ varieties !! i = Some w
    /\ 0 < w.
Proof.
  intros Hlen Hnonneg Hsum Hp1 Hd0 Hd Hr0 Hr1.
  assert (Hp0 : 0 <= change_probability) by lra.
  rewrite (variety_selection_checked _ _ _ _ _ _ Hlen Hnonneg Hp0 Hp1 Hsum). cbv zeta.
  assert (Edraw : Qltb change_draw change_probability = true) by (apply Qltb_lt; exact Hd).
  rewrite Edraw.
  assert (Htotal : 0 < py_sum varieties).
  { pose proof (fold_left_nonneg varieties Hnonneg 0) as H. unfold py_sum in *.
    destruct (Qlt_le_dec 0 (fold_left Qplus varieties 0)); [assumption|].
    exfalso. apply Hsum. lra. }
  assert (Hone : fold_left Qplus (map (fun w => w / py_sum varieties) varieties) 0 == 1).
  { rewrite (fold_left_normalized (py_sum varieties) varieties Hsum 0 0).
    - unfold py_sum. field. exact Hsum.
    - field. exact Hsum. }
  destruct (weighted_choice_found (map (fun w => w / py_sum varieties) varieties)
              rand_value 0 0 Hr0) as [i Hchoice].
  { rewrite Hone. lra. }
  rewrite Hchoice.
  pose proof (weighted_choice_range _ _ _ _ _ Hchoice) as [_ Hilt].
  rewrite length_map in Hilt. cbn in Hilt.
  assert (Hilt' : (i < length values)%nat) by lia.
  destruct (weighted_choice_positive _ _ _ _ _ Hr0 Hchoice) as (nw & Hnw & Hpos).
  rewrite Nat.sub_0_r, list_lookup_fmap in Hnw.
  destruct (varieties !! i) as [w|] eqn:Hw; [|discriminate]. cbn in Hnw. injection Hnw as <-.
  rewrite as_index_nat, (py_index_nat _ _ Hilt').
  destruct (lookup_lt_is_Some_2 values i Hilt') as [v Hv]. rewrite Hv.
  exists i, v, w. split; [reflexivity | split; [exact Hv | split; [exact Hw|]]].
  destruct (Qlt_le_dec 0 w) as [Hgt | Hle]; [exact Hgt|]. exfalso.
  assert (H0 : 0 < / py_sum varieties) by (apply Qinv_lt_0_compat; exact Htotal).
  assert (H1 : 0 <= (- w) * / py_sum varieties) by (apply Qmult_le_0_compat; lra).
  assert (H2 : (- w) * / py_sum varieties == - (w / py_sum varieties)) by (unfold Qdiv; ring).
  lra.
Qed.

End Variety.

Lemma variety_selection_total_witness :
  Scenarios.variety_index_valid ∅ 0
  /\ exists site,
       Scenarios.variety_selection (Examples.memory_context None ∅) [] [] (1 # 10) (1 # 2) (1 # 2)
       = Scenarios.Selected
           {| Metrics.returned := Raise (ValueError site); Metrics.stored := ∅;
              Metrics.emitted := []; Metrics.logged := [] |}.
Proof.
  assert (Hvalid : Scenarios.variety_index_valid ∅ 0).
  { intros v H. rewrite lookup_empty in H. discriminate. }
  split; [exact Hvalid|].
  apply (proj1 (variety_selection_total (Examples.memory_context None ∅) [] []
                  (1 # 10) (1 # 2) (1 # 2) Hvalid)).
  do 4 right. vm_compute. reflexivity.
Defined.

Lemma variety_selection_positive_weight_witness :
  exists i v w,
    Scenarios.variety_selection (Examples.memory_context None ∅) [10; 20; 30] [0; 1; 3]
                                1 0 (1 # 8)
    = Scenarios.Selected
        {| Metrics.returned := Ok (Some v);
           Metrics.stored := Storage.set "variety_index" (VNum (inject_Z (Z.of_nat i))) ∅;
           Metrics.emitted := []; Metrics.logged := [] |}
    /\ [10; 20; 30] !! i = Some v
    /\ [0; 1; 3] !! i = Some w
    /\ 0 < w.
Proof.
  apply (variety_selection_positive_weight (Examples.memory_context None ∅)
           [10; 20; 30] [0; 1; 3] 1 0 (1 # 8)).
  - reflexivity.
  - repeat (apply List.Forall_cons || apply List.Forall_nil); vm_compute; discriminate.
  - vm_compute. discriminate.
  - vm_compute. discriminate.
  - vm_compute. discriminate.
  - vm_compute. reflexivity.
  - vm_compute. reflexivity.
  - vm_compute. reflexivity.
Defined.

(* ===================================================================== *)
(** * Properties of the emulated metric: settled values *)
(* ===================================================================== *)

Section SettledValues.
Import Storage.
Import Metrics.
Variable call : Callables.
Variable peers : gmap string EmulatedMetric.

(** The cut of a cut value is the value. *)
Lemma round_round (x : Q) (n : nat) : round (round x n) n == round x n.
Proof.
  apply (round_fixed (round_half_even (x * inject_Z (10 ^ Z.of_nat n))) n). reflexivity.
Qed.

(** The range check and the cut, applied to the cut of a value of the
    range, give that cut again, also when the cut has left the range. *)
Lemma check_and_cut_settled (r : Q * Q) (c : Q) :
  fst r <= snd r -> fst r <= c -> c <= snd r ->
  round (check_value_range r (round c 2)) 2 == round c 2.
Proof.
  intros Hr Hlo Hhi. unfold check_value_range.
  pose proof (round_round c 2) as Hfix.
  destruct (Qltb (round c 2) (fst r)) eqn:E1.
  - apply Qltb_lt in E1.
    pose proof (round_mono _ _ 2 Hlo) as H1.
    pose proof (round_mono _ _ 2 (Qlt_le_weak _ _ E1)) as H2.
    rewrite Hfix in H2. apply Qle_antisym; assumption.
  - destruct (Qltb (snd r) (round c 2)) eqn:E2; [|exact Hfix].
    apply Qltb_lt in E2.
    pose proof (round_mono _ _ 2 Hhi) as H1.
    pose proof (round_mono _ _ 2 (Qlt_le_weak _ _ E2)) as H2.
    rewrite Hfix in H2. apply Qle_antisym; assumption.
Qed.

Lemma checked_and_cut_idempotent (config : MetricConfig) (o : option Q) :
  fst (value_range config) <= snd (value_range config) ->
  option_Forall2 Qeq (checked_and_cut config (checked_and_cut config o))
                     (checked_and_cut config o).
Proof.
  intros Hr. destruct o as [x|]; cbn [checked_and_cut]; [|constructor].
  constructor.
  destruct (check_value_range_bounds (value_range config) x Hr) as [Hlo Hhi].
  apply check_and_cut_settled; assumption.
Qed.

(** X9.  A value that [update_value] has computed is settled: when the
    metric has no scenario, or its scenario raises or returns the current
    value, an event-driven update computes a value equal to the current
    one and stores it, also when the cut to two decimal places had taken
    the value out of the range. *)
Theorem update_value_settles (m : EmulatedMetric) (e : Events.Event) (now : Q)
    (clock : nat -> Q) (o : option Q) :
  fst (value_range (_config m)) <= snd (value_range (_config m)) ->
  _value m = checked_and_cut (_config m) o ->
  match scenario (_config m) with
  | None => True
  | Some f =>
      let out := call f (_build_metric_context peers m (Some e) clock)
                      (scenario_data (_config m)) in
      is_raise (returned out) = true \/ returned out = Ok (_value m)
  end ->
  let after := update_value call peers m (Some e) now clock in
  option_Forall2 Qeq (fst (fst after)) (_value m)
  /\ _value (snd (fst after)) = fst (fst after).
Proof.
  intros Hr Hvalue Hscenario after. subst after.
  unfold update_value. rewrite compute_value_spec. cbn [fst snd _value].
  split; [|reflexivity].
  assert (Hsame : fst (fst (_update_value_by_scenario call peers m (Some e) clock)) = _value m).
  { unfold _update_value_by_scenario. destruct (scenario (_config m)) as [f|]; [|reflexivity].
    cbv zeta in Hscenario.
    destruct (returned (call f _ _)) as [r|ex]; cbn [fst].
    - destruct Hscenario as [H | H]; [discriminate | congruence].
    - reflexivity. }
  rewrite Hsame, Hvalue. apply checked_and_cut_idempotent. exact Hr.
Qed.

End SettledValues.

Lemma update_value_settles_witness :
  let m := snd (fst (Metrics.update_value Examples.library ∅ Examples.narrow_metric None 2000
                                          (Examples.clock_at 2000))) in
  let after := Metrics.update_value Examples.library ∅ m (Some Examples.failing_event) 2001
                                    (Examples.clock_at 2001) in
  Metrics._value m = Some (round (1 # 16) 2)
  /\ option_Forall2 Qeq (fst (fst after)) (Metrics._value m)
  /\ Metrics._value (snd (fst after)) = fst (fst after).
Proof.
  intros m after.
  assert (Hr : fst (Metrics.value_range (Metrics._config m))
               <= snd (Metrics.value_range (Metrics._config m)))
    by (vm_compute; discriminate).
  assert (Hv : Metrics._value m = Metrics.checked_and_cut (Metrics._config m) (Some 0))
    by reflexivity.
  split; [reflexivity|].
  apply (update_value_settles Examples.library ∅ m Examples.failing_event 2001
           (Examples.clock_at 2001) (Some 0) Hr Hv).
  right. reflexivity.
Defined.

(* ===================================================================== *)
(** * Properties of the utilities: the values of [size_to_bytes] and
      [calc_percent_usage] *)
(* ===================================================================== *)

Section UtilsValues.
Import Metrics.
Import Utils.

Lemma digits_value_nonneg (s : string) : forall acc, (0 <= acc)%Z -> (0 <= digits_value s acc)%Z.
Proof.
  induction s as [|c rest IH]; intros acc H; cbn [digits_value]; [exact H|].
  apply IH. lia.
Qed.

Lemma float_of_str_nonneg (number : string) (q : Q) :
  float_of_str number = Some q -> 0 <= q.
Proof.
  unfold float_of_str.
  destruct (span is_digit number) as [int_part after_int].
  destruct (String.eqb int_part ""); [discriminate|].
  destruct (optional_fraction after_int) as [fraction after_number].
  destruct (negb (String.eqb after_number "")); [discriminate|].
  destruct fraction as [|dot frac]; intros [= <-].
  - change 0 with (inject_Z 0). rewrite <- Zle_Qle. apply digits_value_nonneg. lia.
  - apply Qle_shift_div_l.
    + change 0 with (inject_Z 0). rewrite <- Zlt_Qlt. apply Z.pow_pos_nonneg; lia.
    + rewrite Qmult_0_l. change 0 with (inject_Z 0). rewrite <- Zle_Qle.
      apply digits_value_nonneg. lia.
Qed.

Lemma lookup_unit_positive (unit : string) (units : list (string * Z)) (multiplier : Z) :
  Forall (fun entry => (0 < snd entry)%Z) units ->
  lookup_unit unit units = Some multiplier -> (0 < multiplier)%Z.
Proof.
  induction 1 as [|[u m] rest Hm Hrest IH]; cbn [lookup_unit]; [discriminate|].
  destruct (String.eqb unit u); [intros [= <-]; exact Hm | exact IH].
Qed.

Lemma unit_multiplier_positive (unit : string) (multiplier : Z) :
  unit_multiplier unit = Some multiplier -> (0 < multiplier)%Z.
Proof.
  assert (Hbyte : Forall (fun entry : string * Z => (0 < snd entry)%Z) BYTE_UNITS).
  { unfold BYTE_UNITS. repeat (apply List.Forall_cons || apply List.Forall_nil); reflexivity. }
  assert (Hbit : Forall (fun entry : string * Z => (0 < snd entry)%Z) BIT_UNITS).
  { unfold BIT_UNITS. repeat (apply List.Forall_cons || apply List.Forall_nil); reflexivity. }
  unfold unit_multiplier.
  destruct (lookup_unit (lower unit) BYTE_UNITS) as [m|] eqn:E.
  - intros [= <-]. apply (lookup_unit_positive _ _ _ Hbyte E).
  - intros H. apply (lookup_unit_positive _ _ _ Hbit H).
Qed.

Lemma int_nonneg (x : Q) : 0 <= x -> int x = Qfloor x.
Proof.
  intros H. unfold int.
  assert (E : Qltb x 0 = false) by (apply Qltb_ge; exact H).
  rewrite E. reflexivity.
Qed.

(** What the call computes from the parse of a text. *)
Lemma size_to_bytes_parsed (text number unit : string) (q : Q) :
  text <> "" ->
  regex_match (strip (lower text)) = Some (number, unit) ->
  float_of_str number = Some q ->
  size_to_bytes (VStr text)
  = match lookup_unit unit BYTE_UNITS with
    | Some multiplier => int_of_product q multiplier
    | None =>
        match lookup_unit unit BIT_UNITS with
        | Some multiplier => int_of_product q multiplier
        | None => Raise (ValueError "Unsupported unit")
        end
    end.
Proof.
  intros Htext Hmatch Hq. unfold size_to_bytes. cbn [truthy].
  rewrite negb_involutive, (string_eqb_nonempty _ Htext), Hmatch, Hq. reflexivity.
Qed.

Lemma lookup_unit_bounded (unit : string) (units : list (string * Z)) (multiplier : Z) :
  Forall (fun entry => (snd entry <= 2 ^ 50)%Z) units ->
  lookup_unit unit units = Some multiplier -> (multiplier <= 2 ^ 50)%Z.
Proof.
  induction 1 as [|[u m] rest Hm Hrest IH]; cbn [lookup_unit]; [discriminate|].
  destruct (String.eqb unit u); [intros [= <-]; exact Hm | exact IH].
Qed.

Lemma unit_multiplier_bounded (unit : string) (multiplier : Z) :
  unit_multiplier unit = Some multiplier -> (multiplier <= 2 ^ 50)%Z.
Proof.
  assert (Hbyte : Forall (fun entry : string * Z => (snd entry <= 2 ^ 50)%Z) BYTE_UNITS).
  { unfold BYTE_UNITS. repeat (apply List.Forall_cons || apply List.Forall_nil);
      vm_compute; discriminate. }
  assert (Hbit : Forall (fun entry : string * Z => (snd entry <= 2 ^ 50)%Z) BIT_UNITS).
  { unfold BIT_UNITS. repeat (apply List.Forall_cons || apply List.Forall_nil);
      vm_compute; discriminate. }
  unfold unit_multiplier.
  destruct (lookup_unit (lower unit) BYTE_UNITS) as [m|] eqn:E.
  - intros [= <-]. apply (lookup_unit_bounded _ _ _ Hbyte E).
  - intros H. apply (lookup_unit_bounded _ _ _ Hbit H).
Qed.

(** The product of an exact number and a multiplier is far below the
    overflow threshold. *)
Lemma exact_product_below_overflow (q : Q) (multiplier : Z) :
  binary64_exact q -> (0 < multiplier <= 2 ^ 50)%Z ->
  q * inject_Z multiplier < FLOAT_OVERFLOW.
Proof.
  intros (z & j & [Hz0 Hz] & _ & Hq) [Hm0 Hm].
  assert (Hpow : (0 < 2 ^ Z.of_nat j)%Z) by (apply Z.pow_pos_nonneg; lia).
  assert (Hq1 : q <= inject_Z z).
  { rewrite Hq. apply Qle_shift_div_r.
    - change 0 with (inject_Z 0). rewrite <- Zlt_Qlt. lia.
    - rewrite <- inject_Z_mult, <- Zle_Qle. nia. }
  assert (Hq0 : 0 <= q).
  { rewrite Hq. apply Qle_shift_div_l.
    - change 0 with (inject_Z 0). rewrite <- Zlt_Qlt. lia.
    - rewrite Qmult_0_l. change 0 with (inject_Z 0). rewrite <- Zle_Qle. lia. }
  apply Qle_lt_trans with (inject_Z (2 ^ 53) * inject_Z (2 ^ 50)).
  - apply Qle_trans with (inject_Z z * inject_Z multiplier).
    + apply Qmult_le_compat_r; [exact Hq1|].
      change 0 with (inject_Z 0). rewrite <- Zle_Qle. lia.
    + rewrite <- !inject_Z_mult, <- Zle_Qle. nia.
  - vm_compute. reflexivity.
Qed.


(** X11.  For a range [min < max], [calc_percent_usage] is monotone in
    the value and stays between 0 and 100: a larger source value never
    gives a smaller percentage. *)
Theorem calc_percent_usage_monotone (context : MetricContext) (v v' : Q) :
  fst (value_range (data context)) < snd (value_range (data context)) ->
  v <= v' ->
  exists r r',
    calc_percent_usage (context_with_value context (Some v)) = Ok (Some r)
    /\ calc_percent_usage (context_with_value context (Some v')) = Ok (Some r')
    /\ 0 <= r /\ r <= r' /\ r' <= 100.
Proof.
  intros Hr Hv. unfold calc_percent_usage. cbn [value data context_with_value].
  destruct (value_range (data context)) as [lo hi]. cbn [fst snd] in Hr.
  assert (E : Qleb hi lo = false) by (apply Qleb_gt; exact Hr). rewrite E.
  eexists _, _. split; [reflexivity | split; [reflexivity|]].
  assert (Hle : lo <= hi) by lra.
  set (c := py_max lo (py_min hi v)). set (c' := py_max lo (py_min hi v')).
  assert (Hc : lo <= c /\ c <= c' /\ c' <= hi).
  { subst c c'.
    destruct (py_clamp_spec lo hi v Hle) as [[H1 H2] | [[H1 H2] | (H1 & H2 & H3)]];
      destruct (py_clamp_spec lo hi v' Hle) as [[K1 K2] | [[K1 K2] | (K1 & K2 & K3)]];
      rewrite ?H2, ?H3, ?K2, ?K3; repeat split; lra. }
  destruct Hc as (Hc1 & Hc2 & Hc3).
  assert (Hd : 0 < hi - lo) by lra.
  assert (H0 : 0 <= (c - lo) / (hi - lo)) by (apply Qle_shift_div_l; [exact Hd | lra]).
  assert (H1 : (c' - lo) / (hi - lo) <= 1) by (apply Qle_shift_div_r; [exact Hd | lra]).
  assert (H2 : (c - lo) / (hi - lo) <= (c' - lo) / (hi - lo)).
  { unfold Qdiv. apply Qmult_le_compat_r; [lra|].
    apply Qlt_le_weak, Qinv_lt_0_compat, Hd. }
  repeat split; lra.
Qed.

End UtilsValues.


Lemma calc_percent_usage_monotone_witness :
  exists r r',
    Utils.calc_percent_usage
      (Metrics.context_with_value (Examples.memory_context None ∅) (Some 4)) = Ok (Some r)
    /\ Utils.calc_percent_usage
         (Metrics.context_with_value (Examples.memory_context None ∅) (Some 20)) = Ok (Some r')
    /\ 0 <= r /\ r <= r' /\ r' <= 100.
Proof.
  apply (calc_percent_usage_monotone (Examples.memory_context None ∅) 4 20).
  - vm_compute. reflexivity.
  - vm_compute. discriminate.
Defined.

(* ===================================================================== *)
(** * Properties of the emulated host: construction and expiry *)
(* ===================================================================== *)

Section HostLifecycle.
Import Storage.
Import Metrics.
Import Hosts.
Variable call : Callables.

Lemma handle_event_running (h : EmulatedHost) (key : string) (event : Events.Event)
    (clock : nat -> Q) :
  _is_running (handle_event call h key event clock) = _is_running h.
Proof.
  unfold handle_event. destruct (_emulated_metrics h !! key) as [metric|]; [|reflexivity].
  destruct (update_value call (_emulated_metrics h) metric (Some event) 0 clock) as [[v m'] em].
  reflexivity.
Qed.

(** A host that is not running publishes nothing and stays as it is at the
    turns of its loop. *)
Lemma stopped_host_silent (actions : list action) :
  forall h, _is_running h = false ->
            Forall (fun s => published s = None) (fst (run call h actions))
            /\ _is_running (snd (run call h actions)) = false.
Proof.
  induction actions as [|a rest IH]; intros h Hstopped; cbn [run].
  - split; [constructor | exact Hstopped].
  - destruct (step call h a) as [s h1] eqn:Hstep.
    assert (H1 : published s = None /\ _is_running h1 = false).
    { destruct a as [t readings | key event clock]; cbn [step] in Hstep.
      - unfold run_loop_iteration in Hstep. rewrite Hstopped in Hstep. cbn [negb] in Hstep.
        injection Hstep as <- <-. auto.
      - injection Hstep as <- <-. split; [reflexivity|].
        rewrite handle_event_running. exact Hstopped. }
    destruct H1 as [Hs Hh1]. destruct (IH h1 Hh1) as [Hall Hend].
    destruct (run call h1 rest) as [ss h2]. cbn [fst snd] in *.
    split; [constructor; assumption | exact Hend].
Qed.

(** X12.  A turn of the loop of a running host that finds the TTL expired
    publishes nothing and stops the host, which cleans the scenario
    storage of every metric and keeps the rest of the metric; from then
    on, whatever turns and event deliveries follow, the host publishes
    nothing and stays stopped. *)
Theorem expired_host_never_publishes (h : EmulatedHost) (t : Q) (readings : Readings)
    (rest : list action) :
  _is_running h = true ->
  ttl (Hosts._config h) < t - _host_start_time h ->
  step call h (Turn t readings)
  = ({| published := None; ticked := [] |}, stop h)
  /\ Forall (fun s => published s = None) (fst (run call h (Turn t readings :: rest)))
  /\ _is_running (snd (run call h (Turn t readings :: rest))) = false
  /\ (forall key,
        _emulated_metrics (stop h) !! key
        = (fun m => with_scenario_state m ∅) <$> _emulated_metrics h !! key).
Proof.
  intros Hrunning Hexpired.
  assert (Hstep : step call h (Turn t readings)
                  = ({| published := None; ticked := [] |}, stop h)).
  { cbn [step]. unfold run_loop_iteration. rewrite Hrunning. cbn [negb].
    assert (E : Qltb (ttl (Hosts._config h)) (t - _host_start_time h) = true)
      by (apply Qltb_lt; exact Hexpired).
    rewrite E. reflexivity. }
  assert (Hstopped : _is_running (stop h) = false).
  { unfold stop. rewrite Hrunning. reflexivity. }
  split; [exact Hstep | split; [|split]].
  - cbn [run]. rewrite Hstep.
    destruct (stopped_host_silent rest (stop h) Hstopped) as [Hall _].
    destruct (run call (stop h) rest) as [ss h2]. cbn [fst] in *.
    constructor; [reflexivity | exact Hall].
  - cbn [run]. rewrite Hstep.
    destruct (stopped_host_silent rest (stop h) Hstopped) as [_ Hend].
    destruct (run call (stop h) rest) as [ss h2]. exact Hend.
  - intros key. unfold stop. rewrite Hrunning. cbn [_emulated_metrics with_metrics].
    rewrite lookup_fmap. reflexivity.
Qed.

End HostLifecycle.

Lemma expired_host_never_publishes_witness :
  Forall (fun s => Hosts.published s = None)
         (fst (Hosts.run Examples.library Examples.requests_host
                         [Examples.turn_at 3000; Examples.turn_at 3015])).
Proof.
  assert (Hrunning : Hosts._is_running Examples.requests_host = true) by reflexivity.
  assert (Hexpired : Hosts.ttl (Hosts._config Examples.requests_host)
                     < 3000 - Hosts._host_start_time Examples.requests_host)
    by (vm_compute; reflexivity).
  exact (proj1 (proj2 (expired_host_never_publishes Examples.library Examples.requests_host
                         3000 (fun _ => (3000, Examples.clock_at 3000))
                         [Examples.turn_at 3015] Hrunning Hexpired))).
Defined.

Section HostInit.
Import Storage.
Import Metrics.
Import Hosts.

Lemma dict_keys_spec (names : list string) :
  forall seen,
    NoDup (dict_keys names seen)
    /\ (forall k, k ∈ dict_keys names seen <-> k ∈ names /\ k ∉ seen).
Proof.
  induction names as [|n rest IH]; intros seen; cbn [dict_keys].
  - split; [constructor|]. intros k. split; [intros H; inversion H | intros [H _]; inversion H].
  - destruct (bool_decide (n ∈ seen)) eqn:E.
    + apply bool_decide_eq_true in E. destruct (IH seen) as [Hnd Hin].
      split; [exact Hnd|]. intros k. rewrite Hin, elem_of_cons. split.
      * intros [H1 H2]. auto.
      * intros [[-> | H1] H2]; [contradiction | auto].
    + apply bool_decide_eq_false in E. destruct (IH (n :: seen)) as [Hnd Hin].
      split.
      * constructor; [|exact Hnd]. rewrite Hin. intros [_ H]. apply H. apply list_elem_of_here.
      * intros k. rewrite !elem_of_cons, Hin, elem_of_cons. split.
        -- intros [-> | [H1 H2]]; [auto|]. split; [auto|]. intros H. apply H2. auto.
        -- intros [[-> | H1] H2]; [auto|].
           destruct (decide (k = n)) as [-> | Hne]; [auto|].
           right. split; [exact H1|]. intros [H | H]; contradiction.
Qed.

Lemma init_objects_lookup (configs : list MetricConfig) (now : Q) (key : string) :
  forall acc : gmap string EmulatedMetric,
    fold_left (fun acc config => <[Metrics.name config := Metrics.init config now]> acc)
              configs acc !! key
    = match last (filter (fun c => Metrics.name c = key) configs) with
      | Some c => Some (Metrics.init c now)
      | None => acc !! key
      end.
Proof.
  induction configs as [|c rest IH]; intros acc; cbn [fold_left]; [reflexivity|].
  rewrite IH, filter_cons. destruct (decide (Metrics.name c = key)) as [E | E].
  - rewrite last_cons. destruct (last (filter _ rest)); [reflexivity|].
    rewrite <- E. apply lookup_insert_eq.
  - destruct (last (filter _ rest)); [reflexivity|].
    apply lookup_insert_ne. exact E.
Qed.

(** Linking changes the names of the linked metrics only. *)
Lemma link_existing_fields (names : list string) (m : EmulatedMetric) :
  Metrics._value (link_existing names m) = Metrics._value m
  /\ Metrics._start_time (link_existing names m) = Metrics._start_time m
  /\ Metrics._last_update (link_existing names m) = Metrics._last_update m
  /\ Metrics._scenario_state (link_existing names m) = Metrics._scenario_state m.
Proof.
  unfold link_existing.
  generalize (linked_metrics (Metrics._config m)). intros linked.
  assert (H : forall acc,
            Metrics._value (fold_left (fun acc linked_name =>
                              if bool_decide (linked_name ∈ names)
                              then add_linked_metric acc linked_name else acc) linked acc)
            = Metrics._value acc
            /\ Metrics._start_time (fold_left (fun acc linked_name =>
                              if bool_decide (linked_name ∈ names)
                              then add_linked_metric acc linked_name else acc) linked acc)
               = Metrics._start_time acc
            /\ Metrics._last_update (fold_left (fun acc linked_name =>
                              if bool_decide (linked_name ∈ names)
                              then add_linked_metric acc linked_name else acc) linked acc)
               = Metrics._last_update acc
            /\ Metrics._scenario_state (fold_left (fun acc linked_name =>
                              if bool_decide (linked_name ∈ names)
                              then add_linked_metric acc linked_name else acc) linked acc)
               = Metrics._scenario_state acc).
  { induction linked as [|n rest IH]; intros acc; cbn [fold_left]; [auto|].
    destruct (IH (if bool_decide (n ∈ names) then add_linked_metric acc n else acc))
      as (H1 & H2 & H3 & H4).
    rewrite H1, H2, H3, H4. destruct (bool_decide (n ∈ names)); auto. }
  apply H.
Qed.

(** X13.  [_init_metrics] builds one metric per config name: the names
    are kept without repetition, a name has an object exactly when some
    config bears it, and when several configs bear one name the object is
    built from the last of them, with its initial value, its start time
    counted from the construction, no update yet and an empty storage. *)
Theorem init_metrics_last_config_wins (configs : list MetricConfig) (now : Q) (key : string) :
  let names := fst (_init_metrics configs now) in
  let objs := snd (_init_metrics configs now) in
  NoDup names
  /\ (key ∈ names <-> exists c, c ∈ configs /\ Metrics.name c = key)
  /\ (key ∈ names <-> is_Some (objs !! key))
  /\ (forall m, objs !! key = Some m ->
        exists c, last (filter (fun c => Metrics.name c = key) configs) = Some c
                  /\ Metrics._config m = c
                  /\ Metrics._value m = init_value c
                  /\ Metrics._start_time m = now + Metrics.start_time c
                  /\ Metrics._last_update m = 0
                  /\ Metrics._scenario_state m = ∅).
Proof.
  intros names objs. subst names objs. unfold _init_metrics. cbn [fst snd].
  destruct (dict_keys_spec (map Metrics.name configs) []) as [Hnd Hin].
  assert (Hnames : key ∈ dict_keys (map Metrics.name configs) []
                   <-> exists c, c ∈ configs /\ Metrics.name c = key).
  { rewrite Hin. change (map Metrics.name configs) with (Metrics.name <$> configs).
    rewrite list_elem_of_fmap. split.
    - intros [(c & -> & Hc) _]. eauto.
    - intros (c & Hc & <-). split; [eauto|]. intros H. inversion H. }
  assert (Hlast : (exists c, c ∈ configs /\ Metrics.name c = key)
                  <-> is_Some (last (filter (fun c => Metrics.name c = key) configs))).
  { split.
    - intros (c & Hc & Hname).
      assert (Hf : c ∈ filter (fun c => Metrics.name c = key) configs)
        by (apply list_elem_of_filter; auto).
      destruct (filter (fun c => Metrics.name c = key) configs) as [|x l] eqn:E.
      + inversion Hf.
      + rewrite last_cons. destruct (last l); eauto.
    - intros [c Hc]. apply last_Some in Hc. destruct Hc as [l' Hl'].
      assert (Hf : c ∈ filter (fun c => Metrics.name c = key) configs).
      { rewrite Hl'. apply elem_of_app. right. apply list_elem_of_here. }
      apply list_elem_of_filter in Hf. destruct Hf. eauto. }
  split; [exact Hnd | split; [exact Hnames | split]].
  - rewrite Hnames, Hlast, lookup_fmap, init_objects_lookup, lookup_empty.
    destruct (last (filter _ configs)); cbn; split; intros [x Hx]; try discriminate; eauto.
  - intros m. rewrite lookup_fmap, init_objects_lookup, lookup_empty.
    destruct (last (filter _ configs)) as [c|]; cbn; [|discriminate].
    intros [= <-]. exists c. split; [reflexivity|].
    rewrite link_existing_config.
    destruct (link_existing_fields (dict_keys (map Metrics.name configs) [])
                (Metrics.init c now)) as (H1 & H2 & H3 & H4).
    rewrite H1, H2, H3, H4. repeat split; reflexivity.
Qed.

(** X14.  The labels of a host: a configured label takes precedence over
    the generated ['name'], ['host'] and ['address'], which are present
    whenever the configuration does not give them; an empty configured
    host name is replaced by the generated one; and there is no other
    label. *)
Theorem host_labels_precedence (config : HostConfig) (callback : bool) (now : Q)
    (fake_hostname fake_ip : string) :
  let h := Hosts.init config callback now fake_hostname fake_ip in
  (forall key label, labels config !! key = Some label -> _labels h !! key = Some label)
  /\ (labels config !! "name" = None -> _labels h !! "name" = Some (Hosts.name config))
  /\ (labels config !! "host" = None ->
      _labels h !! "host"
      = Some (match host config with
              | Some configured => if String.eqb configured "" then fake_hostname else configured
              | None => fake_hostname
              end))
  /\ (labels config !! "address" = None -> _labels h !! "address" = Some fake_ip)
  /\ dom (_labels h) = dom (labels config) ∪ {[ "name"; "host"; "address" ]}.
Proof.
  intros h. subst h. unfold Hosts.init.
  destruct (_init_metrics (metrics config) now) as [names objects]. cbn [_labels].
  split; [|split; [|split; [|split]]].
  - intros key label H. apply lookup_union_Some_l. exact H.
  - intros H. rewrite lookup_union_r by exact H.
    rewrite !lookup_insert_ne by discriminate. apply lookup_insert_eq.
  - intros H. rewrite lookup_union_r by exact H.
    rewrite lookup_insert_ne by discriminate. apply lookup_insert_eq.
  - intros H. rewrite lookup_union_r by exact H. apply lookup_insert_eq.
  - rewrite dom_union_L, !dom_insert_L, dom_empty_L. set_solver.
Qed.

End HostInit.

(* ===================================================================== *)
(** * Properties of the mixer: construction *)
(* ===================================================================== *)

Section MixerConstruction.
Import Metrics.
Import Hosts.
Import Mixer.
Variable Prom : Type.
Variable default_job : string.
Variable world : nat -> Q * string * string.

Local Abbreviation job_of := (effective_job default_job).
Local Abbreviation key_of := (host_key default_job).
Local Abbreviation of_job job := (filter (fun h => job_of h = job)).
Local Abbreviation grouped := (Mixer.grouped Prom default_job).

Lemma host_init_config (config : HostConfig) (callback : bool) (now : Q)
    (fake_hostname fake_ip : string) :
  Hosts._config (Hosts.init config callback now fake_hostname fake_ip) = config.
Proof.
  unfold Hosts.init. destruct (_init_metrics (metrics config) now). reflexivity.
Qed.

Lemma key_in_done (done : list HostConfig) (h : HostConfig) :
  Hosts.name h ∈ map Hosts.name (of_job (job_of h) done) <-> key_of h ∈ map key_of done.
Proof.
  change (map Hosts.name ?l) with (Hosts.name <$> l).
  change (map key_of ?l) with (key_of <$> l).
  rewrite !list_elem_of_fmap. split.
  - intros (h' & Hname & Hin). apply list_elem_of_filter in Hin. destruct Hin as [Hjob Hin].
    exists h'. split; [|exact Hin]. unfold host_key. rewrite Hjob, Hname. reflexivity.
  - intros (h' & Hkey & Hin). unfold host_key in Hkey. injection Hkey as Hjob Hname.
    exists h'. split; [exact Hname|]. apply list_elem_of_filter. auto.
Qed.

Lemma group_hosts_spec (rest : list HostConfig) :
  forall (done : list HostConfig) (k : nat) regs merged jh host_names,
    NoDup (map key_of done) ->
    grouped done regs merged jh ->
    (forall job, default [] (host_names !! job) = map Hosts.name (of_job job done)) ->
    match group_hosts Prom default_job rest world k (regs, merged, jh, host_names) with
    | Raise e =>
        e = MixerError "host already exists in job" /\ ~ NoDup (map key_of (done ++ rest))
    | Ok (regs', merged', jh') =>
        NoDup (map key_of (done ++ rest)) /\ grouped (done ++ rest) regs' merged' jh'
    end.
Proof.
  induction rest as [|h rest IH]; intros done k regs merged jh host_names Hnd Hgrouped Hnames.
  - cbn [group_hosts]. rewrite app_nil_r. auto.
  - cbn [group_hosts]. fold (job_of h). set (job := job_of h).
    (* the registration of a new job *)
    set (registered := match jh !! job with
                       | None => ((regs ++ [job])%list, <[job := ∅]> merged, <[job := []]> jh)
                       | Some _ => (regs, merged, jh)
                       end).
    assert (Hreg : exists regs1 merged1 jh1,
               registered = (regs1, merged1, jh1)
               /\ is_Some (jh1 !! job)
               /\ (forall j, map Hosts._config (default [] (jh1 !! j)) = of_job j done)
               /\ (forall j, is_Some (jh1 !! j) <-> j ∈ regs1)
               /\ (forall j, j ∈ regs1 <-> j = job \/ exists h', h' ∈ done /\ job_of h' = j)
               /\ NoDup regs1
               /\ (forall j, merged1 !! j = if bool_decide (j ∈ regs1) then Some ∅ else None)).
    { destruct Hgrouped as (G1 & G2 & G3 & G4 & G5). subst registered.
      destruct (jh !! job) as [hs|] eqn:Hjob.
      - exists regs, merged, jh. split; [reflexivity|].
        split; [rewrite Hjob; eauto|]. split; [exact G1|]. split; [exact G2|].
        split; [|split; [exact G4 | exact G5]].
        intros j. rewrite <- G3. split; [auto|]. intros [-> | H]; [|exact H].
        apply G2. rewrite Hjob. eauto.
      - assert (Hfresh : job ∉ regs).
        { intros H. apply G2 in H. rewrite Hjob in H. destruct H. discriminate. }
        exists (regs ++ [job])%list, (<[job := ∅]> merged), (<[job := []]> jh).
        split; [reflexivity|].
        split; [rewrite lookup_insert_eq; eauto|].
        split; [|split; [|split; [|split]]].
        + intros j. destruct (decide (j = job)) as [-> | Hne].
          * rewrite lookup_insert_eq. cbn. specialize (G1 job). rewrite Hjob in G1. exact G1.
          * rewrite lookup_insert_ne by congruence. apply G1.
        + intros j. rewrite elem_of_app, list_elem_of_singleton.
          destruct (decide (j = job)) as [-> | Hne].
          * rewrite lookup_insert_eq. split; eauto.
          * rewrite lookup_insert_ne by congruence. rewrite G2. tauto.
        + intros j. rewrite elem_of_app, list_elem_of_singleton, G3. tauto.
        + apply NoDup_app. split; [exact G4|]. split; [|apply NoDup_singleton].
          intros x Hx Hx'. apply list_elem_of_singleton in Hx'. subst x. contradiction.
        + intros j. destruct (decide (j = job)) as [-> | Hne].
          * rewrite lookup_insert_eq, bool_decide_eq_true_2; [reflexivity|].
            apply elem_of_app. right. apply list_elem_of_here.
          * rewrite lookup_insert_ne by congruence. rewrite G5.
            destruct (bool_decide (j ∈ regs)) eqn:E.
            -- apply bool_decide_eq_true in E. rewrite bool_decide_eq_true_2; [reflexivity|].
               apply elem_of_app. auto.
            -- apply bool_decide_eq_false in E. rewrite bool_decide_eq_false_2; [reflexivity|].
               rewrite elem_of_app, list_elem_of_singleton. tauto. }
    destruct Hreg as (regs1 & merged1 & jh1 & -> & Hsome & R1 & R2 & R3 & R4 & R5).
    rewrite Hnames.
    destruct (bool_decide (Hosts.name h ∈ map Hosts.name (of_job job done))) eqn:Hdup.
    + apply bool_decide_eq_true in Hdup. split; [reflexivity|].
      apply key_in_done in Hdup. rewrite map_app. cbn [map]. intros Hall.
      apply NoDup_app in Hall. destruct Hall as (_ & Hdisjoint & _).
      apply (Hdisjoint _ Hdup). apply list_elem_of_here.
    + apply bool_decide_eq_false in Hdup.
      destruct (world k) as [[now fake_hostname] fake_ip].
      assert (Hnd' : NoDup (map key_of (done ++ [h]))).
      { rewrite map_app. cbn [map]. apply NoDup_app. split; [exact Hnd|].
        split; [|apply NoDup_singleton].
        intros x Hx Hx'. apply list_elem_of_singleton in Hx'. subst x.
        apply Hdup. apply key_in_done. exact Hx. }
      specialize (IH (done ++ [h])%list (S k) regs1 merged1
                     (<[job := (default [] (jh1 !! job)
                                ++ [Hosts.init h true now fake_hostname fake_ip])%list]> jh1)
                     (<[job := (default [] (host_names !! job) ++ [Hosts.name h])%list]>
                        host_names) Hnd').
      rewrite <- app_assoc in IH. cbn [app] in IH. rewrite (Hnames job) in IH. apply IH.
      * split; [|split; [|split; [|split]]].
        -- intros j. rewrite filter_app, filter_cons, filter_nil.
           destruct (decide (j = job)) as [-> | Hne].
           ++ rewrite lookup_insert_eq. cbn [from_option]. unfold id. rewrite map_app, R1. cbn [map].
              rewrite host_init_config. destruct (decide (job_of h = job)); [reflexivity|].
              contradiction.
           ++ rewrite lookup_insert_ne by congruence. rewrite R1.
              destruct (decide (job_of h = j)) as [E | E]; [exfalso; apply Hne; auto|].
              rewrite app_nil_r. reflexivity.
        -- intros j. destruct (decide (j = job)) as [-> | Hne].
           ++ rewrite lookup_insert_eq. rewrite <- R2. split; eauto.
           ++ rewrite lookup_insert_ne by congruence. apply R2.
        -- intros j. rewrite R3. split.
           ++ intros [-> | (h' & Hin & Hj)].
              ** exists h. split; [apply elem_of_app; right; apply list_elem_of_here | reflexivity].
              ** exists h'. split; [apply elem_of_app; auto | exact Hj].
           ++ intros (h' & Hin & Hj). apply elem_of_app in Hin. destruct Hin as [Hin | Hin].
              ** right. eauto.
              ** apply list_elem_of_singleton in Hin. subst h'. left. symmetry. exact Hj.
        -- exact R4.
        -- exact R5.
      * intros j. rewrite filter_app, filter_cons, filter_nil.
        destruct (decide (j = job)) as [-> | Hne].
        -- rewrite lookup_insert_eq. cbn [from_option]. unfold id. rewrite map_app.
           destruct (decide (job_of h = job)); [reflexivity | contradiction].
        -- rewrite lookup_insert_ne by congruence. rewrite Hnames.
           destruct (decide (job_of h = j)) as [E | E]; [exfalso; apply Hne; auto|].
           rewrite app_nil_r. reflexivity.
Qed.


Lemma grouped_nil : grouped [] [] ∅ ∅.
Proof.
  split; [|split; [|split; [|split]]].
  - intros job. rewrite lookup_empty. reflexivity.
  - intros job. rewrite lookup_empty. split; [intros [x H]; discriminate | intros H; inversion H].
  - intros job. split; [intros H; inversion H | intros (h & H & _); inversion H].
  - constructor.
  - intros job. rewrite lookup_empty. reflexivity.
Qed.

(** The TTL of the mixer is the latest expiry among its hosts. *)
Lemma latest_expiry (others : list HostConfig) :
  forall first : HostConfig,
    let total h := Hosts.start_time h + Hosts.ttl h in
    let latest := fold_left (fun acc h => if Qltb acc (total h) then total h else acc)
                            others (total first) in
    (forall h, h ∈ first :: others -> total h <= latest)
    /\ (exists h, h ∈ first :: others /\ latest = total h).
Proof.
  induction others as [|h0 rest IH]; intros first total latest; subst latest; cbn [fold_left].
  - split.
    + intros h Hh. apply list_elem_of_singleton in Hh. subst h. apply Qle_refl.
    + exists first. split; [apply list_elem_of_here | reflexivity].
  - destruct (Qltb (total first) (total h0)) eqn:E.
    + apply Qltb_lt in E. destruct (IH h0) as [Hall (h & Hin & Heq)]. fold total in Hall, Heq.
      split.
      * intros h' Hh'. apply elem_of_cons in Hh'. destruct Hh' as [-> | Hh'].
        -- apply Qle_trans with (total h0); [apply Qlt_le_weak; exact E|].
           apply (Hall h0). apply list_elem_of_here.
        -- apply Hall. exact Hh'.
      * exists h. split; [apply list_elem_of_further; exact Hin | exact Heq].
    + apply Qltb_ge in E. destruct (IH first) as [Hall (h & Hin & Heq)]. fold total in Hall, Heq.
      split.
      * intros h' Hh'. apply elem_of_cons in Hh'. destruct Hh' as [-> | Hh'].
        -- apply Hall. apply list_elem_of_here.
        -- apply elem_of_cons in Hh'. destruct Hh' as [-> | Hh'].
           ++ apply Qle_trans with (total first); [exact E|].
              apply (Hall first). apply list_elem_of_here.
           ++ apply Hall. apply list_elem_of_further. exact Hh'.
      * exists h. split; [|exact Heq].
        apply elem_of_cons in Hin. destruct Hin as [-> | Hin].
        -- apply list_elem_of_here.
        -- apply list_elem_of_further, list_elem_of_further. exact Hin.
Qed.

End MixerConstruction.

Section MixerInit.
Import Metrics.
Import Hosts.
Import Mixer.
Variable Prom : Type.
Variable world : nat -> Q * string * string.

(** X15.  The construction of a mixer raises the [ValueError] of [max()]
    when the configuration has no host, and a [MixerError] when two of its
    hosts have the same name in the same job, a host without job name
    being of the default job.  Otherwise it succeeds: the mixer is not
    running, every job holds its hosts in the order of the configuration,
    none lost and none added, the registries are those of the jobs, each
    once, and no metric is merged yet. *)
Theorem mixer_init_outcome (config : MixerConfig) :
  let job_of := effective_job (default_job_name config) in
  let keys := map (host_key (default_job_name config)) (hosts config) in
  (hosts config = [] ->
   Mixer.init Prom config world = Raise (ValueError "max() of an empty sequence"))
  /\ (hosts config <> [] -> ~ NoDup keys ->
      Mixer.init Prom config world = Raise (MixerError "host already exists in job"))
  /\ (hosts config <> [] -> NoDup keys ->
      exists m,
        Mixer.init Prom config world = Ok m
        /\ Mixer._config Prom m = config
        /\ Mixer._is_running Prom m = false
        /\ (forall job,
              map Hosts._config (default [] (_job_hosts Prom m !! job))
              = filter (fun h => job_of h = job) (hosts config))
        /\ NoDup (_job_registries Prom m)
        /\ (forall job, job ∈ _job_registries Prom m
                        <-> exists h, h ∈ hosts config /\ job_of h = job)
        /\ (forall job, job ∈ _job_registries Prom m ->
                        _merged_metrics Prom m !! job = Some ∅)).
Proof.
  intros job_of keys. subst job_of keys. unfold Mixer.init.
  destruct (hosts config) as [|first others] eqn:Hhosts.
  - split; [reflexivity | split; intros H; contradiction].
  - pose proof (group_hosts_spec Prom (default_job_name config) world (first :: others)
                  [] 0%nat [] ∅ ∅ ∅ (NoDup_nil_2 (A:=string * string))
                  (grouped_nil Prom (default_job_name config))) as Hspec.
    cbn [app] in Hspec.
    destruct (group_hosts Prom (default_job_name config) (first :: others) world 0
                ([], ∅, ∅, ∅)) as [[[regs merged] jh] | e].
    + destruct Hspec as [Hnd (G1 & G2 & G3 & G4 & G5)].
      { intros job. rewrite lookup_empty. reflexivity. }
      split; [discriminate | split; [intros _ H; contradiction|]].
      intros _ _. eexists. split; [reflexivity|].
      cbn [Mixer._config Mixer._is_running _job_hosts _job_registries _merged_metrics].
      split; [reflexivity | split; [reflexivity | split; [exact G1 | split; [exact G4|]]]].
      split; [exact G3|].
      intros job Hjob. rewrite G5, bool_decide_eq_true_2; [reflexivity | exact Hjob].
    + destruct Hspec as [-> Hdup].
      { intros job. rewrite lookup_empty. reflexivity. }
      split; [discriminate | split; [reflexivity|]].
      intros _ H. contradiction.
Qed.

(** X16.  The TTL of a mixer is the latest expiry among its hosts: no
    host has a later [start_time + ttl], and some host has exactly it. *)
Theorem mixer_ttl_is_latest_expiry (config : MixerConfig) (m : MetricsMixer Prom) :
  Mixer.init Prom config world = Ok m ->
  (forall h, h ∈ hosts config -> Hosts.start_time h + Hosts.ttl h <= _ttl Prom m)
  /\ (exists h, h ∈ hosts config /\ _ttl Prom m = Hosts.start_time h + Hosts.ttl h).
Proof.
  unfold Mixer.init. destruct (hosts config) as [|first others]; [discriminate|].
  destruct (group_hosts Prom (default_job_name config) (first :: others) world 0
              ([], ∅, ∅, ∅)) as [[[regs merged] jh] | e]; [|discriminate].
  intros [= <-]. cbn [_ttl]. apply latest_expiry.
Qed.

End MixerInit.

(* ===================================================================== *)
(** * Properties of the mixer: deliveries *)
(* ===================================================================== *)

Section MixerDelivery.
Import Metrics.
Import Hosts.
Import Mixer.
Variable Prom : Type.
Variable prom_new : MetricType -> string -> string -> list string -> option Prom.
Variable prom_update : Prom -> MetricType -> gmap string string -> Q -> bool.

Lemma create_metrics_other_job (job : string) (names : list string)
    (todo : list (string * MetricConfig)) :
  forall merged other,
    other <> job ->
    fst (create_metrics Prom prom_new job names todo merged) !! other = merged !! other.
Proof.
  induction todo as [|[metric_name metric_config] rest IH]; intros merged other Hne;
    cbn [create_metrics]; [reflexivity|].
  destruct (prom_new _ _ _ _); [|reflexivity].
  rewrite IH by exact Hne. apply lookup_insert_ne. congruence.
Qed.

Lemma update_entry_other_job (job host_name : string) (labels : gmap string string)
    (metric_name : string) (value now : Q)
    (merged : gmap string (gmap string (gmap string (cell Prom)))) (other : string) :
  other <> job ->
  fst (fst (update_entry Prom prom_update job host_name labels metric_name value now merged))
    !! other = merged !! other.
Proof.
  intros Hne. unfold update_entry.
  destruct (merged !! job) as [of_job|]; [|reflexivity].
  destruct (of_job !! metric_name) as [of_metric|]; [|reflexivity].
  destruct (check_duplicates _ _ _ _ _ _) as [warnings [e|]]; [reflexivity|].
  destruct (update_prometheus _ _ _ _ _ _ _) as [errors e]. cbn [fst].
  apply lookup_insert_ne. congruence.
Qed.

Lemma update_entries_other_job (job host_name : string) (labels : gmap string string)
    (batch : list (string * Q)) (clock : nat -> Q) :
  forall k merged other,
    other <> job ->
    fst (fst (update_entries Prom prom_update job host_name labels batch clock k merged))
      !! other = merged !! other.
Proof.
  induction batch as [|[metric_name value] rest IH]; intros k merged other Hne;
    cbn [update_entries]; [reflexivity|].
  pose proof (update_entry_other_job job host_name labels metric_name value (clock k)
                merged other Hne) as Hone.
  destruct (update_entry _ _ _ _ _ _ _ _ _) as [[merged1 log] [e|]]; cbn [fst] in *.
  - exact Hone.
  - specialize (IH (S k) merged1 other Hne).
    destruct (update_entries _ _ _ _ _ _ _ _ _) as [[merged2 log2] e2]. cbn [fst] in *.
    congruence.
Qed.

Lemma find_first {A : Type} (p : A -> bool) (l : list A) (x : A) :
  List.find p l = Some x ->
  exists before after, l = (before ++ x :: after)%list /\ p x = true
                       /\ Forall (fun y => p y = false) before.
Proof.
  induction l as [|y rest IH]; cbn [List.find]; [discriminate|].
  destruct (p y) eqn:E.
  - intros [= <-]. exists [], rest. split; [reflexivity | split; [exact E | constructor]].
  - intros H. destruct (IH H) as (before & after & -> & Hx & Hall).
    exists (y :: before), after. split; [reflexivity | split; [exact Hx|]].
    constructor; assumption.
Qed.

(** X17.  A delivery changes neither the configuration nor the hosts nor
    the registries of the mixer.  For a name that no host of the
    configuration bears it changes nothing and logs a warning.  Otherwise
    the host is looked up by name alone, the first of the configuration
    with that name is taken, and only the merged metrics of the job of that
    host can change: those of every other job stay as they were, also when
    a host of that name belongs to one of them. *)
Theorem delivery_touches_one_job (m : MetricsMixer Prom) (host_name : string)
    (labels : gmap string string) (metrics_data : list (string * Q)) (clock : nat -> Q) :
  let result :=
    update_metrics_by_host Prom prom_new prom_update m host_name labels metrics_data clock in
  let m' := fst (fst result) in
  Mixer._config Prom m' = Mixer._config Prom m
  /\ _job_hosts Prom m' = _job_hosts Prom m
  /\ _job_registries Prom m' = _job_registries Prom m
  /\ (find_host Prom m host_name = None ->
      result = (m, [host_not_found_warning host_name], None))
  /\ (forall host_config, find_host Prom m host_name = Some host_config ->
        (exists before after,
            hosts (Mixer._config Prom m) = (before ++ host_config :: after)%list
            /\ Hosts.name host_config = host_name
            /\ Forall (fun h => Hosts.name h <> host_name) before)
        /\ (forall job, job <> _get_job_name Prom m host_config ->
                        _merged_metrics Prom m' !! job = _merged_metrics Prom m !! job)).
Proof.
  intros result m'. subst m' result. unfold update_metrics_by_host.
  destruct (find_host Prom m host_name) as [host_config|] eqn:Hfind.
  2:{ cbn [fst]. split; [reflexivity | split; [reflexivity | split; [reflexivity|]]].
      split; [reflexivity|]. intros hc [=]. }
  set (job := _get_job_name Prom m host_config).
  (* the setup of the job *)
  assert (Hsetup : exists merged1,
             fst (_setup_prometheus_metrics_for_job Prom prom_new m job)
             = with_merged Prom m merged1
             /\ forall other, other <> job ->
                              merged1 !! other = _merged_metrics Prom m !! other).
  { unfold _setup_prometheus_metrics_for_job.
    assert (Hsame : m = with_merged Prom m (_merged_metrics Prom m)) by (destruct m; reflexivity).
    destruct (match _merged_metrics Prom m !! job with
              | Some of_job => negb (Nat.eqb (size of_job) 0)
              | None => false
              end); [exists (_merged_metrics Prom m); split; [exact Hsame | reflexivity]|].
    destruct (negb (bool_decide (job ∈ _job_registries Prom m)));
      [exists (_merged_metrics Prom m); split; [exact Hsame | reflexivity]|].
    destruct (_job_hosts Prom m !! job) as [job_hosts|];
      [|exists (_merged_metrics Prom m); split; [exact Hsame | reflexivity]].
    pose proof (create_metrics_other_job job (label_names job_hosts)
                  (unique_metrics job_hosts) (_merged_metrics Prom m)) as Hother.
    destruct (create_metrics Prom prom_new job (label_names job_hosts)
                (unique_metrics job_hosts) (_merged_metrics Prom m)) as [merged1 e].
    exists merged1. split; [reflexivity | exact Hother]. }
  destruct Hsetup as (merged1 & Hm1 & Hother1).
  destruct (_setup_prometheus_metrics_for_job Prom prom_new m job) as [m1 [e|]];
    cbn [fst] in Hm1; subst m1.
  - cbn [fst]. split; [reflexivity | split; [reflexivity | split; [reflexivity|]]].
    split; [discriminate|]. intros hc [= <-]. split.
    + unfold find_host in Hfind. destruct (find_first _ _ _ Hfind) as (before & after & H1 & H2 & H3).
      exists before, after. split; [exact H1 | split; [apply String.eqb_eq; exact H2|]].
      eapply Forall_impl; [exact H3|]. intros h Hh. apply String.eqb_neq. exact Hh.
    + intros other Hne. cbn [_merged_metrics with_merged]. apply Hother1. exact Hne.
  - pose proof (update_entries_other_job job host_name labels metrics_data clock 0
                  merged1) as Hother2.
    cbn [_merged_metrics with_merged].
    destruct (update_entries Prom prom_update job host_name labels metrics_data clock 0
                merged1) as [[merged2 log] e]. cbn [fst] in *.
    split; [reflexivity | split; [reflexivity | split; [reflexivity|]]].
    split; [discriminate|]. intros hc [= <-]. split.
    + unfold find_host in Hfind. destruct (find_first _ _ _ Hfind) as (before & after & H1 & H2 & H3).
      exists before, after. split; [exact H1 | split; [apply String.eqb_eq; exact H2|]].
      eapply Forall_impl; [exact H3|]. intros h Hh. apply String.eqb_neq. exact Hh.
    + intros other Hne. rewrite Hother2 by exact Hne. apply Hother1. exact Hne.
Qed.

End MixerDelivery.

Lemma mixer_ttl_is_latest_expiry_witness :
  exists m,
    Mixer.init unit (Examples.mixer_config "db" "web") Examples.world = Ok m
    /\ (forall h, h ∈ Mixer.hosts (Examples.mixer_config "db" "web") ->
                  Hosts.start_time h + Hosts.ttl h <= Mixer._ttl unit m)
    /\ Mixer._ttl unit m == 1800.
Proof.
  destruct (Mixer.init unit (Examples.mixer_config "db" "web") Examples.world) as [m|e] eqn:Hinit;
    [|vm_compute in Hinit; discriminate].
  exists m. split; [reflexivity|].
  split; [exact (proj1 (mixer_ttl_is_latest_expiry unit Examples.world _ m Hinit))|].
  vm_compute in Hinit. injection Hinit as <-. reflexivity.
Defined.

(* ===================================================================== *)
(** * Properties of the scenarios: the events of [feature_toggle] *)
(* ===================================================================== *)

Section ToggleEvents.
Import Storage.
Import Metrics.
Import Scenarios.
Variable context : MetricContext.
Variables start_time duration interval on_value off_value : Q.
Variable source : option string.
Hypothesis start_time_valid : 0 <= start_time.
Hypothesis duration_valid : 0 < duration.
Hypothesis interval_valid : 0 < interval.

Lemma toggle_expected_alternating (t0 : Q) (times : list Q) :
  forall previous,
    alternating (negb previous)
      (concat (map snd (toggle_expected start_time duration interval on_value off_value
                                        source t0 previous times))) = true.
Proof.
  induction times as [|t rest IH]; intros previous; cbn [toggle_expected map concat].
  - reflexivity.
  - remember (toggle_state start_time duration interval (t - t0)) as state eqn:Hs.
    destruct (Bool.eqb state previous) eqn:E.
    + apply Bool.eqb_prop in E. rewrite E. cbn [app]. apply IH.
    + destruct state, previous; try discriminate E;
        cbn [app alternating feature_event Events.name negb];
        change (String.eqb "feature_on" "feature_on") with true;
        change (String.eqb "feature_off" "feature_off") with true; cbn [andb].
      * apply (IH true).
      * apply (IH false).
Qed.

(** The invocations from the first one on, as the state formula gives them. *)
Lemma feature_toggle_calls_from_start (t0 : Q) (times : list Q) :
  storage context !! "start_timestamp" = None ->
  storage context !! "feature_active" = None ->
  StronglySorted Qle (t0 :: times) ->
  feature_toggle_calls context start_time duration interval on_value off_value source
                       (t0 :: times)
  = toggle_expected start_time duration interval on_value off_value source t0 false
                    (t0 :: times).
Proof.
  intros Hts Hflag Hsorted.
  assert (Hctx : context = with_storage context (storage context))
    by (destruct context; reflexivity).
  rewrite Hctx at 1. cbn [feature_toggle_calls].
  rewrite (feature_toggle_first context start_time duration interval on_value off_value source
             start_time_valid duration_valid interval_valid _ t0 Hts).
  change (with_storage (with_storage context (storage context)) ?s) with (with_storage context s).
  apply (feature_toggle_calls_expected context start_time duration interval on_value off_value
           source start_time_valid duration_valid interval_valid t0 (t0 :: times)
           (set "start_timestamp" (VNum t0) (storage context)) false t0).
  - unfold set. apply lookup_insert_eq.
  - unfold get, set. rewrite lookup_insert_ne by discriminate. rewrite Hflag. reflexivity.
  - discriminate.
  - constructor; [exact Hsorted|].
    constructor; [apply Qle_refl|].
    apply StronglySorted_inv in Hsorted. apply Hsorted.
Qed.

(** X18.  Over successive invocations of [feature_toggle] at
    non-decreasing clock readings, from a storage that holds neither key,
    the emitted events are [feature_on] and [feature_off] in turn, starting
    with [feature_on]: no two events of the same name follow each other. *)
Theorem feature_toggle_events_alternate (t0 : Q) (times : list Q) :
  storage context !! "start_timestamp" = None ->
  storage context !! "feature_active" = None ->
  StronglySorted Qle (t0 :: times) ->
  alternating true
    (concat (map snd (feature_toggle_calls context start_time duration interval
                                           on_value off_value source (t0 :: times)))) = true.
Proof.
  intros Hts Hflag Hsorted.
  rewrite (feature_toggle_calls_from_start t0 times Hts Hflag Hsorted).
  apply (toggle_expected_alternating t0 (t0 :: times) false).
Qed.

End ToggleEvents.

Lemma feature_toggle_events_alternate_witness :
  let context := Examples.memory_context (Some 0) ∅ in
  let times := [1005; 1015; 1025; 1035; 1045] in
  let events := concat (map snd (Scenarios.feature_toggle_calls context 10 20 10 1 0 None
                                                                 (1000 :: times))) in
  Scenarios.alternating true events = true
  /\ map Events.name events = ["feature_on"; "feature_off"; "feature_on"].
Proof.
  intros context times events.
  assert (H1 : 0 <= 10) by (vm_compute; discriminate).
  assert (H2 : 0 < 20) by (vm_compute; reflexivity).
  assert (H3 : 0 < 10) by (vm_compute; reflexivity).
  assert (Hs : StronglySorted Qle (1000 :: times)).
  { subst times.
    repeat first [ apply SSorted_nil | apply SSorted_cons | apply List.Forall_nil
                 | apply List.Forall_cons | (vm_compute; discriminate) ]. }
  split.
  - exact (feature_toggle_events_alternate context 10 20 10 1 0 None H1 H2 H3 1000 times
             eq_refl eq_refl Hs).
  - vm_compute. reflexivity.
Defined.

(* ===================================================================== *)
(** * Properties of the scenarios: the switched scenario in later calls *)
(* ===================================================================== *)

Section SwitchLater.
Import Storage.
Import Metrics.
Import Scenarios.
Variable call : Callables.
Variable hasattr_Scenarios : string -> bool.

(** A call without event on a storage that holds a switched scenario. *)
Lemma switch_uses_last_event (context : MetricContext)
    (events_config : gmap string EventConfig) (default_scenario : option string)
    (default_scenario_data : option kwargs) (current_time u : Q)
    (f : func) (params : kwargs) (t0 : Q) (d : option Q) :
  event context = None ->
  storage context !! "last_event_scenario" = Some (VFunc f) ->
  storage context !! "last_event_timestamp" = Some (VNum t0) ->
  storage context !! "last_event_duration" = Some (of_opt d) ->
  storage context !! "last_event_params" = Some (VDict params) ->
  ~ t0 == 0 ->
  let out := switch_scenario_by_events call hasattr_Scenarios context events_config
               default_scenario default_scenario_data current_time u in
  (match d with Some dd => current_time - t0 <= dd | None => True end ->
   forall r, returned (call f context params) = Ok (Some r) ->
             out = {| returned := Ok (Some r); stored := stored (call f context params);
                      emitted := emitted (call f context params);
                      logged := logged (call f context params) |})
  /\ (forall dd, d = Some dd -> dd < current_time - t0 ->
        out = switch_default call hasattr_Scenarios context default_scenario
                             (default [] default_scenario_data) u [] []).
Proof.
  intros Hev Hsc Hts Hd Hp Ht0 out. subst out.
  unfold switch_scenario_by_events. rewrite Hev.
  assert (Hctx : with_storage context (storage context) = context) by (destruct context; reflexivity).
  rewrite Hctx. unfold switch_last_event, get. rewrite Hsc, Hts, Hd, Hp.
  assert (Htruthy : truthy (VNum t0) = true).
  { cbn [truthy]. destruct (Qeqb t0 0) eqn:E; [|reflexivity].
    apply Qeqb_eq in E. contradiction. }
  rewrite Htruthy. cbn [truthy andb as_num]. split.
  - intros Hwithin r Hr. destruct d as [dd|]; cbn [of_opt is_none as_num].
    + assert (E : Qleb (current_time - t0) dd = true) by (apply Qleb_le; exact Hwithin).
      rewrite E, Hr. reflexivity.
    + rewrite Hr. reflexivity.
  - intros dd -> Hexpired. cbn [of_opt is_none as_num].
    assert (E : Qleb (current_time - t0) dd = false) by (apply Qleb_gt; exact Hexpired).
    rewrite E. reflexivity.
Qed.

(** X19.  After an event has switched the scenario, with a clock reading
    other than 0, a call that returned a value and a switched scenario that
    left the bookkeeping keys alone, a later call without event calls the
    same scenario with the same parameters and returns its value as long
    as the duration, if any, has not passed; once it has passed, the call
    is that of the default scenario, or the random value. *)
Theorem switch_scenario_sticky (context context' : MetricContext)
    (events_config : gmap string EventConfig) (default_scenario : option string)
    (default_scenario_data : option kwargs) (t0 u0 t1 u1 : Q)
    (ev : Events.Event) (entry : EventConfig) (scenario_name : pyval) (f : func) (r0 : Q) :
  event context = Some ev ->
  events_config !! Events.name ev = Some entry ->
  scenario entry = Some scenario_name ->
  resolve hasattr_Scenarios scenario_name = Some f ->
  ~ t0 == 0 ->
  let params := default [] (scenario_data entry) in
  let before :=
    set "last_event_duration" (of_opt (duration entry))
      (set "last_event_timestamp" (VNum t0)
         (set "last_event_params" (VDict params) (storage context))) in
  let inner := call f (with_storage context before) params in
  returned inner = Ok (Some r0) ->
  (forall key, key ∈ ["last_event_params"; "last_event_timestamp"; "last_event_duration"] ->
               stored inner !! key = before !! key) ->
  let first := switch_scenario_by_events call hasattr_Scenarios context events_config
                 default_scenario default_scenario_data t0 u0 in
  event context' = None ->
  storage context' = stored first ->
  let later := switch_scenario_by_events call hasattr_Scenarios context' events_config
                 default_scenario default_scenario_data t1 u1 in
  returned first = Ok (Some r0)
  /\ (match duration entry with Some dd => t1 - t0 <= dd | None => True end ->
      forall r, returned (call f context' params) = Ok (Some r) ->
                returned later = Ok (Some r)
                /\ stored later = stored (call f context' params))
  /\ (forall dd, duration entry = Some dd -> dd < t1 - t0 ->
        later = switch_default call hasattr_Scenarios context' default_scenario
                               (default [] default_scenario_data) u1 [] []).
Proof.
  intros Hev Hentry Hsc Hres Ht0 params before inner Hinner Hframe first Hev' Hst' later.
  pose proof (switch_on_matching_event call hasattr_Scenarios context events_config
                default_scenario default_scenario_data t0 u0 ev entry scenario_name f
                Hev Hentry Hsc Hres) as Hfirst.
  cbv zeta in Hfirst. fold params in Hfirst. fold before in Hfirst. fold inner in Hfirst.
  fold first in Hfirst. rewrite Hinner in Hfirst. destruct Hfirst as [Hret Hstored].
  assert (Hkeys : storage context' !! "last_event_scenario" = Some (VFunc f)
                  /\ storage context' !! "last_event_timestamp" = Some (VNum t0)
                  /\ storage context' !! "last_event_duration" = Some (of_opt (duration entry))
                  /\ storage context' !! "last_event_params" = Some (VDict params)).
  { rewrite Hst', Hstored. unfold set at 1 2 3 4.
    rewrite lookup_insert_eq, !lookup_insert_ne by discriminate.
    rewrite !Hframe by (repeat first [apply list_elem_of_here | apply list_elem_of_further]).
    subst before. unfold set.
    split; [reflexivity | split; [|split]].
    - rewrite lookup_insert_ne by discriminate. apply lookup_insert_eq.
    - apply lookup_insert_eq.
    - rewrite !lookup_insert_ne by discriminate. apply lookup_insert_eq. }
  destruct Hkeys as (K1 & K2 & K3 & K4).
  destruct (switch_uses_last_event context' events_config default_scenario
              default_scenario_data t1 u1 f params t0 (duration entry)
              Hev' K1 K2 K3 K4 Ht0) as [Hwithin Hexpired].
  fold later in Hwithin, Hexpired.
  split; [exact Hret | split].
  - intros Hw r Hr. rewrite (Hwithin Hw r Hr). split; reflexivity.
  - exact Hexpired.
Qed.

(** X20.  An event whose entry names no scenario resets the switch: the
    scenario, the duration and the timestamp of the last event are set to
    nil, and the call is that of the default scenario on this storage,
    whatever scenario was switched before; and a later call without event
    on a storage whose last event scenario is nil is that of the default
    scenario too. *)
Theorem switch_scenario_reset (context context' : MetricContext)
    (events_config : gmap string EventConfig) (default_scenario : option string)
    (default_scenario_data : option kwargs) (t0 u0 t1 u1 : Q)
    (ev : Events.Event) (entry : EventConfig) :
  event context = Some ev ->
  events_config !! Events.name ev = Some entry ->
  scenario entry = None ->
  let cleared :=
    set "last_event_timestamp" VNone
      (set "last_event_duration" VNone
         (set "last_event_scenario" VNone (storage context))) in
  let first := switch_scenario_by_events call hasattr_Scenarios context events_config
                 default_scenario default_scenario_data t0 u0 in
  first = switch_default call hasattr_Scenarios (with_storage context cleared)
                         default_scenario (default [] default_scenario_data) u0 [] []
  /\ (event context' = None ->
      storage context' !! "last_event_scenario" = Some VNone ->
      switch_scenario_by_events call hasattr_Scenarios context' events_config
        default_scenario default_scenario_data t1 u1
      = switch_default call hasattr_Scenarios context' default_scenario
                       (default [] default_scenario_data) u1 [] []).
Proof.
  intros Hev Hentry Hsc cleared first. subst first. split.
  - unfold switch_scenario_by_events. rewrite Hev, Hentry, Hsc.
    fold cleared. unfold switch_last_event. cbn [storage with_storage].
    assert (H : get "last_event_scenario" VNone cleared = VNone).
    { unfold get, cleared, set. rewrite !lookup_insert_ne by discriminate.
      rewrite lookup_insert_eq. reflexivity. }
    rewrite H. reflexivity.
  - intros Hev' Hnone. unfold switch_scenario_by_events. rewrite Hev'.
    assert (Hctx : with_storage context' (storage context') = context')
      by (destruct context'; reflexivity).
    rewrite Hctx. unfold switch_last_event, get. rewrite Hnone. reflexivity.
Qed.

End SwitchLater.

Lemma switch_scenario_sticky_witness :
  let first := Scenarios.switch_scenario_by_events Examples.library Examples.has_scenario
                 (Examples.peak_context (Some "peak_load_start") ∅)
                 Examples.peak_events_config None None 1000 (1 # 2) in
  let later := Scenarios.switch_scenario_by_events Examples.library Examples.has_scenario
                 (Examples.peak_context None (Metrics.stored first))
                 Examples.peak_events_config None None 1030 (1 # 4) in
  Metrics.returned first = Ok (Some (1 # 2))
  /\ Metrics.returned later = Ok (Some (1 # 2)).
Proof.
  intros first later.
  pose proof (switch_scenario_sticky Examples.library Examples.has_scenario
                (Examples.peak_context (Some "peak_load_start") ∅)
                (Examples.peak_context None (Metrics.stored first))
                Examples.peak_events_config None None 1000 (1 # 2) 1030 (1 # 4)
                {| Events.name := "peak_load_start"; Events.data := None; Events.source := None |}
                {| Scenarios.scenario := Some (VStr "do_nothing");
                   Scenarios.scenario_data := None;
                   Scenarios.duration := Some 60 |}
                (VStr "do_nothing") (LibFunc "do_nothing") (1 # 2)
                eq_refl eq_refl eq_refl eq_refl) as H.
  cbv zeta in H.
  destruct H as (Hfirst & Hwithin & _).
  - vm_compute. discriminate.
  - reflexivity.
  - intros key _. reflexivity.
  - reflexivity.
  - reflexivity.
  - split; [exact Hfirst|].
    apply (Hwithin ltac:(vm_compute; discriminate) (1 # 2) eq_refl).
Defined.

Lemma switch_scenario_reset_witness :
  let context := Examples.peak_context (Some "peak_load_end")
                   (<["last_event_scenario" := VFunc (LibFunc "do_nothing")]> ∅) in
  let out := Scenarios.switch_scenario_by_events Examples.library Examples.has_scenario
               context Examples.peak_events_config (Some "do_nothing") None 1040 (1 # 2) in
  Metrics.returned out = Ok (Some (1 # 2))
  /\ Metrics.stored out !! "last_event_scenario" = Some VNone.
Proof.
  intros context out.
  pose proof (proj1 (switch_scenario_reset Examples.library Examples.has_scenario
                       context context Examples.peak_events_config (Some "do_nothing") None
                       1040 (1 # 2) 1040 (1 # 2)
                       {| Events.name := "peak_load_end"; Events.data := None;
                          Events.source := None |}
                       {| Scenarios.scenario := None; Scenarios.scenario_data := None;
                          Scenarios.duration := None |}
                       eq_refl eq_refl eq_refl)) as H.
  fold out in H. rewrite H. split; reflexivity.
Defined.

(* ===================================================================== *)
(** * Properties of the emulated host: the links of a metric's context *)
(* ===================================================================== *)

Section ContextLinks.
Import Storage.
Import Metrics.
Import Hosts.
Import Scenarios.

Lemma link_existing_linked (names linked : list string) :
  forall acc : EmulatedMetric,
    NoDup (_linked_metrics acc) ->
    let r := fold_left (fun acc linked_name =>
                          if bool_decide (linked_name ∈ names)
                          then add_linked_metric acc linked_name else acc) linked acc in
    NoDup (_linked_metrics r)
    /\ (forall n, n ∈ _linked_metrics r <->
                  n ∈ _linked_metrics acc \/ (n ∈ linked /\ n ∈ names)).
Proof.
  induction linked as [|n0 rest IH]; intros acc Hnd; cbn [fold_left].
  - split; [exact Hnd|]. intros n. split; [auto|]. intros [H | [H _]]; [exact H | inversion H].
  - destruct (bool_decide (n0 ∈ names)) eqn:E.
    + apply bool_decide_eq_true in E.
      assert (Hadd : NoDup (_linked_metrics (add_linked_metric acc n0))
                     /\ forall n, n ∈ _linked_metrics (add_linked_metric acc n0)
                                  <-> n ∈ _linked_metrics acc \/ n = n0).
      { unfold add_linked_metric. cbn [_linked_metrics].
        destruct (bool_decide (n0 ∈ _linked_metrics acc)) eqn:E0.
        - apply bool_decide_eq_true in E0. split; [exact Hnd|].
          intros n. split; [auto|]. intros [H | ->]; assumption.
        - apply bool_decide_eq_false in E0. split.
          + apply NoDup_app. split; [exact Hnd|]. split; [|apply NoDup_singleton].
            intros x Hx Hx'. apply list_elem_of_singleton in Hx'. subst x. contradiction.
          + intros n. rewrite elem_of_app, list_elem_of_singleton. reflexivity. }
      destruct Hadd as [Hnd' Hin']. destruct (IH _ Hnd') as [H1 H2].
      split; [exact H1|]. intros n. rewrite H2, Hin', elem_of_cons. split.
      * intros [[H | ->] | [H3 H4]]; auto.
      * intros [H | [[-> | H3] H4]]; auto.
    + apply bool_decide_eq_false in E. destruct (IH _ Hnd) as [H1 H2].
      split; [exact H1|]. intros n. rewrite H2, elem_of_cons. split.
      * intros [H | [H3 H4]]; auto.
      * intros [H | [[-> | H3] H4]]; auto. contradiction.
Qed.

Lemma build_links_get (peers : gmap string EmulatedMetric) (event : option Events.Event)
    (clock : nat -> Q) (n : string) (linked : list string) :
  forall k,
    match links_get n (build_links peers event linked clock k) with
    | Some c =>
        n ∈ linked
        /\ exists peer, peers !! n = Some peer
                        /\ data c = Metrics._config peer /\ value c = _value peer
                        /\ storage c = _scenario_state peer /\ Metrics.event c = event
                        /\ links c = []
    | None => ~ (n ∈ linked /\ is_Some (peers !! n))
    end.
Proof.
  induction linked as [|n0 rest IH]; intros k; cbn [build_links links_get].
  - intros [H _]. inversion H.
  - destruct (peers !! n0) as [metric|] eqn:Hpeer.
    + cbn [links_get]. destruct (String.eqb_spec n n0) as [-> | Hne].
      * split; [apply list_elem_of_here|]. exists metric. cbn. auto 10.
      * specialize (IH (S k)).
        destruct (links_get n (build_links peers event rest clock (S k))) as [c|].
        -- destruct IH as [Hin Hpeer']. split; [apply list_elem_of_further; exact Hin | exact Hpeer'].
        -- intros [Hin Hsome]. apply IH. split; [|exact Hsome].
           apply elem_of_cons in Hin. destruct Hin as [-> | Hin]; [contradiction | exact Hin].
    + specialize (IH k). destruct (links_get n (build_links peers event rest clock k)) as [c|].
      * destruct IH as [Hin Hpeer']. split; [apply list_elem_of_further; exact Hin | exact Hpeer'].
      * intros [Hin Hsome]. apply IH. split; [|exact Hsome].
        apply elem_of_cons in Hin. destruct Hin as [-> | Hin]; [|exact Hin].
        rewrite Hpeer in Hsome. destruct Hsome. discriminate.
Qed.

(** A name is a key of the host's metrics exactly when it has an object. *)
Lemma init_metrics_names (configs : list MetricConfig) (now : Q) (key : string) :
  (key ∈ fst (_init_metrics configs now) <-> exists c, c ∈ configs /\ Metrics.name c = key)
  /\ (key ∈ fst (_init_metrics configs now) <-> is_Some (snd (_init_metrics configs now) !! key)).
Proof.
  unfold _init_metrics. cbn [fst snd].
  destruct (dict_keys_spec (map Metrics.name configs) []) as [Hnd Hin].
  assert (Hnames : key ∈ dict_keys (map Metrics.name configs) []
                   <-> exists c, c ∈ configs /\ Metrics.name c = key).
  { rewrite Hin. change (map Metrics.name configs) with (Metrics.name <$> configs).
    rewrite list_elem_of_fmap. split.
    - intros [(c & -> & Hc) _]. eauto.
    - intros (c & Hc & <-). split; [eauto|]. intros H. inversion H. }
  split; [exact Hnames|].
  rewrite Hnames, lookup_fmap, init_objects_lookup, lookup_empty. split.
  - intros (c & Hc & Hname).
    assert (Hf : c ∈ filter (fun c => Metrics.name c = key) configs)
      by (apply list_elem_of_filter; auto).
    destruct (filter (fun c => Metrics.name c = key) configs) as [|x l] eqn:E.
    + inversion Hf.
    + rewrite last_cons. destruct (last l); cbn; eauto.
  - destruct (last (filter (fun c => Metrics.name c = key) configs)) as [c|] eqn:E;
      cbn; [|intros [x Hx]; discriminate].
    intros _. apply last_Some in E. destruct E as [l' Hl'].
    assert (Hf : c ∈ filter (fun c => Metrics.name c = key) configs).
    { rewrite Hl'. apply elem_of_app. right. apply list_elem_of_here. }
    apply list_elem_of_filter in Hf. destruct Hf. eauto.
Qed.

(** The metrics that [_init_metrics] links to a metric are the linked
    metrics of its configuration that are metrics of the host. *)
Lemma init_metrics_linked (configs : list MetricConfig) (now : Q) (key : string)
    (m : EmulatedMetric) (n : string) :
  snd (_init_metrics configs now) !! key = Some m ->
  n ∈ _linked_metrics m <->
  n ∈ linked_metrics (Metrics._config m) /\ is_Some (snd (_init_metrics configs now) !! n).
Proof.
  intros Hm.
  destruct (init_metrics_names configs now n) as [Hn1 Hn2].
  unfold _init_metrics in *. cbn [fst snd] in *.
  rewrite lookup_fmap in Hm.
  destruct (fold_left _ configs ∅ !! key) as [m0|] eqn:Hm0; [|discriminate].
  injection Hm as <-.
  assert (Hinit : _linked_metrics m0 = [] /\ True).
  { rewrite init_objects_lookup, lookup_empty in Hm0.
    destruct (last (filter _ configs)); [|discriminate]. injection Hm0 as <-. auto. }
  destruct Hinit as [Hinit _].
  rewrite link_existing_config. unfold link_existing.
  destruct (link_existing_linked (dict_keys (map Metrics.name configs) [])
              (linked_metrics (Metrics._config m0)) m0) as [_ Hin].
  { rewrite Hinit. constructor. }
  rewrite Hin, Hinit, <- Hn2. split.
  - intros [H | H]; [inversion H | exact H].
  - auto.
Qed.


(** X21.  For a host as its constructor builds it, the context built for
    a metric has a link under a name exactly when the name is among the
    linked metrics of the metric's configuration and is the name of a
    metric of the host; the link then carries the configuration, the
    value and the storage of that metric and the event of the call, and
    has no links of its own.  A linked name that the host does not have
    gives no link. *)
Theorem built_context_links (config : HostConfig) (callback : bool) (now : Q)
    (fake_hostname fake_ip : string) (key : string) (m : EmulatedMetric) (n : string)
    (event : option Events.Event) (clock : nat -> Q) :
  let h := Hosts.init config callback now fake_hostname fake_ip in
  _emulated_metrics h !! key = Some m ->
  let context := _build_metric_context (_emulated_metrics h) m event clock in
  (links_get n (links context) = None <->
   ~ (n ∈ linked_metrics (Metrics._config m)
      /\ exists c, c ∈ metrics config /\ Metrics.name c = n))
  /\ (forall linked,
        links_get n (links context) = Some linked ->
        exists peer,
          _emulated_metrics h !! n = Some peer
          /\ data linked = Metrics._config peer
          /\ value linked = _value peer
          /\ storage linked = _scenario_state peer
          /\ Metrics.event linked = event
          /\ links linked = []).
Proof.
  intros h Hm context. subst context h. unfold Hosts.init in *.
  pose proof (init_metrics_linked (metrics config) now key m n) as Hlinked.
  pose proof (init_metrics_names (metrics config) now n) as [Hn1 Hn2].
  destruct (_init_metrics (metrics config) now) as [names objects].
  cbn [_emulated_metrics fst snd] in *. specialize (Hlinked Hm).
  unfold _build_metric_context. cbn [links].
  pose proof (build_links_get objects event clock n (_linked_metrics m) 0) as Hget.
  destruct (links_get n (build_links objects event (_linked_metrics m) clock 0)) as [c|].
  - destruct Hget as [Hin Hpeer]. split.
    + split; [discriminate|]. intros Hnot. exfalso. apply Hnot.
      apply Hlinked in Hin. destruct Hin as [H1 H2]. split; [exact H1|].
      apply Hn1, Hn2. exact H2.
    + intros linked [= <-]. exact Hpeer.
  - split; [|discriminate]. split; [|reflexivity]. intros _ [H1 H2]. apply Hget.
    assert (Hsome : is_Some (objects !! n)) by (apply Hn2, Hn1; exact H2).
    split; [|exact Hsome]. apply Hlinked. auto.
Qed.

End ContextLinks.

Lemma built_context_links_witness :
  exists m context,
    Hosts._emulated_metrics Examples.memory_host !! "memory_percent" = Some m
    /\ Examples.memory_percent_context = Some context
    /\ Scenarios.links_get "disk" (Metrics.links context) = None
    /\ (exists linked, Scenarios.links_get "memory" (Metrics.links context) = Some linked
                       /\ Metrics.value linked = Some 4)
    /\ exists r, Metrics.returned
                   (Scenarios.relay_to_other_metric context "memory" Utils.calc_percent_usage)
                 = Ok (Some r) /\ r == 20.
Proof.
  destruct (Hosts._emulated_metrics Examples.memory_host !! "memory_percent") as [m|] eqn:Hm;
    [|vm_compute in Hm; discriminate].
  exists m, (Metrics._build_metric_context (Hosts._emulated_metrics Examples.memory_host) m None
               (Examples.clock_at 2000)).
  split; [reflexivity | split].
  { unfold Examples.memory_percent_context. rewrite Hm. reflexivity. }
  assert (Hcfg : Metrics.linked_metrics (Metrics._config m) = ["memory"; "disk"]).
  { vm_compute in Hm. injection Hm as <-. reflexivity. }
  split; [|split].
  - apply (proj1 (built_context_links Examples.memory_host_config true 1000
                    "stress01.lgs01.app.stage" "192.168.1.10" "memory_percent" m "disk"
                    None (Examples.clock_at 2000) Hm)).
    intros [_ (c & Hc & Hname)]. cbn in Hc.
    apply elem_of_cons in Hc. destruct Hc as [-> | Hc]; [discriminate|].
    apply list_elem_of_singleton in Hc. subst c. discriminate.
  - vm_compute in Hm. injection Hm as <-. eexists. split; reflexivity.
  - vm_compute in Hm. injection Hm as <-. eexists. split; [reflexivity|]. vm_compute. reflexivity.
Defined.

(* ===================================================================== *)
(** * Properties of the loader *)
(* ===================================================================== *)

Section LoaderProperties.
Import Loader.

Lemma find_first_entry {A : Type} (p : A -> bool) (l : list A) :
  match List.find p l with
  | Some x => exists before after, l = (before ++ x :: after)%list /\ p x = true
                                   /\ Forall (fun y => p y = false) before
  | None => Forall (fun y => p y = false) l
  end.
Proof.
  induction l as [|y rest IH]; cbn [List.find]; [constructor|].
  destruct (p y) eqn:E.
  - exists [], rest. split; [reflexivity | split; [exact E | constructor]].
  - destruct (List.find p rest) as [x|].
    + destruct IH as (before & after & -> & Hx & Hall).
      exists (y :: before), after. split; [reflexivity | split; [exact Hx|]].
      constructor; assumption.
    + constructor; assumption.
Qed.

(** X22.  [_select_config_class] returns a class of the list or raises.
    With a non-empty class name it returns the first class of that name,
    and raises a [ConfigLoadError] when there is none.  Without a class
    name, or with an empty one, it returns the first class whose name
    ends with ['Config'], else the first class of the list, and fails
    with an [IndexError] on the empty list. *)
Theorem select_config_class_spec {C : Type} (config_classes : list (string * C))
    (class_name : option string) :
  let selected := _select_config_class config_classes class_name in
  let named :=
    match class_name with
    | Some wanted => if String.eqb wanted "" then None else Some wanted
    | None => None
    end in
  (forall cls, selected = inr cls -> exists n, (n, cls) ∈ config_classes)
  /\ (forall wanted, named = Some wanted ->
        match selected with
        | inr cls =>
            exists before after,
              config_classes = (before ++ (wanted, cls) :: after)%list
              /\ Forall (fun entry => fst entry <> wanted) before
        | inl e =>
            e = ConfigLoadError "Class not found"
            /\ Forall (fun entry => fst entry <> wanted) config_classes
        end)
  /\ (named = None ->
      match selected with
      | inr cls =>
          (exists before after n,
              config_classes = (before ++ (n, cls) :: after)%list
              /\ endswith n DEFAULT_CONFIG_CLASS_SUFFIX = true
              /\ Forall (fun entry => endswith (fst entry) DEFAULT_CONFIG_CLASS_SUFFIX = false)
                        before)
          \/ (Forall (fun entry => endswith (fst entry) DEFAULT_CONFIG_CLASS_SUFFIX = false)
                     config_classes
              /\ exists n rest, config_classes = (n, cls) :: rest)
      | inl e => e = IndexError "list index out of range" /\ config_classes = []
      end).
Proof.
  intros selected named.
  (* the automatic choice *)
  set (auto :=
         match List.find (fun entry : string * C => endswith (fst entry) DEFAULT_CONFIG_CLASS_SUFFIX)
                         config_classes with
         | Some (_, cls) => inr cls
         | None =>
             match config_classes with
             | (_, cls) :: _ => inr cls
             | [] => inl (IndexError "list index out of range")
             end
         end).
  assert (Hauto : match auto with
                  | inr cls =>
                      (exists before after n,
                          config_classes = (before ++ (n, cls) :: after)%list
                          /\ endswith n DEFAULT_CONFIG_CLASS_SUFFIX = true
                          /\ Forall (fun entry : string * C =>
                                       endswith (fst entry) DEFAULT_CONFIG_CLASS_SUFFIX = false)
                                    before)
                      \/ (Forall (fun entry : string * C =>
                                    endswith (fst entry) DEFAULT_CONFIG_CLASS_SUFFIX = false)
                                 config_classes
                          /\ exists n rest, config_classes = (n, cls) :: rest)
                  | inl e => e = IndexError "list index out of range" /\ config_classes = []
                  end).
  { subst auto.
    pose proof (find_first_entry
                  (fun entry : string * C => endswith (fst entry) DEFAULT_CONFIG_CLASS_SUFFIX)
                  config_classes) as Hfind.
    destruct (List.find _ config_classes) as [[n cls]|].
    - destruct Hfind as (before & after & H1 & H2 & H3). left. exists before, after, n. auto.
    - destruct config_classes as [|[n cls] rest]; [auto|]. right. eauto. }
  assert (Hnamed : forall wanted, named = Some wanted ->
            selected = match List.find (fun entry : string * C => String.eqb (fst entry) wanted)
                                       config_classes with
                       | Some (_, cls) => inr cls
                       | None => inl (ConfigLoadError "Class not found")
                       end).
  { intros wanted H. unfold named in H. unfold selected, _select_config_class.
    destruct class_name as [w|]; [|discriminate H].
    destruct (String.eqb w "") eqn:E.
    - discriminate H.
    - injection H as Hw. subst w. reflexivity. }
  assert (Hunnamed : named = None -> selected = auto).
  { intros H. unfold named in H. unfold selected, auto, _select_config_class.
    destruct class_name as [w|]; [|reflexivity].
    destruct (String.eqb w "") eqn:E.
    - reflexivity.
    - discriminate H. }
  split; [|split].
  - intros cls Hsel. destruct named as [wanted|] eqn:En.
    + rewrite (Hnamed wanted eq_refl) in Hsel.
      pose proof (find_first_entry (fun entry : string * C => String.eqb (fst entry) wanted)
                    config_classes) as Hfind.
      destruct (List.find (fun entry : string * C => String.eqb (fst entry) wanted)
                          config_classes) as [[n c]|]; [|discriminate Hsel].
      injection Hsel as ->. destruct Hfind as (before & after & -> & _ & _).
      exists n. apply elem_of_app. right. apply list_elem_of_here.
    + rewrite (Hunnamed eq_refl) in Hsel. rewrite Hsel in Hauto.
      destruct Hauto as [(before & after & n & -> & _) | (_ & n & rest & ->)].
      * exists n. apply elem_of_app. right. apply list_elem_of_here.
      * exists n. apply list_elem_of_here.
  - intros wanted Hw. rewrite (Hnamed wanted Hw).
    pose proof (find_first_entry (fun entry : string * C => String.eqb (fst entry) wanted)
                  config_classes) as Hfind.
    destruct (List.find (fun entry : string * C => String.eqb (fst entry) wanted)
                        config_classes) as [[n c]|].
    + destruct Hfind as (before & after & -> & Hn & Hall). cbn [fst] in Hn.
      apply String.eqb_eq in Hn. subst n. exists before, after. split; [reflexivity|].
      eapply Forall_impl; [exact Hall|]. intros entry H. apply String.eqb_neq. exact H.
    + split; [reflexivity|].
      eapply Forall_impl; [exact Hfind|]. intros entry H. apply String.eqb_neq. exact H.
  - intros Hn. rewrite (Hunnamed Hn). exact Hauto.
Qed.

End LoaderProperties.

Section LoaderAndMixer.
Import Loader.
Variable Prom : Type.
Variable world : nat -> Q * string * string.

(** X23.  [_validate_mixer_config] rejects exactly the configurations on
    which the constructor of the mixer fails with the [ValueError] of
    [max()]; a configuration that it accepts, and whose hosts differ in
    job or name, constructs a mixer of that configuration. *)
Theorem validated_config_constructs (mixer_config : Mixer.MixerConfig) :
  (_validate_mixer_config mixer_config = inl (ConfigLoadError "Invalid MixerConfig: no hosts defined")
   <-> Mixer.init Prom mixer_config world = Raise (ValueError "max() of an empty sequence"))
  /\ (_validate_mixer_config mixer_config = inr tt ->
      NoDup (map (Mixer.host_key (Mixer.default_job_name mixer_config))
                 (Mixer.hosts mixer_config)) ->
      exists m, Mixer.init Prom mixer_config world = Ok m
                /\ Mixer._config Prom m = mixer_config).
Proof.
  unfold _validate_mixer_config, Mixer.init.
  destruct (Mixer.hosts mixer_config) as [|first others] eqn:Hhosts.
  - split; [split; reflexivity | discriminate].
  - pose proof (group_hosts_spec Prom (Mixer.default_job_name mixer_config) world
                  (first :: others) [] 0%nat [] ∅ ∅ ∅ (NoDup_nil_2 (A:=string * string))
                  (grouped_nil Prom (Mixer.default_job_name mixer_config))) as Hspec.
    cbn [app] in Hspec.
    destruct (Mixer.group_hosts Prom (Mixer.default_job_name mixer_config) (first :: others)
                world 0 ([], ∅, ∅, ∅)) as [[[regs merged] jh] | e].
    + split; [split; discriminate|]. intros _ _. eexists. split; reflexivity.
    + destruct Hspec as [-> Hdup].
      { intros job. rewrite lookup_empty. reflexivity. }
      split; [split; discriminate|]. intros _ Hnd. contradiction.
Qed.

End LoaderAndMixer.

(* ===================================================================== *)
(** * Properties of the emulated host: the published batch *)
(* ===================================================================== *)

Section PublishedBatch.
Import Storage.
Import Metrics.
Import Hosts.
Variable call : Callables.

(** A value that [update_value] returns is the value of the metric. *)
Lemma update_value_returns_stored (peers : gmap string EmulatedMetric) (m : EmulatedMetric)
    (event : option Events.Event) (now : Q) (clock : nat -> Q) (v : Q) (m' : EmulatedMetric)
    (em : list Events.Event) :
  update_value call peers m event now clock = (Some v, m', em) -> _value m' = Some v.
Proof.
  unfold update_value. destruct event as [e|].
  - rewrite compute_value_spec. intros [= Hv <- _]. exact Hv.
  - destruct (Qltb now (_start_time m)); [discriminate|].
    destruct (match Metrics.ttl (Metrics._config m) with
              | Some t => Qltb (_start_time m + t) now
              | None => false
              end); [discriminate|].
    destruct (Qltb (now - _last_update m) (update_interval (Metrics._config m))).
    + intros [= Hv <- _]. exact Hv.
    + rewrite compute_value_spec. intros [= Hv <- _]. exact Hv.
Qed.

Lemma update_one_consistent (readings : Readings) (visited : list string) (p p' : Pass)
    (key : string) (e : option exn) :
  key ∉ visited ->
  batch_consistent visited (objects p) (metrics_data p) ->
  update_one call readings p key = (p', e) ->
  batch_consistent (key :: visited) (objects p') (metrics_data p').
Proof.
  intros Hfresh [Hkeyed Hbatch] Hone. unfold update_one in Hone.
  assert (Hweaken : forall objs,
             keyed_by_name objs ->
             (forall k, k <> key -> objs !! k = objects p !! k) ->
             batch_consistent (key :: visited) objs (metrics_data p)).
  { intros objs Hk Hsame. split; [exact Hk|]. intros k x Hx.
    destruct (Hbatch k x Hx) as (Hin & metric & Hm & Hh).
    split; [apply list_elem_of_further; exact Hin|].
    exists metric. split; [|exact Hh]. rewrite Hsame; [exact Hm|].
    intros ->. contradiction. }
  destruct (objects p !! key) as [metric|] eqn:Hmetric.
  2:{ injection Hone as <- <-. apply Hweaken; [exact Hkeyed | reflexivity]. }
  pose proof (update_value_config call (objects p) metric None (fst (readings key))
                (snd (readings key))) as Hcfg.
  pose proof (update_value_returns_stored (objects p) metric None (fst (readings key))
                (snd (readings key))) as Hstored.
  destruct (update_value call (objects p) metric None (fst (readings key))
              (snd (readings key))) as [[value metric'] em].
  cbn [fst snd] in Hcfg.
  assert (Hname : Metrics.name (Metrics._config metric') = key).
  { rewrite Hcfg. apply (Hkeyed _ _ Hmetric). }
  pose proof (keyed_insert _ _ _ _ Hkeyed Hmetric Hcfg) as Hkeyed1.
  assert (Hsame1 : forall k, k <> key -> <[key := metric']> (objects p) !! k = objects p !! k).
  { intros k Hne. apply lookup_insert_ne. congruence. }
  destruct value as [v|].
  2:{ injection Hone as <- <-. cbn [objects metrics_data]. apply Hweaken; assumption. }
  specialize (Hstored v metric' em eq_refl).
  (* an entry for the metric itself *)
  assert (Hentry : forall objs x held,
             keyed_by_name objs ->
             (forall k, k <> key -> objs !! k = objects p !! k) ->
             objs !! key = Some held -> holds held x ->
             batch_consistent (key :: visited) objs (dict_set key x (metrics_data p))).
  { intros objs x held Hk Hsame Hheld Hholds. split; [exact Hk|]. intros k y Hy.
    destruct (decide (k = key)) as [-> | Hne].
    - rewrite dict_get_set_eq in Hy. injection Hy as <-.
      split; [apply list_elem_of_here|]. eauto.
    - rewrite dict_get_set_ne in Hy by exact Hne.
      destruct (Hbatch k y Hy) as (Hin & metric0 & Hm & Hh).
      split; [apply list_elem_of_further; exact Hin|].
      exists metric0. split; [|exact Hh]. rewrite Hsame; [exact Hm | exact Hne]. }
  rewrite Hname in Hone.
  destruct (metric_type (Metrics._config metric')) eqn:Htype.
  - injection Hone as <- <-. cbn [objects metrics_data].
    apply (Hentry _ v metric'); [exact Hkeyed1 | exact Hsame1 | apply lookup_insert_eq |].
    unfold holds. rewrite Htype. exact Hstored.
  - destruct (as_num (get "counter_total" (VNum 0) (_scenario_state metric'))) as [total|].
    + injection Hone as <- <-. cbn [objects metrics_data].
      apply (Hentry _ (total + v)
               (with_scenario_state metric'
                  (set "counter_total" (VNum (total + v)) (_scenario_state metric')))).
      * apply (keyed_insert _ _ metric'); [exact Hkeyed1 | apply lookup_insert_eq | reflexivity].
      * intros k Hne. rewrite lookup_insert_ne by congruence. apply Hsame1. exact Hne.
      * apply lookup_insert_eq.
      * unfold holds. cbn [Metrics._config with_scenario_state _scenario_state].
        rewrite Htype. unfold set. apply lookup_insert_eq.
    + injection Hone as <- <-. cbn [objects metrics_data]. apply Hweaken; assumption.
  - injection Hone as <- <-. cbn [objects metrics_data].
    apply (Hentry _ v metric'); [exact Hkeyed1 | exact Hsame1 | apply lookup_insert_eq |].
    unfold holds. rewrite Htype. exact Hstored.
Qed.

Lemma update_all_consistent (readings : Readings) (keys : list string) :
  forall (visited : list string) (p p' : Pass) (e : option exn),
    NoDup (keys ++ visited) ->
    batch_consistent visited (objects p) (metrics_data p) ->
    update_all call readings keys p = (p', e) ->
    exists visited',
      batch_consistent visited' (objects p') (metrics_data p')
      /\ forall k, k ∈ visited' -> k ∈ keys \/ k ∈ visited.
Proof.
  induction keys as [|key rest IH]; intros visited p p' e Hnd Hinv Hall;
    cbn [update_all] in Hall.
  - injection Hall as <- <-. exists visited. split; [exact Hinv | auto].
  - cbn [app] in Hnd. apply NoDup_cons in Hnd. destruct Hnd as [Hfresh Hnd].
    destruct (update_one call readings p key) as [p1 [e1|]] eqn:Hone.
    + injection Hall as <- <-. exists (key :: visited). split.
      * apply (update_one_consistent readings visited p p1 key (Some e1)); try assumption.
        intros H. apply Hfresh. apply elem_of_app. auto.
      * intros k Hk. apply elem_of_cons in Hk. destruct Hk as [-> | Hk].
        -- left. apply list_elem_of_here.
        -- auto.
    + assert (Hinv1 : batch_consistent (key :: visited) (objects p1) (metrics_data p1)).
      { apply (update_one_consistent readings visited p p1 key None); try assumption.
        intros H. apply Hfresh. apply elem_of_app. auto. }
      destruct (IH (key :: visited) p1 p' e) as (visited' & Hinv' & Hsub); try assumption.
      * apply NoDup_app in Hnd. destruct Hnd as (Hnd1 & Hdisj & Hnd2).
        apply NoDup_app. split; [exact Hnd1|]. split.
        -- intros x Hx Hx'. apply elem_of_cons in Hx'. destruct Hx' as [-> | Hx'].
           ++ apply Hfresh. apply elem_of_app. auto.
           ++ apply (Hdisj x Hx Hx').
        -- constructor; [|exact Hnd2]. intros H. apply Hfresh. apply elem_of_app. auto.
      * exists visited'. split; [exact Hinv'|]. intros k Hk.
        destruct (Hsub k Hk) as [H | H].
        -- left. apply list_elem_of_further. exact H.
        -- apply elem_of_cons in H. destruct H as [-> | H]; [left; apply list_elem_of_here | auto].
Qed.

(** X24.  What a turn of the loop publishes is what the host holds.  For
    a host whose metrics sit under their names, each once: a published
    batch is not empty and is kept as the last metrics data; every entry
    bears the name of a metric of the host, and is the value that this
    metric holds after the turn or, for a counter, the total kept in its
    storage. *)
Theorem published_batch_consistent (h h' : EmulatedHost) (t : Q) (readings : Readings)
    (s : shown) (batch : list (string * Q)) :
  keyed_by_name (_emulated_metrics h) ->
  NoDup (_metric_names h) ->
  step call h (Turn t readings) = (s, h') ->
  published s = Some batch ->
  batch <> []
  /\ _last_metrics_data h' = batch
  /\ forall k x,
       dict_get k batch = Some x ->
       k ∈ _metric_names h
       /\ exists metric, _emulated_metrics h' !! k = Some metric
                         /\ Metrics.name (Metrics._config metric) = k
                         /\ holds metric x.
Proof.
  intros Hkeyed Hnd Hstep Hpub. cbn [step] in Hstep. unfold run_loop_iteration in Hstep.
  destruct (negb (_is_running h)) eqn:Hrun.
  { injection Hstep as <- <-. discriminate. }
  destruct (Qltb (Hosts.ttl (Hosts._config h)) (t - _host_start_time h)).
  { injection Hstep as <- <-. discriminate. }
  unfold _update_metrics in Hstep. apply negb_false_iff in Hrun. rewrite Hrun in Hstep.
  set (p0 := {| objects := _emulated_metrics h; metrics_data := [];
                scheduled := []; observed := [] |}) in *.
  assert (Hinv0 : batch_consistent [] (objects p0) (metrics_data p0)).
  { split; [exact Hkeyed|]. intros k x Hx. discriminate. }
  destruct (update_all call readings (_metric_names h) p0) as [p [e|]] eqn:Hall.
  - cbn [length Nat.eqb negb andb] in Hstep. rewrite andb_false_r in Hstep.
    injection Hstep as <- <-. discriminate.
  - destruct (update_all_consistent readings (_metric_names h) [] p0 p None)
      as (visited & [Hk Hb] & Hsub); try assumption.
    { rewrite app_nil_r. exact Hnd. }
    destruct (_update_callback h && negb (Nat.eqb (length (metrics_data p)) 0)) eqn:Hcb;
      injection Hstep as <- <-; cbn [published] in Hpub; [|discriminate].
    injection Hpub as <-. apply andb_prop in Hcb. destruct Hcb as [_ Hlen].
    split; [|split].
    + intros E. rewrite E in Hlen. discriminate.
    + reflexivity.
    + intros k x Hx. destruct (Hb k x Hx) as (Hin & metric & Hm & Hh).
      split.
      * destruct (Hsub k Hin) as [H | H]; [exact H | inversion H].
      * exists metric. cbn [_emulated_metrics with_last_metrics_data with_metrics].
        split; [exact Hm | split; [apply (Hk _ _ Hm) | exact Hh]].
Qed.

End PublishedBatch.

Lemma published_batch_consistent_witness :
  let step := Hosts.step Examples.library Examples.requests_host (Examples.turn_at 2000) in
  exists batch metric,
    Hosts.published (fst step) = Some batch
    /\ batch <> []
    /\ Hosts.dict_get "requests" batch = Some (500 # 100)
    /\ Hosts._emulated_metrics (snd step) !! "requests" = Some metric
    /\ Hosts.holds metric (500 # 100).
Proof.
  intros step.
  assert (Hkeyed : Hosts.keyed_by_name (Hosts._emulated_metrics Examples.requests_host)).
  { unfold Examples.requests_host. rewrite start_metrics. apply init_keyed. }
  assert (Hnd : NoDup (Hosts._metric_names Examples.requests_host)).
  { vm_compute. apply NoDup_singleton. }
  destruct (Hosts.published (fst step)) as [batch|] eqn:Hpub; [|vm_compute in Hpub; discriminate].
  destruct (published_batch_consistent Examples.library Examples.requests_host (snd step) 2000
              (fun _ => (2000, Examples.clock_at 2000)) (fst step) batch Hkeyed Hnd
              ltac:(subst step; apply surjective_pairing) Hpub)
    as (Hne & _ & Hall).
  assert (Hget : Hosts.dict_get "requests" batch = Some (500 # 100)).
  { vm_compute in Hpub. injection Hpub as <-. reflexivity. }
  destruct (Hall "requests" (500 # 100) Hget) as (_ & metric & Hm & _ & Hh).
  exists batch, metric. auto.
Defined.

(* ===================================================================== *)
(** * Properties of the scenarios: [calc_by_event] under [update_value] *)
(* ===================================================================== *)

Section CalcByEvent.
Import Storage.
Import Metrics.
Import Scenarios.
Variable call : Callables.
Variable peers : gmap string EmulatedMetric.

(** Without a calc function for the event of the context, [calc_by_event]
    returns the value and touches nothing. *)
Lemma calc_by_event_unconfigured (context : MetricContext)
    (events_config : option (gmap string pyval)) :
  (forall ev config, event context = Some ev -> events_config = Some config ->
                     config !! Events.name ev = None) ->
  calc_by_event call context events_config
  = {| returned := Ok (value context); stored := storage context;
       emitted := []; logged := [] |}.
Proof.
  intros H. unfold calc_by_event.
  destruct (event context) as [ev|]; [|reflexivity].
  destruct events_config as [config|]; [|reflexivity].
  destruct (Nat.eqb (size config) 0); [reflexivity|].
  rewrite (H ev config eq_refl eq_refl). reflexivity.
Qed.

(** X25.  A metric whose scenario is [calc_by_event], with a value that
    an update has computed, ignores the events it has no calc function
    for: an update by such an event, like an update by the clock, computes
    a value equal to the current one (or, by the clock outside the
    metric's time window, returns nil), leaves the storage as it is and
    emits nothing. *)
Theorem calc_by_event_ignores_other_events (m : EmulatedMetric) (f : func)
    (events_config : option (gmap string pyval)) (e : Events.Event) (now : Q)
    (clock : nat -> Q) (o : option Q) :
  fst (value_range (_config m)) <= snd (value_range (_config m)) ->
  Metrics.scenario (_config m) = Some f ->
  (forall context kw, call f context kw = calc_by_event call context events_config) ->
  _value m = checked_and_cut (_config m) o ->
  (forall config, events_config = Some config -> config !! Events.name e = None) ->
  let by_event := update_value call peers m (Some e) now clock in
  let by_tick := update_value call peers m None now clock in
  (option_Forall2 Qeq (fst (fst by_event)) (_value m)
   /\ _scenario_state (snd (fst by_event)) = _scenario_state m
   /\ snd by_event = [])
  /\ ((fst (fst by_tick) = None \/ option_Forall2 Qeq (fst (fst by_tick)) (_value m))
      /\ _scenario_state (snd (fst by_tick)) = _scenario_state m
      /\ snd by_tick = []).
Proof.
  intros Hr Hsc Hcall Hvalue Hother by_event by_tick. subst by_event by_tick.
  assert (Hscenario : forall m0 event,
             _config m0 = _config m -> _value m0 = _value m ->
             _scenario_state m0 = _scenario_state m ->
             (forall ev, event = Some ev -> ev = e) ->
             _update_value_by_scenario call peers m0 event clock
             = (_value m, _scenario_state m, [])).
  { intros m0 event Hc Hv Hst Hev. unfold _update_value_by_scenario.
    rewrite Hc, Hsc, Hcall, calc_by_event_unconfigured.
    - cbn [returned stored emitted _build_metric_context value storage].
      rewrite Hv, Hst. reflexivity.
    - intros ev config Hev' Hcfg. cbn [_build_metric_context Metrics.event] in Hev'.
      rewrite (Hev ev Hev'). apply Hother. exact Hcfg. }
  assert (Hsettled : option_Forall2 Qeq (checked_and_cut (_config m) (_value m)) (_value m)).
  { rewrite Hvalue. apply checked_and_cut_idempotent. exact Hr. }
  split.
  - unfold update_value. rewrite compute_value_spec.
    rewrite (Hscenario m (Some e) eq_refl eq_refl eq_refl); [|intros ev [= <-]; reflexivity].
    cbn [fst snd _scenario_state]. auto.
  - unfold update_value.
    destruct (Qltb now (_start_time m)); [cbn [fst snd]; auto|].
    destruct (match ttl (_config m) with
              | Some t => Qltb (_start_time m + t) now
              | None => false
              end); [cbn [fst snd]; auto|].
    destruct (Qltb (now - _last_update m) (update_interval (_config m))).
    + cbn [fst snd]. split; [|auto]. right.
      destruct (_value m); constructor. reflexivity.
    + rewrite compute_value_spec.
      rewrite (Hscenario (with_last_update m now) None eq_refl eq_refl eq_refl);
        [|intros ev [=]].
      cbn [fst snd _scenario_state _config with_last_update]. auto.
Qed.

End CalcByEvent.

Lemma calc_by_event_ignores_other_events_witness :
  let m := Examples.workers_metric in
  let by_event := Metrics.update_value Examples.workers_library ∅ m
                    (Some Examples.failing_event) 2000 (Examples.clock_at 2000) in
  option_Forall2 Qeq (fst (fst by_event)) (Metrics._value m)
  /\ Metrics._scenario_state (snd (fst by_event)) = Metrics._scenario_state m
  /\ snd by_event = [].
Proof.
  intros m by_event.
  assert (Hr : fst (Metrics.value_range (Metrics._config m))
               <= snd (Metrics.value_range (Metrics._config m)))
    by (vm_compute; discriminate).
  assert (Hcall : forall context kw,
             Examples.workers_library (LibFunc "calc_by_event") context kw
             = Scenarios.calc_by_event Examples.workers_library context
                                       (Some Examples.workers_events)).
  { intros context kw. unfold Examples.workers_library, Scenarios.calc_by_event.
    destruct (Metrics.event context) as [ev|]; [|reflexivity].
    destruct (Nat.eqb (size Examples.workers_events) 0); [reflexivity|].
    destruct (Examples.workers_events !! Events.name ev) as [v|] eqn:E; [|reflexivity].
    unfold Examples.workers_events in E. apply lookup_singleton_Some in E.
    destruct E as [_ <-]. reflexivity. }
  assert (Hother : forall config, Some Examples.workers_events = Some config ->
                                  config !! Events.name Examples.failing_event = None).
  { intros config [= <-]. reflexivity. }
  exact (proj1 (calc_by_event_ignores_other_events Examples.workers_library ∅ m
                  (LibFunc "calc_by_event") (Some Examples.workers_events)
                  Examples.failing_event 2000 (Examples.clock_at 2000) (Some 3)
                  Hr eq_refl Hcall eq_refl Hother)).
Defined.

(* ===================================================================== *)
(** * Properties of the mixer: the setup of the metrics of a job *)
(* ===================================================================== *)

Section MixerSetup.
Import Metrics.
Import Hosts.
Import Mixer.
Variable Prom : Type.
Variable prom_new : MetricType -> string -> string -> list string -> option Prom.
Variable world : nat -> Q * string * string.

(** The entry of a name in a list of named configs: the first one. *)
Lemma unique_first (entries : list (string * MetricConfig)) :
  forall acc : list (string * MetricConfig),
    NoDup (map fst acc) ->
    let unique := fold_left
                    (fun acc entry =>
                       if bool_decide (fst entry ∈ map fst acc) then acc
                       else (acc ++ [entry])%list) entries acc in
    NoDup (map fst unique)
    /\ (forall entry,
          entry ∈ unique <->
          (entry ∈ acc
           \/ ((fst entry ∉ map fst acc)
               /\ exists before after,
                    entries = (before ++ entry :: after)%list
                    /\ fst entry ∉ map fst before))).
Proof.
  induction entries as [|[n0 c0] rest IH]; intros acc Hnd; cbn [fold_left].
  - split; [exact Hnd|]. intros [n config]; cbn [fst]. split; [auto|].
    intros [H | (_ & before & after & H & _)]; [exact H|].
    destruct before; discriminate.
  - cbn [fst]. destruct (bool_decide (n0 ∈ map fst acc)) eqn:E.
    + apply bool_decide_eq_true in E. destruct (IH acc Hnd) as [H1 H2].
      split; [exact H1|]. intros [n config]. rewrite H2. cbn [fst]. split.
      * intros [H | (Hn & before & after & -> & Hb)]; [auto|]. right. split; [exact Hn|].
        exists ((n0, c0) :: before), after. split; [reflexivity|].
        cbn [map fst]. intros Hin. apply elem_of_cons in Hin.
        destruct Hin as [-> | Hin]; contradiction.
      * intros [H | (Hn & before & after & Heq & Hb)]; [auto|]. right. split; [exact Hn|].
        destruct before as [|b before'].
        -- cbn [app] in Heq. injection Heq as -> -> ->. contradiction.
        -- cbn [app] in Heq. injection Heq as Hb0 ->. subst b. exists before', after.
           split; [reflexivity|]. intros Hin. apply Hb. cbn [map].
           apply list_elem_of_further. exact Hin.
    + apply bool_decide_eq_false in E.
      assert (Hnd' : NoDup (map fst (acc ++ [(n0, c0)]))).
      { rewrite map_app. cbn [map fst]. apply NoDup_app. split; [exact Hnd|].
        split; [|apply NoDup_singleton].
        intros x Hx Hx'. apply list_elem_of_singleton in Hx'. subst x. contradiction. }
      destruct (IH _ Hnd') as [H1 H2].
      split; [exact H1|]. intros [n config]. rewrite H2, map_app, !elem_of_app. cbn [fst].
      cbn [map fst]. rewrite !list_elem_of_singleton. split.
      * intros [[H | H] | (Hn & before & after & -> & Hb)].
        -- auto.
        -- injection H as -> ->. right. split; [exact E|].
           exists [], rest. split; [reflexivity|]. intros Hin. inversion Hin.
        -- right. split; [intros Hin; apply Hn; auto|].
           exists ((n0, c0) :: before), after. split; [reflexivity|].
           cbn [map fst]. intros Hin. apply elem_of_cons in Hin.
           destruct Hin as [-> | Hin]; [apply Hn; auto | contradiction].
      * intros [H | (Hn & before & after & Heq & Hb)]; [auto|].
        destruct before as [|b before'].
        -- cbn [app] in Heq. injection Heq as -> -> ->. auto.
        -- cbn [app] in Heq. injection Heq as Hb0 ->. subst b. right.
           split.
           ++ intros [Hin | ->]; [contradiction|]. apply Hb. cbn [map fst].
              apply list_elem_of_here.
           ++ exists before', after. split; [reflexivity|]. intros Hin. apply Hb.
              cbn [map]. apply list_elem_of_further. exact Hin.
Qed.

(** The cells that the setup makes for a metric. *)
Lemma create_metrics_cells (job : string) (names : list string)
    (todo : list (string * MetricConfig)) :
  (forall t n doc l, is_Some (prom_new t n doc l)) ->
  NoDup (map fst todo) ->
  forall merged,
    exists merged',
      create_metrics Prom prom_new job names todo merged = (merged', None)
      /\ (forall other, other <> job -> merged' !! other = merged !! other)
      /\ (forall n, n ∉ map fst todo ->
                    default ∅ (merged' !! job) !! n = default ∅ (merged !! job) !! n)
      /\ (forall n config, (n, config) ∈ todo ->
            exists prom_metric,
              default ∅ (merged' !! job) !! n
              = Some (<["_metric_type" := TypeCell Prom (metric_type config)]>
                        (<["_prom_metric" := PromCell Prom prom_metric]>
                           (default ∅ (default ∅ (merged !! job) !! n))))).
Proof.
  intros Htotal. induction todo as [|[n0 c0] rest IH]; intros Hnd merged;
    cbn [create_metrics].
  - exists merged. split; [reflexivity | split; [reflexivity | split; [reflexivity|]]].
    intros n config H. inversion H.
  - cbn [map fst] in Hnd. apply NoDup_cons in Hnd. destruct Hnd as [Hfresh Hnd].
    destruct (Htotal (metric_type c0) n0
                (if String.eqb (description c0) ""
                 then n0 ++ match metric_type c0 with
                            | GAUGE => " metric" | COUNTER => " counter"
                            | HISTOGRAM => " histogram"
                            end
                 else description c0) names) as [prom_metric Hnew].
    rewrite Hnew.
    set (of_metric := <["_metric_type" := TypeCell Prom (metric_type c0)]>
                        (<["_prom_metric" := PromCell Prom prom_metric]>
                           (default ∅ (default ∅ (merged !! job) !! n0)))).
    set (merged1 := <[job := <[n0 := of_metric]> (default ∅ (merged !! job))]> merged).
    destruct (IH Hnd merged1) as (merged' & Hrun & Hother & Hkeep & Hcells).
    exists merged'. split; [exact Hrun | split; [|split]].
    + intros other Hne. rewrite Hother by exact Hne. subst merged1.
      apply lookup_insert_ne. congruence.
    + intros n Hn. cbn [map fst] in Hn. rewrite Hkeep.
      * subst merged1. rewrite lookup_insert_eq. cbn [from_option]. unfold id.
        apply lookup_insert_ne. intros ->. apply Hn. apply list_elem_of_here.
      * intros Hin. apply Hn. apply list_elem_of_further. exact Hin.
    + intros n config Hin. apply elem_of_cons in Hin. destruct Hin as [Heq | Hin].
      * injection Heq as -> ->. exists prom_metric. rewrite Hkeep by exact Hfresh.
        subst merged1. rewrite lookup_insert_eq. cbn [from_option]. unfold id.
        apply lookup_insert_eq.
      * destruct (Hcells n config Hin) as [p Hp]. exists p. rewrite Hp.
        assert (Hne : n <> n0).
        { intros ->. apply Hfresh. change (map fst rest) with (fst <$> rest).
          apply list_elem_of_fmap. exists (n0, config). auto. }
        subst merged1. rewrite lookup_insert_eq. cbn [from_option]. unfold id.
        rewrite lookup_insert_ne by congruence. reflexivity.
Qed.

(** The setup of a job that has its registry and hosts and no metric yet. *)
Lemma setup_of_fresh_job (m : MetricsMixer Prom) (job : string)
    (job_hosts : list EmulatedHost) :
  (forall t n doc l, is_Some (prom_new t n doc l)) ->
  _merged_metrics Prom m !! job = Some ∅ ->
  job ∈ _job_registries Prom m ->
  _job_hosts Prom m !! job = Some job_hosts ->
  exists m' of_job,
    _setup_prometheus_metrics_for_job Prom prom_new m job = (m', None)
    /\ _merged_metrics Prom m' !! job = Some of_job
    /\ (forall other, other <> job ->
                      _merged_metrics Prom m' !! other = _merged_metrics Prom m !! other)
    /\ (forall n,
          of_job !! n = None <->
          forall config, (n, config) ∉ concat (map (host_metrics) job_hosts))
    /\ (forall n config before after,
          concat (map host_metrics job_hosts) = (before ++ (n, config) :: after)%list ->
          n ∉ map fst before ->
          exists prom_metric,
            of_job !! n
            = Some (<["_metric_type" := TypeCell Prom (metric_type config)]>
                      {[ "_prom_metric" := PromCell Prom prom_metric ]}))
    /\ (of_job <> ∅ -> _setup_prometheus_metrics_for_job Prom prom_new m' job = (m', None)).
Proof.
  intros Htotal Hfresh Hreg Hhosts.
  unfold _setup_prometheus_metrics_for_job at 1. rewrite Hfresh, Hhosts.
  change (size (∅ : gmap string (gmap string (cell Prom)))) with 0%nat.
  cbn [Nat.eqb negb]. rewrite bool_decide_eq_true_2 by exact Hreg. cbn [negb].
  destruct (unique_first (concat (map host_metrics job_hosts)) [] (NoDup_nil_2 (A:=string)))
    as [Hnd Hunique].
  fold (unique_metrics job_hosts) in Hnd, Hunique.
  destruct (create_metrics_cells job (label_names job_hosts) (unique_metrics job_hosts)
              Htotal Hnd (_merged_metrics Prom m))
    as (merged' & Hrun & Hother & Hkeep & Hcells).
  rewrite Hrun.
  assert (Hjob : exists of_job, merged' !! job = Some of_job).
  { destruct (unique_metrics job_hosts) as [|[n0 c0] rest] eqn:Hu.
    - cbn [create_metrics] in Hrun. injection Hrun as <-. eauto.
    - destruct (Hcells n0 c0 (list_elem_of_here _ _)) as [p Hp].
      destruct (merged' !! job) as [of_job|]; [eauto|].
      cbn in Hp. rewrite lookup_empty in Hp. discriminate. }
  destruct Hjob as [of_job Hjob].
  rewrite Hjob in Hkeep, Hcells. rewrite Hfresh in Hkeep, Hcells.
  cbn [from_option] in Hkeep, Hcells. unfold id in Hkeep, Hcells.
  assert (Hfirst : forall n config,
             (n, config) ∈ unique_metrics job_hosts <->
             exists before after,
               concat (map host_metrics job_hosts) = (before ++ (n, config) :: after)%list
               /\ n ∉ map fst before).
  { intros n config. rewrite (Hunique (n, config)). cbn [fst]. split.
    - intros [H | (_ & H)]; [inversion H | exact H].
    - intros H. right. split; [intros Hin; inversion Hin | exact H]. }
  assert (Hnames : forall n, n ∈ map fst (unique_metrics job_hosts) <->
                             exists config, (n, config) ∈ concat (map host_metrics job_hosts)).
  { intros n. change (map fst ?l) with (fst <$> l). rewrite list_elem_of_fmap. split.
    - intros ([n' config] & -> & Hin). apply Hfirst in Hin.
      destruct Hin as (before & after & -> & _). exists config.
      apply elem_of_app. right. apply list_elem_of_here.
    - intros (config & Hin).
      (* the first entry of the name *)
      assert (Hex : exists config' before after,
                 concat (map host_metrics job_hosts) = (before ++ (n, config') :: after)%list
                 /\ n ∉ map fst before).
      { clear -Hin. induction (concat (map host_metrics job_hosts)) as [|[n1 c1] l IH].
        - inversion Hin.
        - destruct (decide (n1 = n)) as [-> | Hne].
          + exists c1, [], l. split; [reflexivity|]. intros H. inversion H.
          + apply elem_of_cons in Hin. destruct Hin as [Heq | Hin]; [congruence|].
            destruct (IH Hin) as (config' & before & after & -> & Hb).
            exists config', ((n1, c1) :: before), after. split; [reflexivity|].
            cbn [map fst]. intros H. apply elem_of_cons in H.
            destruct H as [-> | H]; contradiction. }
      destruct Hex as (config' & before & after & Heq & Hb).
      exists (n, config'). split; [reflexivity|]. apply Hfirst. eauto. }
  exists (with_merged Prom m merged'), of_job.
  split; [reflexivity | split; [exact Hjob | split; [exact Hother | split; [|split]]]].
  - intros n. split.
    + intros Hnone config Hin.
      assert (Hn : n ∈ map fst (unique_metrics job_hosts)) by (apply Hnames; eauto).
      change (map fst ?l) with (fst <$> l) in Hn. apply list_elem_of_fmap in Hn.
      destruct Hn as ([n' config'] & -> & Hin'). destruct (Hcells _ _ Hin') as [p Hp].
      cbn [fst] in Hnone. rewrite Hnone in Hp. discriminate.
    + intros Hnone. rewrite Hkeep; [apply lookup_empty|].
      intros Hn. apply Hnames in Hn. destruct Hn as [config Hin]. apply (Hnone config Hin).
  - intros n config before after Heq Hb.
    destruct (Hcells n config) as [p Hp]; [apply Hfirst; eauto|].
    exists p. rewrite Hp, lookup_empty. reflexivity.
  - intros Hne. unfold _setup_prometheus_metrics_for_job.
    cbn [_merged_metrics with_merged]. rewrite Hjob.
    assert (Hsize : Nat.eqb (size of_job) 0 = false).
    { apply Nat.eqb_neq. intros Hz. apply Hne. apply map_size_empty_iff. exact Hz. }
    rewrite Hsize. reflexivity.
Qed.

(** X26.  The first setup of the metrics of a job of a new mixer, with a
    client library whose constructors succeed, registers one Prometheus
    object per metric name of the hosts of the job and nothing else: a
    name that several hosts have gets the type of the first host that has
    it, in the order of the hosts and of their metrics, whatever the type
    the later hosts give it.  The other jobs are left alone, and a second
    setup of the job changes nothing. *)
Theorem setup_registers_first_config (config : MixerConfig) (m : MetricsMixer Prom)
    (job : string) :
  (forall t n doc l, is_Some (prom_new t n doc l)) ->
  Mixer.init Prom config world = Ok m ->
  job ∈ _job_registries Prom m ->
  let entries := concat (map host_metrics (default [] (_job_hosts Prom m !! job))) in
  exists m' of_job,
    _setup_prometheus_metrics_for_job Prom prom_new m job = (m', None)
    /\ _merged_metrics Prom m' !! job = Some of_job
    /\ (forall other, other <> job ->
                      _merged_metrics Prom m' !! other = _merged_metrics Prom m !! other)
    /\ (forall n, of_job !! n = None <-> forall config, (n, config) ∉ entries)
    /\ (forall n config before after,
          entries = (before ++ (n, config) :: after)%list ->
          n ∉ map fst before ->
          exists prom_metric,
            of_job !! n
            = Some (<["_metric_type" := TypeCell Prom (metric_type config)]>
                      {[ "_prom_metric" := PromCell Prom prom_metric ]}))
    /\ (of_job <> ∅ -> _setup_prometheus_metrics_for_job Prom prom_new m' job = (m', None)).
Proof.
  intros Htotal Hinit Hjob entries. subst entries.
  unfold Mixer.init in Hinit. destruct (hosts config) as [|first others]; [discriminate|].
  pose proof (group_hosts_spec Prom (default_job_name config) world (first :: others)
                [] 0%nat [] ∅ ∅ ∅ (NoDup_nil_2 (A:=string * string))
                (grouped_nil Prom (default_job_name config))) as Hspec.
  cbn [app] in Hspec.
  destruct (group_hosts Prom (default_job_name config) (first :: others) world 0
              ([], ∅, ∅, ∅)) as [[[regs merged] jh] | e]; [|discriminate].
  destruct Hspec as [_ (_ & G2 & _ & _ & G5)].
  { intros j. rewrite lookup_empty. reflexivity. }
  injection Hinit as <-. cbn [_job_registries _job_hosts] in *.
  destruct (proj2 (G2 job) Hjob) as [job_hosts Hhosts].
  rewrite Hhosts. cbn [from_option]. unfold id.
  apply setup_of_fresh_job.
  - exact Htotal.
  - cbn [_merged_metrics]. rewrite G5, bool_decide_eq_true_2; [reflexivity | exact Hjob].
  - exact Hjob.
  - exact Hhosts.
Qed.

End MixerSetup.

Lemma setup_registers_first_config_witness :
  exists m m' of_job,
    Mixer.init unit (Examples.mixer_config "db" "web") Examples.world = Ok m
    /\ Mixer._setup_prometheus_metrics_for_job unit Examples.prom_new m "job" = (m', None)
    /\ Mixer._merged_metrics unit m' !! "job" = Some of_job
    /\ of_job !! "cpu"
       = Some (<["_metric_type" := Mixer.TypeCell unit Metrics.GAUGE]>
                 {[ "_prom_metric" := Mixer.PromCell unit tt ]})
    /\ of_job !! "memory" = None.
Proof.
  destruct (Mixer.init unit (Examples.mixer_config "db" "web") Examples.world) as [m|e] eqn:Hinit;
    [|vm_compute in Hinit; discriminate].
  assert (Hjob : "job" ∈ Mixer._job_registries unit m).
  { pose proof Hinit as H. vm_compute in H. injection H as <-. apply list_elem_of_here. }
  assert (Hentries :
            concat (map Mixer.host_metrics (default [] (Mixer._job_hosts unit m !! "job")))
            = [("cpu", Examples.cpu_config); ("cpu", Examples.cpu_config)]).
  { pose proof Hinit as H. vm_compute in H. injection H as <-. vm_compute. reflexivity. }
  destruct (setup_registers_first_config unit Examples.prom_new Examples.world
              (Examples.mixer_config "db" "web") m "job"
              ltac:(intros; eexists; reflexivity) Hinit Hjob)
    as (m' & of_job & Hrun & Hmerged & _ & Hnone & Hfirst & _).
  exists m, m', of_job.
  split; [reflexivity | split; [exact Hrun | split; [exact Hmerged | split]]].
  - destruct (Hfirst "cpu" Examples.cpu_config [] [("cpu", Examples.cpu_config)] Hentries)
      as [[] Hcell].
    + intros H. inversion H.
    + exact Hcell.
  - apply Hnone. rewrite Hentries. intros config H.
    apply elem_of_cons in H. destruct H as [H | H]; [discriminate|].
    apply list_elem_of_singleton in H. discriminate.
Defined.

(* ===================================================================== *)
(** * Properties of the scenarios: runs of [update_by_trend] *)
(* ===================================================================== *)

Section TrendRuns.
Import Storage.
Import Metrics.
Import Scenarios.

(** The calls on a storage that holds the accumulated value. *)
Lemma trend_calls_accumulated (trend : string) (lo hi : Q) (low high : Q) :
  0 <= lo -> lo <= hi ->
  (trend = "up" /\ low = lo /\ high = hi) \/ (trend = "down" /\ low = - hi /\ high = - lo) ->
  forall (calls : list (option Q * Q)) (context : MetricContext) (a : Q),
    storage context !! "accumulated_value" = Some (VNum a) ->
    update_by_trend_calls context trend (lo, hi) calls
    = map (fun total => Ok (Some total))
          (running a (map (fun c => uniform low high (snd c)) calls)).
Proof.
  intros Hlo Hhi Htrend.
  assert (V1 : Qltb lo 0 = false) by (apply Qltb_ge; exact Hlo).
  assert (V2 : Qltb hi 0 = false) by (apply Qltb_ge; lra).
  assert (V3 : Qltb hi lo = false) by (apply Qltb_ge; exact Hhi).
  induction calls as [|[current u] rest IH]; intros context a Ha; [reflexivity|].
  cbn [update_by_trend_calls map running snd]. unfold update_by_trend at 1 2.
  cbn [storage value]. rewrite V1, V2, V3. cbn [orb fst snd]. unfold get. rewrite Ha.
  cbn [as_num].
  destruct Htrend as [(-> & -> & ->) | (-> & -> & ->)].
  - change (String.eqb "up" "up") with true. cbn [returned stored]. f_equal.
    apply IH. cbn [with_storage storage]. apply lookup_insert_eq.
  - change (String.eqb "down" "up") with false. change (String.eqb "down" "down") with true.
    cbn [returned stored]. f_equal.
    apply IH. cbn [with_storage storage]. apply lookup_insert_eq.
Qed.

(** The first call of a metric, from its value. *)
Lemma trend_calls_first (trend : string) (lo hi : Q) (low high : Q) :
  0 <= lo -> lo <= hi ->
  (trend = "up" /\ low = lo /\ high = hi) \/ (trend = "down" /\ low = - hi /\ high = - lo) ->
  forall (calls : list (option Q * Q)) (context : MetricContext) (v0 u0 : Q),
    storage context !! "accumulated_value" = None ->
    update_by_trend_calls context trend (lo, hi) ((Some v0, u0) :: calls)
    = map (fun total => Ok (Some total))
          (running v0 (map (fun c => uniform low high (snd c)) ((Some v0, u0) :: calls))).
Proof.
  intros Hlo Hhi Htrend calls context v0 u0 Hfresh.
  assert (V1 : Qltb lo 0 = false) by (apply Qltb_ge; exact Hlo).
  assert (V2 : Qltb hi 0 = false) by (apply Qltb_ge; lra).
  assert (V3 : Qltb hi lo = false) by (apply Qltb_ge; exact Hhi).
  cbn [update_by_trend_calls map running snd]. unfold update_by_trend at 1 2.
  cbn [storage value]. rewrite V1, V2, V3. cbn [orb fst snd]. unfold get. rewrite Hfresh.
  cbn [of_opt as_num].
  pose proof (trend_calls_accumulated trend lo hi low high Hlo Hhi Htrend) as Hrest.
  destruct Htrend as [(-> & -> & ->) | (-> & -> & ->)].
  - change (String.eqb "up" "up") with true. cbn [returned stored]. f_equal.
    apply Hrest. cbn [with_storage storage]. apply lookup_insert_eq.
  - change (String.eqb "down" "up") with false. change (String.eqb "down" "down") with true.
    cbn [returned stored]. f_equal.
    apply Hrest. cbn [with_storage storage]. apply lookup_insert_eq.
Qed.

(** The running totals of steps that are all non-negative never decrease,
    those of steps that are all non-positive never increase. *)
Lemma running_sorted (steps : list Q) :
  forall a : Q,
    (Forall (fun d => 0 <= d) steps -> StronglySorted Qle (a :: running a steps))
    /\ (Forall (fun d => d <= 0) steps ->
        StronglySorted (fun x y => y <= x) (a :: running a steps)).
Proof.
  induction steps as [|d rest IH]; intros a; cbn [running].
  - split; intros _; repeat constructor.
  - split; intros Hsteps; apply Forall_cons in Hsteps; destruct Hsteps as [Hd Hrest].
    + destruct (IH (a + d)) as [Hup _]. specialize (Hup Hrest).
      constructor; [exact Hup|].
      apply StronglySorted_inv in Hup. destruct Hup as [_ Hall].
      constructor; [lra|].
      apply (List.Forall_impl _ (P := Qle (a + d))); [|exact Hall].
      intros x Hx. lra.
    + destruct (IH (a + d)) as [_ Hdown]. specialize (Hdown Hrest).
      constructor; [exact Hdown|].
      apply StronglySorted_inv in Hdown. destruct Hdown as [_ Hall].
      constructor; [lra|].
      apply (List.Forall_impl _ (P := fun y => y <= a + d)); [|exact Hall].
      intros x Hx. cbv beta in Hx. lra.
Qed.

Lemma trend_steps (low high : Q) (calls : list (option Q * Q)) :
  low <= high ->
  Forall (fun c => 0 <= snd c /\ snd c < 1) calls ->
  Forall (fun d => low <= d /\ d <= high) (map (fun c => uniform low high (snd c)) calls).
Proof.
  intros Hle. induction 1 as [|c rest [H0 H1] _ IH]; cbn [map]; constructor; [|exact IH].
  apply uniform_bounds; assumption.
Qed.

(** The calls of ['hold'] on a storage without accumulated value. *)
Lemma trend_calls_hold (lo hi : Q) :
  0 <= lo -> lo <= hi ->
  forall (calls : list (option Q * Q)) (context : MetricContext),
    storage context !! "accumulated_value" = None ->
    update_by_trend_calls context "hold" (lo, hi) calls
    = map (fun c => match fst c with
                    | Some current => Ok (Some (current + uniform (- lo) hi (snd c)))
                    | None => Raise (TypeError "accumulated_value + step")
                    end) calls.
Proof.
  intros Hlo Hhi.
  assert (V1 : Qltb lo 0 = false) by (apply Qltb_ge; exact Hlo).
  assert (V2 : Qltb hi 0 = false) by (apply Qltb_ge; lra).
  assert (V3 : Qltb hi lo = false) by (apply Qltb_ge; exact Hhi).
  induction calls as [|[current u] rest IH]; intros context Hfresh; [reflexivity|].
  cbn [update_by_trend_calls map fst snd]. unfold update_by_trend at 1 2.
  cbn [storage value]. rewrite V1, V2, V3. cbn [orb fst snd]. unfold get. rewrite Hfresh.
  change (String.eqb "hold" "up") with false. change (String.eqb "hold" "down") with false.
  change (String.eqb "hold" "hold") with true.
  destruct current as [current|]; cbn [of_opt as_num returned stored]; f_equal;
    apply IH; exact Hfresh.
Qed.


End TrendRuns.

